(** * Chrome webhook extension: delivery queue and LinkedIn connection parser

    A shallow embedding of the background script (the webhook queue with
    [addToQueue], [processQueue] and [postToWebhookDirect], the loading of
    the configured webhooks, the context menu ids, the estimate of the
    queued-notification, and [sendLinkedInDataToWebhooks]) and of the content
    script's [LinkedInMutualConnectionsParser] (the search results pages
    and the profile page), followed by the properties stated about them.

    Conventions of the embedding.
    - A JavaScript string is the list of its UTF-16 code units ([list N]).
    - A thrown exception is the [Throw] case of [Res]; [try]/[catch] and
      [finally] are written out.
    - An [async] method is a function of the parser object and of an
      explicit [World] (the clock, the random numbers, the pages a click
      loads); at each [await] the other tasks of the page run, which is what
      an [EventLoop] does to the parser and the world.
    - The browser is not part of the repository.  The CSS engine
      ([SelectorEngine]) and the URL parser ([Url.UrlParser]) are
      parameters; the DOM is a tree of [Element]s carrying the properties
      the scripts read. *)

From Stdlib Require Import ZArith NArith List String Ascii Bool Lia
  DecimalNat.
From stdpp Require Import base option list gmap strings.

Set Warnings "-register-all".

Local Open Scope string_scope.
Local Open Scope Z_scope.

(* ================================================================== *)
(** * JavaScript values *)
(* ================================================================== *)

Module JS.

(** A JavaScript string: its UTF-16 code units. *)
Abbreviation jsstring := (list N).

(** The code units of an ASCII literal of the source. *)
Definition js (s : string) : jsstring :=
  List.map N_of_ascii (list_ascii_of_string s).

(** The double quote, U+0022 (for literals that contain one). *)
Definition dq : string := String (ascii_of_nat 34) EmptyString.

Definition jsstring_eqb (a b : jsstring) : bool :=
  bool_decide (a = b).

(** ECMAScript WhiteSpace and LineTerminator code points: the set that
    [String.prototype.trim] strips and that [\s] matches. *)
Definition is_whitespace (c : N) : bool :=
  ((9 <=? c) && (c <=? 13) || (c =? 32) || (c =? 160) || (c =? 5760)
   || (8192 <=? c) && (c <=? 8202) || (c =? 8232) || (c =? 8233)
   || (c =? 8239) || (c =? 8287) || (c =? 12288) || (c =? 65279))%N.

Definition is_digit (c : N) : bool := ((48 <=? c) && (c <=? 57))%N.

Fixpoint trimStart (s : jsstring) : jsstring :=
  match s with
  | c :: s' => if is_whitespace c then trimStart s' else s
  | [] => []
  end.

Definition trimEnd (s : jsstring) : jsstring :=
  rev (trimStart (rev s)).

(** [s.trim()] *)
Definition trim (s : jsstring) : jsstring := trimEnd (trimStart s).

(** Truthiness of a string: every string but the empty one. *)
Definition truthy (s : jsstring) : bool :=
  match s with [] => false | _ => true end.

(** Truthiness of a property that may be [undefined] or [null]. *)
Definition truthy_opt (o : option jsstring) : bool :=
  match o with Some s => truthy s | None => false end.

(** [a || b] where both are strings. *)
Definition or_str (a b : jsstring) : jsstring :=
  if truthy a then a else b.

(** [a || b] where [a] may be [undefined]/[null] and [b] is a string. *)
Definition or_opt (a : option jsstring) (b : jsstring) : jsstring :=
  match a with
  | Some s => or_str s b
  | None => b
  end.

Fixpoint starts_with (p s : jsstring) : bool :=
  match p, s with
  | [], _ => true
  | a :: p', b :: s' => (a =? b)%N && starts_with p' s'
  | _ :: _, [] => false
  end.

(** [hay.includes(needle)] *)
Fixpoint includes (hay needle : jsstring) : bool :=
  starts_with needle hay ||
  match hay with
  | [] => false
  | _ :: hay' => includes hay' needle
  end.

(** ** Numbers *)

(** A JavaScript number, as far as the parser computes with one: a
    non-negative integer that a double holds, or [Infinity]. *)
Inductive number : Type :=
| Num (value : Z)
| Infinity.

(** The double nearest to the non-negative integer [n]: [n] itself below
    2^53; above, the 53 leading bits of [n], rounded to nearest with a tie
    going to the even significand; [Infinity] when that reaches 2^1024. *)
Definition to_double (n : Z) : number :=
  if n <? 2 ^ 53 then Num n
  else
    let e := Z.log2 n - 52 in
    let q := n / 2 ^ e in
    let r := n mod 2 ^ e in
    let half := 2 ^ (e - 1) in
    let q := if (r <? half) || ((r =? half) && Z.even q) then q else q + 1 in
    if 2 ^ 1024 <=? q * 2 ^ e then Infinity else Num (q * 2 ^ e).

(** [a + b] on such numbers: the exact sum, rounded *)
Definition plus (a b : number) : number :=
  match a, b with
  | Num x, Num y => to_double (x + y)
  | _, _ => Infinity
  end.

(** the integer that a string of decimal digits writes *)
Definition numeral_value (s : jsstring) : Z :=
  fold_left (fun acc c => 10 * acc + (Z.of_N c - 48)) s 0.

(** [Number.parseInt] on a string of decimal digits (the only strings the
    parser hands to it: the text captured by [(\d+)]): the double nearest
    to the integer written, which is how Chrome rounds a decimal numeral
    of any length. *)
Definition parseInt_digits (s : jsstring) : number :=
  to_double (numeral_value s).

(** ASCII lower-casing of one code unit, for the [i] flag of a regular
    expression whose literals are ASCII. *)
Definition lower (c : N) : N :=
  if ((65 <=? c) && (c <=? 90))%N then (c + 32)%N else c.

(** ** Exceptions *)

Inductive exn : Type :=
| Error (message : string)        (* [new Error(message)] *)
| SyntaxError (selector : list string) (* [querySelector] on a bad selector *)
| TypeError (message : string).   (* property of null, invalid URL *)

Inductive Res (A : Type) : Type :=
| Ok (a : A)
| Throw (e : exn).
Arguments Ok {A} a.
Arguments Throw {A} e.

Definition bindR {A B} (r : Res A) (k : A -> Res B) : Res B :=
  match r with
  | Ok a => k a
  | Throw e => Throw e
  end.

(** [try { body } catch (err) { handler }] *)
Definition try_catch {A} (body : Res A) (handler : exn -> Res A) : Res A :=
  match body with
  | Ok a => Ok a
  | Throw e => handler e
  end.

End JS.
Export JS.

(* ================================================================== *)
(** * Regular expressions *)
(* ================================================================== *)

(** The backtracking matcher of ECMAScript, for the constructs the scripts
  use: single code-unit classes, sequence, greedy [?] and [+], and
  numbered capture groups. *)
Module Regex.

Inductive regex : Type :=
| Empty
| Lit (p : N -> bool)
| Seq (r1 r2 : regex)
| Opt (r : regex)
| Plus (r : regex)
| Capture (i : nat) (r : regex).

(** capture slots, most recent binding first *)
Definition caps := list (nat * jsstring).

Fixpoint cap_get (i : nat) (c : caps) : option jsstring :=
  match c with
  | [] => None
  | (j, s) :: c' => if Nat.eqb i j then Some s else cap_get i c'
  end.

(** [rmatch r s c k]: match [r] at the front of [s], then continue with
    [k] on the rest; [None] when every alternative fails. *)
Fixpoint rmatch {R : Type} (r : regex) (s : jsstring) (c : caps)
         (k : jsstring -> caps -> option R) {struct r} : option R :=
  match r with
  | Empty => k s c
  | Lit p =>
      match s with
      | x :: s' => if p x then k s' c else None
      | [] => None
      end
  | Seq r1 r2 => rmatch r1 s c (fun s' c' => rmatch r2 s' c' k)
  | Opt r1 =>
      match rmatch r1 s c k with
      | Some x => Some x
      | None => k s c
      end
  | Plus r1 =>
      (fix loop (n : nat) (s : jsstring) (c : caps) {struct n} : option R :=
         match n with
         | O => None
         | S n' =>
             rmatch r1 s c (fun s' c' =>
               match (if (length s' <? length s)%nat
                      then loop n' s' c' else None) with
               | Some x => Some x
               | None => k s' c'
               end)
         end) (S (length s)) s c
  | Capture i r1 =>
      rmatch r1 s c (fun s' c' =>
        k s' ((i, take (length s - length s')%nat s) :: c'))
  end.

(** [s.match(r)] without the [g] flag: the leftmost match; the result is
    the capture slots. *)
Fixpoint search (r : regex) (s : jsstring) : option caps :=
  match rmatch r s [] (fun _ c => Some c) with
  | Some c => Some c
  | None =>
      match s with
      | [] => None
      | _ :: s' => search r s'
      end
  end.

(** building blocks *)
Definition digit : regex := Lit is_digit.                 (* \d *)
Definition space : regex := Lit is_whitespace.            (* \s *)
Definition chr_i (a : ascii) : regex :=                   (* x, flag i *)
  Lit (fun c => (lower c =? lower (N_of_ascii a))%N).
Definition chr (a : ascii) : regex :=                     (* x *)
  Lit (fun c => (c =? N_of_ascii a)%N).

Fixpoint word_with (f : ascii -> regex) (w : string) : regex :=
  match w with
  | EmptyString => Empty
  | String a w' => Seq (f a) (word_with f w')
  end.

Definition word_i := word_with chr_i.
Definition word := word_with chr.

End Regex.

(* ================================================================== *)
(** * URLs *)
(* ================================================================== *)

(** [new URL(href)] and [url.searchParams.get(name)] belong to the
    platform.  The parser of the platform is a parameter ([UrlParser]);
    what the model fixes of it is its answer on a plain URL: an [https] or
    [http] URL without credentials or port, whose host is made of
    lower-case labels and whose path, query and fragment are printable
    ASCII with percent escapes below 0x80.  There the query is the text
    between the first [?] and the first [#]; it is split at [&], each pair
    at its first [=], and name and value are decoded ([+] is a space,
    [%XX] is the byte XX).  On any other string (a relative URL, a host
    the platform rejects, an escape that is part of a UTF-8 sequence) the
    parser is left free. *)
Module Url.

(** the part of [s] before the first [c], and the part after it *)
Fixpoint split_at (c : N) (s : jsstring) : jsstring * option jsstring :=
  match s with
  | [] => ([], None)
  | x :: s' =>
      if (x =? c)%N then ([], Some s')
      else let '(a, b) := split_at c s' in (x :: a, b)
  end.

(** pieces of [s] between occurrences of [c] *)
Fixpoint split_all (c : N) (s : jsstring) : list jsstring :=
  match s with
  | [] => [[]]
  | x :: s' =>
      if (x =? c)%N then [] :: split_all c s'
      else match split_all c s' with
           | p :: ps => (x :: p) :: ps
           | [] => [[x]]
           end
  end.

Definition hex_val (c : N) : option N :=
  (if is_digit c then Some (c - 48)
   else if (65 <=? c) && (c <=? 70) then Some (c - 55)
   else if (97 <=? c) && (c <=? 102) then Some (c - 87)
   else None)%N.

(** application/x-www-form-urlencoded decoding of a name or value whose
    percent escapes are below 0x80 *)
Fixpoint form_decode (s : jsstring) : jsstring :=
  match s with
  | [] => []
  | c :: s' =>
      if (c =? 43)%N then 32%N :: form_decode s'
      else if (c =? 37)%N then
        match s' with
        | h :: (l :: s'') as t =>
            match hex_val h, hex_val l with
            | Some a, Some b => (16 * a + b)%N :: form_decode s''
            | _, _ => c :: form_decode t
            end
        | _ => c :: form_decode s'
        end
      else c :: form_decode s'
  end.

(** the text between the first [?] and the first [#] *)
Definition query_of (href : jsstring) : jsstring :=
  default [] (snd (split_at 63 (fst (split_at 35 href)))).

(** the name/value pairs of a query, in order *)
Definition pairs_of (query : jsstring) : list (jsstring * jsstring) :=
  List.map
    (fun piece =>
       let '(n, v) := split_at 61 piece in
       (form_decode n, form_decode (default [] v)))
    (List.filter truthy (split_all 38 query)).

(** the first value under [name], or [null] *)
Definition query_get (query name : jsstring) : option jsstring :=
  match List.find (fun nv => jsstring_eqb (fst nv) name) (pairs_of query) with
  | Some nv => Some (snd nv)
  | None => None
  end.

(** ** Plain URLs *)

Definition is_lower (c : N) : bool := ((97 <=? c) && (c <=? 122))%N.

(** a label of a plain host: it starts with a lower-case letter, goes on
    with lower-case letters, digits and hyphens, and does not start with
    [xn--] *)
Definition plain_label (l : jsstring) : bool :=
  match l with
  | c :: _ =>
      is_lower c
      && forallb (fun x => is_lower x || is_digit x || (x =? 45)%N) l
      && negb (starts_with (js "xn--") l)
  | [] => false
  end.

(** the host of [s], which ends at the first [/], [?] or [#], and what
    follows it *)
Fixpoint host_and_tail (s : jsstring) : jsstring * jsstring :=
  match s with
  | [] => ([], [])
  | c :: s' =>
      if ((c =? 47) || (c =? 63) || (c =? 35))%N then ([], s)
      else let '(h, t) := host_and_tail s' in (c :: h, t)
  end.

(** no percent sign is followed by a hexadecimal digit from 8 on *)
Fixpoint ascii_escapes (s : jsstring) : bool :=
  match s with
  | [] => true
  | c :: s' =>
      (if (c =? 37)%N then
         match s' with
         | h :: _ => match hex_val h with
                     | Some a => (a <? 8)%N
                     | None => true
                     end
         | [] => true
         end
       else true)
      && ascii_escapes s'
  end.

(** what follows the scheme of a plain URL *)
Definition plain_rest (s : jsstring) : bool :=
  let '(host, tail) := host_and_tail s in
  forallb plain_label (split_all 46 host)
  && forallb (fun c => (33 <=? c) && (c <=? 126))%N tail
  && ascii_escapes tail.

Fixpoint drop_prefix (p s : jsstring) : option jsstring :=
  match p, s with
  | [], _ => Some s
  | a :: p', b :: s' => if (a =? b)%N then drop_prefix p' s' else None
  | _ :: _, [] => None
  end.

(** a plain URL: [https://] or [http://], a host, and a tail, in at most
    2000 code units *)
Definition plain (href : jsstring) : bool :=
  (length href <=? 2000)%nat
  && match drop_prefix (js "https://") href with
     | Some rest => plain_rest rest
     | None =>
         match drop_prefix (js "http://") href with
         | Some rest => plain_rest rest
         | None => false
         end
     end.

(** The URL parser of the platform: [new URL(href)] returns a URL object
    or throws, and [url.searchParams.get(name)] returns a value or [null].
    On a plain URL the constructor returns, and the parameters are the
    decoded pairs of its query. *)
Class UrlParser : Type := {
  URL : Type;
  new_URL : jsstring -> Res URL;
  searchParams_get : URL -> jsstring -> option jsstring;
  new_URL_plain : forall href,
    plain href = true ->
    exists url, new_URL href = Ok url /\
                forall name, searchParams_get url name
                             = query_get (query_of href) name }.

(** a parser that accepts the plain URLs and no other string *)
Definition plain_parser : UrlParser :=
  {| URL := jsstring;
     new_URL href :=
       if plain href then Ok (query_of href)
       else Throw (TypeError "Invalid URL");
     searchParams_get query name := query_get query name;
     new_URL_plain href :=
       fun Hplain : plain href = true =>
         ex_intro _ (query_of href)
           (conj (f_equal
                    (fun b : bool =>
                       if b then Ok (query_of href)
                       else Throw (TypeError "Invalid URL"))
                    Hplain)
                 (fun name => eq_refl)) |}.

End Url.

(* ================================================================== *)
(** * The DOM *)
(* ================================================================== *)

Module Dom.

(** An element: the properties the scripts read, and its child elements in
    document order.  [innerText], [href] and [src] are [None] where the
    property is [undefined] on that kind of element. *)
Inductive Element : Type := mkElement {
  node_id : nat;
  textContent : jsstring;
  innerText : option jsstring;
  href : option jsstring;
  src : option jsstring;
  disabled : bool;
  attributes : list (string * jsstring);
  children : list Element }.

(** [e.getAttribute(name)] *)
Definition getAttribute (e : Element) (name : string) : option jsstring :=
  match List.find (fun kv => String.eqb (fst kv) name) (attributes e) with
  | Some kv => Some (snd kv)
  | None => None
  end.

(** an element and everything below it, in document order *)
Fixpoint subtree (e : Element) : list Element :=
  e :: (fix below (l : list Element) : list Element :=
          match l with
          | [] => []
          | c :: l' => (subtree c ++ below l')%list
          end) (children e).

(** the elements strictly below [e], in document order *)
Definition descendants (e : Element) : list Element :=
  flat_map subtree (children e).

(** The CSS engine of the browser: which single selectors parse, and which
    elements a selector matches. *)
Class SelectorEngine : Type := {
  sel_valid : string -> bool;
  sel_matches : string -> Element -> bool }.

(** A selector list [s1, s2, ...] of the source is the list of its
    comma-separated selectors. *)
Abbreviation selector_list := (list string).

Definition matches_any `{SelectorEngine} (g : selector_list) (e : Element) : bool :=
  existsb (fun s => sel_matches s e) g.

Definition parses `{SelectorEngine} (g : selector_list) : bool :=
  match g with
  | [] => false
  | _ => forallb sel_valid g
  end.

(** [root.querySelectorAll(g)]: a SyntaxError when a selector of the list
    does not parse; otherwise the elements below [root] that match one of
    the selectors, in document order. *)
Definition querySelectorAll `{SelectorEngine} (root : Element) (g : selector_list)
  : Res (list Element) :=
  if parses g then Ok (List.filter (matches_any g) (descendants root))
  else Throw (SyntaxError g).

(** [root.querySelector(g)]: the first of them, or [null]. *)
Definition querySelector `{SelectorEngine} (root : Element) (g : selector_list)
  : Res (option Element) :=
  if parses g then Ok (List.find (matches_any g) (descendants root))
  else Throw (SyntaxError g).

(** A selector literal of the source, written with an apostrophe where the
    source has a double quote. *)
Definition sel (s : string) : string :=
  string_of_list_ascii
    (List.map (fun a => if Ascii.eqb a "'"%char then ascii_of_nat 34 else a)
              (list_ascii_of_string s)).

End Dom.
Export Dom.

(* ================================================================== *)
(** * The content script: LinkedInMutualConnectionsParser *)
(* ================================================================== *)

(** [this.config] of the parser: the selector lists the claims go through,
    and the session limits. *)
Module Config.

Definition mutualConnectionsLink : selector_list :=
  [ sel "a[href*='facetConnectionOf']"; sel "a[href*='mutual']";
    sel "a[href*='connections/shared']"; sel "a[href*='keyword=mutual']" ].

Definition connectionName : selector_list :=
  [ sel "span.entity-result__title-text a span[dir='ltr']";
    sel ".entity-result__title-text a span";
    sel "span.reusable-search__entity-result-list__result-link-text";
    sel "span[aria-hidden='true'][class*='t-14']";
    sel "span[aria-hidden='true'][class*='t-16']" ].

Definition profileUrl : selector_list :=
  [ sel "a.app-aware-link[href*='/in/']"; sel "a[href*='/in/']" ].

Definition profileHeadline : selector_list :=
  [ sel ".entity-result__primary-subtitle"; sel ".entity-result__summary";
    sel "div.entity-result__primary-subtitle";
    sel "div[aria-hidden='true'][class*='t-12']";
    sel "div[data-test-id='hero-title'] ~ div" ].

Definition location : selector_list :=
  [ sel ".entity-result__secondary-subtitle"; sel ".entity-result__location";
    sel "div.entity-result__secondary-subtitle";
    sel "span[aria-hidden='true'][class*='t-12']"; sel "span.t-black--light";
    sel "span[data-test-id='hero-location']" ].

(** The object literal has two [profileImage] keys, one among the keys for
    the search results page and one among those for the profile page; the
    object holds the value of the later one, which is this list, for
    [extractConnectionData] as for [parseProfilePage]. *)
Definition profileImage : selector_list :=
  [ sel ".pv-top-card-profile-picture__image";
    sel ".pv-member-photo-edit__image";
    sel "img.pv-top-card-profile-picture__image--show";
    sel "img.profile-photo-edit__preview";
    sel "img[alt*='Profile photo']" ].

Definition connectionBadge : selector_list :=
  [ sel ".entity-result__badge-text"; sel ".entity-result__badge";
    sel "span[aria-hidden='true'][class*='entity-result__badge']" ].

Definition premiumIndicator : selector_list :=
  [ sel "li-icon[type='linkedin-bug']"; sel ".premium-icon" ].

Definition resultItems : selector_list :=
  [ sel "li.reusable-search__result-container"; sel ".entity-result";
    sel ".search-result"; sel "li.reusable-search__entity-result-list__item";
    sel "div.reusable-search__entity-result";
    sel "li.search-reusables__result-container" ].

Definition nextPageButton : selector_list :=
  [ sel "button[aria-label*='Next']"; sel ".artdeco-pagination__button--next";
    sel "button.artdeco-pagination__button--next";
    sel "button[aria-label*='Next page']" ].

Definition profileName : selector_list :=
  [ sel "h1.text-heading-xlarge"; sel ".text-heading-xlarge";
    sel ".pv-text-details__title h1"; sel ".pv-top-card--list h1";
    sel ".pv-text-details__left-panel h1";
    sel "div[data-test-id='hero-title'] h1"; sel "main h1.inline.t-24" ].

Definition maxPagesPerSession : nat := 50.
Definition sessionTimeout : Z := 300000.   (* 5 minutes *)
Definition minPageDelay : Z := 2000.
Definition maxPageDelay : Z := 7000.

End Config.

(** [new Date().toISOString()]: the instant it prints. *)
Record isotime : Type := ISO { epoch_ms : Z }.

(** [`${Date.now()}-${Math.random().toString(36).slice(2, 11)}`]: its two
    parts. *)
Record session_id : Type := SessionId { sid_time : Z; sid_random : jsstring }.

(** ConnectionRecord: one row of a search-results page. *)
Module Connection.
Record t : Type := mk {
  name : jsstring;
  profileUrl : jsstring;
  headline : jsstring;
  location : jsstring;
  profileImageUrl : jsstring;
  connectionDegree : jsstring;
  isPremium : bool;
  extractedAt : isotime }.
End Connection.

(** [request.profileData]: what the background script knows of the source
    profile; a field it did not set is [None]. *)
Module ProfileData.
Record t : Type := mk {
  profileName : option jsstring;
  profileUrl : option jsstring;
  encodedId : option jsstring;
  totalCount : option Z }.
End ProfileData.

(** [this.currentSession] *)
Module Session.
Record t : Type := mk {
  profileData : ProfileData.t;
  startTime : Z;
  connections : list Connection.t;
  pagesProcessed : nat }.
End Session.

(** the result of [detectMutualConnections] *)
Module Detection.
Record t : Type := mk {
  searchUrl : jsstring;
  encodedId : jsstring;
  totalCount : option number;
  text : jsstring }.
End Detection.

Module Metadata.
Record t : Type := mk {
  timestamp : isotime;
  sessionId : session_id;
  version : string;
  source : string;
  relationType : option string }.   (* only on per-connection payloads *)
End Metadata.

(** the payload of [buildWebhookPayload] *)
Module Aggregate.
Record profile : Type := mkProfile {
  name : jsstring;
  profileUrl : jsstring;
  encodedId : jsstring }.
Record t : Type := mk {
  profileViewed : profile;
  mutualConnections : list Connection.t;
  totalCount : nat;
  pagesScraped : nat;
  extractionDuration : Z;
  metadata : Metadata.t }.
End Aggregate.

(** the per-connection payload of [buildBidirectionalPayloads] *)
Module Bidirectional.
Record viewed : Type := mkViewed {
  name : jsstring;
  profileUrl : jsstring;
  linkedinId : option jsstring }.
Record source_profile : Type := mkSource {
  src_name : jsstring;
  src_profileUrl : jsstring;
  src_linkedinId : option jsstring;
  src_encodedId : jsstring }.
Record details : Type := mkDetails {
  headline : jsstring;
  location : jsstring;
  profileImageUrl : jsstring;
  connectionDegree : jsstring;
  isPremium : bool;
  extractedAt : isotime }.
Record t : Type := mk {
  profileViewed : viewed;
  mutualConnectionsWith : source_profile;
  connectionDetails : details;
  metadata : Metadata.t }.
End Bidirectional.

(** an element of the array [buildBidirectionalPayloads] returns *)
Inductive Payload : Type :=
| MainPayload (p : Aggregate.t)
| ConnectionPayload (p : Bidirectional.t).

(** ** The world an [async] method runs in *)

(** What the page and the clock do while the script runs: the successive
    readings of [Date.now()], the successive values of
    [Math.random().toString(36).slice(2, 11)], and the document in place
    after each click on the next-page button. *)
Record World : Type := mkWorld {
  clock : nat -> Z;
  ticks : nat;
  random : nat -> jsstring;
  draws : nat;
  pages : nat -> Element;
  page_ix : nat }.

(** [this] of the parser: the processing flag and the session. *)
Record Parser : Type := mkParser {
  isProcessing : bool;
  currentSession : option Session.t }.

(** the parser as its constructor leaves it *)
Definition new_Parser : Parser := mkParser false None.

(** A method: it may read and change [this] and the world, and returns or
    throws. *)
Definition M (A : Type) : Type := Parser -> World -> Res A * Parser * World.

Definition ret {A} (a : A) : M A := fun p w => (Ok a, p, w).

Definition throw {A} (e : exn) : M A := fun p w => (Throw e, p, w).

Definition bind {A B} (m : M A) (k : A -> M B) : M B :=
  fun p w =>
    match m p w with
    | (Ok a, p', w') => k a p' w'
    | (Throw e, p', w') => (Throw e, p', w')
    end.

Notation "x <- m ;; k" := (bind m (fun x => k))
  (at level 100, m at next level, right associativity).
Notation "m ;;; k" := (bind m (fun _ => k))
  (at level 100, right associativity).

(** a DOM or URL call, which returns or throws *)
Definition lift {A} (r : Res A) : M A := fun p w => (r, p, w).

(** [try { body } catch (err) { handler err }] *)
Definition try_catchM {A} (body : M A) (handler : exn -> M A) : M A :=
  fun p w =>
    match body p w with
    | (Ok a, p', w') => (Ok a, p', w')
    | (Throw e, p', w') => handler e p' w'
    end.

(** [try { body } finally { cleanup }], for a [cleanup] that cannot throw *)
Definition try_finally {A} (body : M A) (cleanup : Parser -> Parser) : M A :=
  fun p w =>
    match body p w with
    | (r, p', w') => (r, cleanup p', w')
    end.

(** [document] *)
Definition get_document : M Element :=
  fun p w => (Ok (pages w (page_ix w)), p, w).

(** [Date.now()] *)
Definition Date_now : M Z :=
  fun p w =>
    (Ok (clock w (ticks w)), p,
     mkWorld (clock w) (S (ticks w)) (random w) (draws w) (pages w) (page_ix w)).

(** [new Date().toISOString()] *)
Definition new_Date_toISOString : M isotime :=
  t <- Date_now ;; ret (ISO t).

(** [Math.random().toString(36).slice(2, 11)] *)
Definition Math_random_token : M jsstring :=
  fun p w =>
    (Ok (random w (draws w)), p,
     mkWorld (clock w) (ticks w) (random w) (S (draws w)) (pages w) (page_ix w)).

Definition get_this : M Parser := fun p w => (Ok p, p, w).

Definition set_this (p' : Parser) : M unit := fun _ w => (Ok tt, p', w).

(** ** Suspension *)

(** What the other tasks of the page do to the parser object and to the
    world while the script waits at an [await]. *)
Class EventLoop : Type := {
  meanwhile : Parser -> World -> Parser * World }.

(** [await] of a promise that a timer or the page resolves: the script is
    suspended, the other tasks run *)
Definition suspend `{EventLoop} : M unit :=
  fun p w => let '(p', w') := meanwhile p w in (Ok tt, p', w').

(** [await m] for a call [m] of an [async] method: the call runs up to its
    end, and the caller goes on, with what the call returned or threw,
    after the other tasks have run *)
Definition await `{EventLoop} {A} (m : M A) : M A :=
  fun p w =>
    let '(r, p1, w1) := m p w in
    let '(p2, w2) := meanwhile p1 w1 in
    (r, p2, w2).

(** [nextButton.click()] followed by [await this.waitForPageLoad()]: the
    next document is in place. *)
Definition click_and_load `{EventLoop} : M unit :=
  suspend ;;;
  fun p w =>
    (Ok tt, p,
     mkWorld (clock w) (ticks w) (random w) (draws w) (pages w) (S (page_ix w))).

(** [randomDelay(min, max)] and [humanScroll(target)] of the
    [AntiDetectionManager]: the script waits for a timer; the time that
    passes shows in the next reading of the clock.  (Whether [humanScroll]
    scrolls at all depends on the layout of the page, which the model does
    not have.) *)
Definition randomDelay `{EventLoop} (min max : Z) : M unit := suspend.

Definition humanScroll `{EventLoop} (target : Element) : M unit := suspend.

(** ** Answers of the message listener *)

(** what [sendResponse] is called with *)
Inductive Response (A : Type) : Type :=
| Success (data : A)
| Failure (error : string).
Arguments Success {A} data.
Arguments Failure {A} error.

(** [error.message]; the text of a browser-raised exception is the
    browser's, only that of [new Error(message)] is the script's. *)
Definition exn_message (e : exn) : string :=
  match e with
  | Error m => m
  | SyntaxError _ => "The string did not match the expected pattern."
  | TypeError m => m
  end.

(** ** The methods *)

Section Methods.

Context `{SelectorEngine} `{Url.UrlParser} `{EventLoop}.

(** [(e.textContent || e.innerText || '')] *)
Definition text_of (e : Element) : jsstring :=
  or_str (textContent e) (or_opt (innerText e) []).

(** [(e?.textContent || e?.innerText || '')] *)
Definition text_of_opt (e : option Element) : jsstring :=
  match e with
  | Some e => text_of e
  | None => []
  end.

(** [root.querySelector(g1) || root.querySelector(g2)], and the same written
    as [let x = root.querySelector(g1); if (!x) x = root.querySelector(g2)]:
    the second query runs only when the first finds nothing. *)
Definition query_or (root : Element) (g1 g2 : selector_list)
  : Res (option Element) :=
  bindR (querySelector root g1) (fun found =>
    match found with
    | Some e => Ok (Some e)
    | None => querySelector root g2
    end).

(** [extractTextContent(selector)]: one query with the whole selector list,
    inside [try]/[catch]. *)
Definition extractTextContent (document : Element) (selector : selector_list)
  : Res (option jsstring) :=
  try_catch
    (bindR (querySelector document selector) (fun element =>
       match element with
       | Some element => Ok (Some (trim (text_of element)))
       | None => Ok None
       end))
    (fun error => Ok None).

(** [extractAttribute(selector, attribute)] *)
Definition extractAttribute (document : Element) (selector : selector_list)
           (attribute : string) : Res (option jsstring) :=
  try_catch
    (bindR (querySelector document selector) (fun element =>
       match element with
       | Some element => Ok (getAttribute element attribute)
       | None => Ok None
       end))
    (fun error => Ok None).

(** [/(\d+)\s+(?:other\s+)?mutual\s+connections/i] *)
Definition mutual_count_regex : Regex.regex :=
  Regex.Seq (Regex.Capture 1 (Regex.Plus Regex.digit))
 (Regex.Seq (Regex.Plus Regex.space)
 (Regex.Seq (Regex.Opt (Regex.Seq (Regex.word_i "other")
                                  (Regex.Plus Regex.space)))
 (Regex.Seq (Regex.word_i "mutual")
 (Regex.Seq (Regex.Plus Regex.space)
            (Regex.word_i "connections"))))).

(** [detectMutualConnections()] *)
Definition detectMutualConnections (document : Element)
  : Res (option Detection.t) :=
  try_catch
    (bindR (querySelector document Config.mutualConnectionsLink)
       (fun mutualConnectionsElement =>
     match mutualConnectionsElement with
     | None => Ok None
     | Some mutualConnectionsElement =>
         match href mutualConnectionsElement with
         | None => Ok None
         | Some href =>
             if negb (truthy href) then Ok None
             else
               bindR (Url.new_URL href) (fun url =>
               match Url.searchParams_get url (js "facetConnectionOf") with
               | None => Ok None
               | Some encodedId =>
                   if negb (truthy encodedId) then Ok None
                   else
                     let text := or_str (textContent mutualConnectionsElement) [] in
                     let countMatch := Regex.search mutual_count_regex text in
                     let totalCount :=
                       match countMatch with
                       | Some c =>
                           Some (plus (parseInt_digits
                                         (default [] (Regex.cap_get 1 c)))
                                      (Num 2))
                       | None => None
                       end in
                     Ok (Some (Detection.mk href encodedId totalCount (trim text)))
               end)
         end
     end))
    (fun err => Ok None).

(** the [nameElement] of [extractConnectionData]: the configured selector
    list, then the literal one *)
Definition find_nameElement (element : Element) : Res (option Element) :=
  query_or element Config.connectionName
    [ sel ".entity-result__title-text a"; sel ".search-result__title a";
      sel ".actor-name" ].

(** the [profileUrlElement] of [extractConnectionData] *)
Definition find_profileUrlElement (element : Element) : Res (option Element) :=
  query_or element Config.profileUrl
    [ sel "a[href*='/in/']"; sel ".entity-result__title-text a" ].

(** [extractConnectionData(element)] *)
Definition extractConnectionData (element : Element)
  : M (option Connection.t) :=
  try_catchM
    (nameElement <- lift (find_nameElement element) ;;
     profileUrlElement <- lift (find_profileUrlElement element) ;;
     match nameElement, profileUrlElement with
     | Some nameElement, Some profileUrlElement =>
         headlineElement <- lift (query_or element Config.profileHeadline
             [ sel ".entity-result__summary"; sel ".search-result__summary" ]) ;;
         locationElement <- lift (query_or element Config.location
             [ sel ".entity-result__location"; sel ".search-result__location" ]) ;;
         imageElement <- lift (query_or element Config.profileImage
             [ sel "img[alt*='profile']"; sel ".entity-result__image img" ]) ;;
         badgeElement <- lift (query_or element Config.connectionBadge
             [ sel ".entity-result__badge"; sel ".search-result__badge" ]) ;;
         premiumElement <- lift (query_or element Config.premiumIndicator
             [ sel ".premium-icon"; sel "[data-test-id*='premium']" ]) ;;
         extractedAt <- new_Date_toISOString ;;
         let connection :=
           Connection.mk
             (trim (text_of nameElement))
             (or_opt (href profileUrlElement) [])
             (trim (text_of_opt headlineElement))
             (trim (text_of_opt locationElement))
             (or_opt (imageElement ≫= src) [])
             (trim (text_of_opt badgeElement))
             (bool_decide (is_Some premiumElement))
             extractedAt in
         if negb (truthy (Connection.name connection)
                  && truthy (Connection.profileUrl connection))
         then ret None
         else ret (Some connection)
     | _, _ => ret None    (* essential data missing *)
     end)
    (fun err => ret None).

(** [this.antiDetection.detectBotProtection()]: the eight indicators are
    computed in order, then [some]. *)
Definition detectBotProtection (document : Element) : Res bool :=
  bindR (querySelector document [ sel "[id*='captcha']" ]) (fun i1 =>
  bindR (querySelector document [ sel "[class*='challenge']" ]) (fun i2 =>
  let i3 := includes (textContent document) (js "slow down") in
  let i4 := includes (textContent document) (js "too many requests") in
  let i5 := includes (textContent document) (js "unusual activity") in
  bindR (querySelector document [ sel "[data-test-id='auth-wall']" ]) (fun i6 =>
  bindR (querySelector document [ sel ".challenge-page" ]) (fun i7 =>
  bindR (querySelector document [ sel ".security-challenge" ]) (fun i8 =>
  Ok (bool_decide (is_Some i1) || bool_decide (is_Some i2) || i3 || i4 || i5
      || bool_decide (is_Some i6) || bool_decide (is_Some i7)
      || bool_decide (is_Some i8))))))).

(** the [for (const item of items)] loop of [parseSearchResults] *)
Fixpoint extract_items (items : list Element) (connections : list Connection.t)
  : M (list Connection.t) :=
  match items with
  | [] => ret connections
  | item :: rest =>
      connections' <-
        try_catchM
          (connection <- await (extractConnectionData item) ;;
           match connection with
           | Some c => ret (connections ++ [c])%list
           | None => ret connections
           end)
          (fun err => ret connections) ;;
      await (randomDelay 200 500) ;;;
      extract_items rest connections'
  end.

(** [parseSearchResults()] *)
Definition parseSearchResults : M (list Connection.t) :=
  try_catchM
    (await (randomDelay 2000 7000) ;;;
     document <- get_document ;;
     blocked <- lift (detectBotProtection document) ;;
     if (blocked : bool) then
       throw (Error "Bot protection detected - aborting parsing")
     else
       resultItems <- lift (querySelectorAll document Config.resultItems) ;;
       if (length resultItems =? 0)%nat then
         alternativeItems <- lift (querySelectorAll document
             [ sel ".entity-result"; sel ".search-result__wrapper" ]) ;;
         if (length alternativeItems =? 0)%nat then ret []
         else extract_items alternativeItems []
       else extract_items resultItems [])
    (fun err => throw err).

(** [hasNextPage()], as the truth value its caller tests *)
Definition hasNextPage : M bool :=
  document <- get_document ;;
  nextButton <- lift (querySelector document Config.nextPageButton) ;;
  match nextButton with
  | Some nextButton =>
      ret (negb (disabled nextButton)
           && negb (truthy_opt (getAttribute nextButton "aria-disabled")))
  | None => ret false
  end.

(** [navigateToNextPage()] *)
Definition navigateToNextPage : M unit :=
  document <- get_document ;;
  nextButton <- lift (querySelector document Config.nextPageButton) ;;
  match nextButton with
  | None => throw (Error "Next page button not found")
  | Some nextButton =>
      await (humanScroll nextButton) ;;;
      await (randomDelay 2000 7000) ;;;
      click_and_load
  end.

(** [this.currentSession], for a property read that follows: reading a
    property of [null] is a TypeError. *)
Definition get_session : M Session.t :=
  this <- get_this ;;
  match currentSession this with
  | Some session => ret session
  | None => throw (TypeError "Cannot read properties of null")
  end.

(** [this.currentSession.connections.push(...pageConnections);
     this.currentSession.pagesProcessed++] *)
Definition record_page (pageConnections : list Connection.t) : M unit :=
  session <- get_session ;;
  this <- get_this ;;
  set_this
    (mkParser (isProcessing this)
       (Some (Session.mk (Session.profileData session)
                         (Session.startTime session)
                         (Session.connections session ++ pageConnections)%list
                         (S (Session.pagesProcessed session))))).

(** The [while (currentPage <= this.config.maxPagesPerSession)] loop of
    [parseAllMutualConnections]; [remaining] counts the iterations still
    allowed, [maxPagesPerSession - currentPage + 1].  [break] and falling
    out of the loop both return. *)
Fixpoint page_loop (remaining : nat) : M unit :=
  match remaining with
  | O => ret tt
  | S remaining' =>
      (* Check session timeout *)
      now <- Date_now ;;
      session <- get_session ;;
      if now - Session.startTime session >? Config.sessionTimeout then
        throw (Error "Session timeout exceeded")
      else
        (* Parse current page *)
        pageConnections <- await parseSearchResults ;;
        record_page pageConnections ;;;
        (* Check if there are more pages *)
        more <- hasNextPage ;;
        if negb more then ret tt
        else
          await (randomDelay Config.minPageDelay Config.maxPageDelay) ;;;
          await navigateToNextPage ;;;
          page_loop remaining'
  end.

(** [generateSessionId()] *)
Definition generateSessionId : M session_id :=
  t <- Date_now ;;
  r <- Math_random_token ;;
  ret (SessionId t r).

(** [buildWebhookPayload()] *)
Definition buildWebhookPayload : M Aggregate.t :=
  session <- get_session ;;
  let profileData := Session.profileData session in
  now <- Date_now ;;
  timestamp <- new_Date_toISOString ;;
  sessionId <- generateSessionId ;;
  ret (Aggregate.mk
         (Aggregate.mkProfile
            (or_opt (ProfileData.profileName profileData) [])
            (or_opt (ProfileData.profileUrl profileData) [])
            (or_opt (ProfileData.encodedId profileData) []))
         (Session.connections session)
         (length (Session.connections session))
         (Session.pagesProcessed session)
         (now - Session.startTime session)
         (Metadata.mk timestamp sessionId "2.0" "linkedin-mutual-connections"
                      None)).

(** [parseAllMutualConnections(profileData)] *)
Definition parseAllMutualConnections (profileData : ProfileData.t)
  : M Aggregate.t :=
  this <- get_this ;;
  if isProcessing this then throw (Error "Parsing already in progress")
  else
    set_this (mkParser true (currentSession this)) ;;;
    startTime <- Date_now ;;
    set_this (mkParser true (Some (Session.mk profileData startTime [] 0))) ;;;
    try_finally
      (page_loop Config.maxPagesPerSession ;;;
       buildWebhookPayload)
      (fun this => mkParser false (currentSession this)).

(** [/\/in\/([^/?]+)/] *)
Definition linkedin_id_regex : Regex.regex :=
  Regex.Seq (Regex.word "/in/")
            (Regex.Capture 1
               (Regex.Plus (Regex.Lit (fun c => negb ((c =? 47) || (c =? 63))%N)))).

(** [extractLinkedInIdFromUrl(url)] *)
Definition extractLinkedInIdFromUrl (url : jsstring) : option jsstring :=
  match Regex.search linkedin_id_regex url with
  | Some c => Regex.cap_get 1 c
  | None => None
  end.

(** the [session.connections.forEach] of [buildBidirectionalPayloads] *)
Fixpoint each_connection (sourceProfile : ProfileData.t)
         (connections : list Connection.t) (payloads : list Payload)
  : M (list Payload) :=
  match connections with
  | [] => ret payloads
  | connection :: rest =>
      timestamp <- new_Date_toISOString ;;
      sessionId <- generateSessionId ;;
      let bidirectionalPayload :=
        Bidirectional.mk
          (Bidirectional.mkViewed
             (Connection.name connection)
             (Connection.profileUrl connection)
             (extractLinkedInIdFromUrl (Connection.profileUrl connection)))
          (Bidirectional.mkSource
             (or_opt (ProfileData.profileName sourceProfile) [])
             (or_opt (ProfileData.profileUrl sourceProfile) [])
             (extractLinkedInIdFromUrl
                (or_opt (ProfileData.profileUrl sourceProfile) []))
             (or_opt (ProfileData.encodedId sourceProfile) []))
          (Bidirectional.mkDetails
             (Connection.headline connection)
             (Connection.location connection)
             (Connection.profileImageUrl connection)
             (Connection.connectionDegree connection)
             (Connection.isPremium connection)
             (Connection.extractedAt connection))
          (Metadata.mk timestamp sessionId "2.0"
                       "linkedin-bidirectional-connection"
                       (Some "mutual_connection")) in
      each_connection sourceProfile rest
        (payloads ++ [ConnectionPayload bidirectionalPayload])%list
  end.

(** [buildBidirectionalPayloads()] *)
Definition buildBidirectionalPayloads : M (list Payload) :=
  session <- get_session ;;
  let sourceProfile := Session.profileData session in
  mainPayload <- buildWebhookPayload ;;
  each_connection sourceProfile (Session.connections session)
                  [MainPayload mainPayload].

(** ** The message listener *)

(** [request.action === 'parseAllMutualConnections'], on the fresh parser
    the listener constructs; [then] and [catch] run their callback once
    the promise is settled *)
Definition on_parseAllMutualConnections (profileData : ProfileData.t)
           (w : World) : Response Aggregate.t * World :=
  match await (parseAllMutualConnections profileData) new_Parser w with
  | (Ok result, _, w') => (Success result, w')
  | (Throw error, _, w') => (Failure (exn_message error), w')
  end.

(** [request.action === 'parseAllMutualConnectionsBidirectional'] *)
Definition on_parseAllMutualConnectionsBidirectional
           (profileData : ProfileData.t) (w : World)
  : Response (list Payload) * World :=
  match (await (parseAllMutualConnections profileData) ;;;
         buildBidirectionalPayloads) new_Parser w with
  | (Ok bidirectionalPayloads, _, w') => (Success bidirectionalPayloads, w')
  | (Throw error, _, w') => (Failure (exn_message error), w')
  end.

End Methods.

(** The event loop in which nothing else touches the parser or the world
    while a method waits.  It is the event loop of every statement that
    does not name another one. *)
#[global] Instance quiet : EventLoop := {| meanwhile p w := (p, w) |}.

(** Other code that, whenever the script waits, does [f] to the parser and
    the world if it finds the parser idle, and nothing otherwise. *)
Definition when_idle (f : Parser -> World -> Parser * World) : EventLoop :=
  {| meanwhile p w := if isProcessing p then (p, w) else f p w |}.

(** A second caller: whenever the script waits, one more call of
    [parseAllMutualConnections(profileData)] is made on the same parser
    object; what the call returns or throws goes to that caller, what it
    does to the parser and the world stays. *)
Definition second_caller `{SelectorEngine} (profileData : ProfileData.t)
  : EventLoop :=
  {| meanwhile p w :=
       let '(_, p', w') :=
         @parseAllMutualConnections _ quiet profileData p w in
       (p', w') |}.

(* ================================================================== *)
(** * The field extractor as the specification words it *)
(* ================================================================== *)

(** Not the code: the extractor of the specification, which takes the
    candidate selectors one at a time, in order, skips a candidate whose
    query throws, returns the trimmed text of the first element a candidate
    finds, and [null] when all are exhausted.  It is compared with
    [extractTextContent] below. *)
Fixpoint extractText_as_specified `{SelectorEngine} (root : Element)
         (candidates : selector_list) : option jsstring :=
  match candidates with
  | [] => None
  | candidate :: rest =>
      match querySelector root [candidate] with
      | Ok (Some element) => Some (trim (text_of element))
      | Ok None => extractText_as_specified root rest
      | Throw _ => extractText_as_specified root rest
      end
  end.

(* ================================================================== *)
(** * The background script: the configured webhooks *)
(* ================================================================== *)

Module Storage.

(** an entry of [data.webhooks]; [rateLimit] is [None] when the entry has
    none *)
Record Webhook : Type := mkWebhook {
  url : string;
  name : string;
  rateLimit : option Z }.

(** [webhook.rateLimit || 0] *)
Definition rateLimit_or_0 (w : Webhook) : Z := default 0 (rateLimit w).

End Storage.

(** the configured entries for the endpoint [webhookUrl], in the order of
    the storage *)
Definition entries_for (webhookUrl : string) (webhooks : list Storage.Webhook)
  : list Storage.Webhook :=
  List.filter (fun w => String.eqb (Storage.url w) webhookUrl) webhooks.

(* ================================================================== *)
(** * The background script: webhook queue and delivery *)
(* ================================================================== *)

Module Background.

Section Queue.

(** the payload objects handed to the queue *)
Context {P : Type}.

(** an entry of [queueData.queue] *)
Record QueueItem : Type := mkItem {
  payload : P;
  webhookName : string;
  timestamp : Z }.

(** a value of the [webhookQueues] map; [rateLimit] is in seconds, [timer]
    the id [setTimeout] returned (ids are positive, hence truthy) *)
Record QueueData : Type := mkQueueData {
  queue : list QueueItem;
  lastSent : Z;
  timer : option nat;
  rateLimit : Z }.

(** what the queue does to the outside, newest first in [effects] *)
Inductive Effect : Type :=
| ShowQueueNotification (webhookUrl webhookName : string)
| ClearQueueNotification (webhookUrl : string)
| PostToWebhookDirect (webhookUrl : string) (payload : P) (retryCount : nat)
                      (webhookName : string) (sentAt : Z).

(** The script's module-level state, with the timers the event loop holds
    for it ([id ↦ (webhookUrl, due)]: the callback is always
    [processQueue(webhookUrl)]; [due] is the reading of the clock when the
    timer was set plus the delay), the number of [Date.now()] readings
    taken so far, and the effects so far. *)
Record State : Type := mkState {
  webhookQueues : gmap string QueueData;
  timers : gmap nat (string * Z);
  next_timer : nat;
  ticks : nat;
  effects : list Effect }.

Definition initial : State := mkState ∅ ∅ 1 0 [].

(** successive readings of [Date.now()] *)
Context (clock : nat -> Z).

Definition Date_now (s : State) : Z * State :=
  (clock (ticks s),
   mkState (webhookQueues s) (timers s) (next_timer s) (S (ticks s)) (effects s)).

Definition emit (e : Effect) (s : State) : State :=
  mkState (webhookQueues s) (timers s) (next_timer s) (ticks s) (e :: effects s).

Definition set_queueData (webhookUrl : string) (queueData : QueueData)
           (s : State) : State :=
  mkState (<[webhookUrl := queueData]> (webhookQueues s)) (timers s)
          (next_timer s) (ticks s) (effects s).

(** [setTimeout(() => processQueue(webhookUrl), delay)] in a turn whose
    clock reading is [now]; returns the timer id *)
Definition setTimeout (webhookUrl : string) (now delay : Z) (s : State)
  : nat * State :=
  (next_timer s,
   mkState (webhookQueues s)
           (<[next_timer s := (webhookUrl, now + delay)]> (timers s))
           (S (next_timer s)) (ticks s) (effects s)).

(** [clearTimeout(id)] *)
Definition clearTimeout (id : nat) (s : State) : State :=
  mkState (webhookQueues s) (delete id (timers s)) (next_timer s) (ticks s)
          (effects s).

(** [processQueue(webhookUrl)].  The call it makes to itself when no rate
    limit is configured happens with one entry fewer in the queue; [fuel]
    bounds these calls. *)
Fixpoint processQueue_rec (fuel : nat) (webhookUrl : string) (s : State)
  : State :=
  match webhookQueues s !! webhookUrl with
  | None => s
  | Some queueData =>
      match queue queueData with
      | [] => s
      | item :: rest =>
          let '(now, s) := Date_now s in
          let timeSinceLastSent := now - lastSent queueData in
          let rateLimitMs := rateLimit queueData * 1000 in
          if (0 <? rateLimit queueData) && (timeSinceLastSent <? rateLimitMs)
          then
            (* Need to wait before sending *)
            let waitTime := rateLimitMs - timeSinceLastSent in
            let s := match timer queueData with
                     | Some id => clearTimeout id s
                     | None => s
                     end in
            let '(id, s) := setTimeout webhookUrl now waitTime s in
            set_queueData webhookUrl
              (mkQueueData (queue queueData) (lastSent queueData) (Some id)
                           (rateLimit queueData)) s
          else
            (* Send the next item in queue *)
            let queueData :=
              mkQueueData rest now (timer queueData) (rateLimit queueData) in
            let s := set_queueData webhookUrl queueData s in
            let s := emit (ClearQueueNotification webhookUrl) s in
            let s := emit (PostToWebhookDirect webhookUrl (payload item) 3
                             (webhookName item) now) s in
            (* Schedule next item if queue has more items *)
            match rest with
            | [] => s
            | _ :: _ =>
                if 0 <? rateLimit queueData then
                  let '(id, s) := setTimeout webhookUrl now rateLimitMs s in
                  set_queueData webhookUrl
                    (mkQueueData rest now (Some id) (rateLimit queueData)) s
                else
                  match fuel with
                  | O => s
                  | S fuel' => processQueue_rec fuel' webhookUrl s
                  end
            end
      end
  end.

Definition queue_length (webhookUrl : string) (s : State) : nat :=
  match webhookQueues s !! webhookUrl with
  | Some queueData => length (queue queueData)
  | None => 0
  end.

Definition processQueue (webhookUrl : string) (s : State) : State :=
  processQueue_rec (queue_length webhookUrl s) webhookUrl s.

(** [addToQueue(webhookUrl, payload, webhookName, rateLimit)] *)
Definition addToQueue (webhookUrl : string) (payload : P)
           (webhookName : string) (rateLimit : Z) (s : State) : State :=
  let queueData :=
    match webhookQueues s !! webhookUrl with
    | Some queueData => queueData
    | None => mkQueueData [] 0 None rateLimit
    end in
  let '(stamp, s) := Date_now s in
  let queueData :=
    mkQueueData (queue queueData ++ [mkItem payload webhookName stamp])%list
                (lastSent queueData) (timer queueData)
                rateLimit (* Update rate limit *) in
  let s := set_queueData webhookUrl queueData s in
  (* Check if this item will be queued (not sent immediately) *)
  let '(now, s) := Date_now s in
  let timeSinceLastSent := now - lastSent queueData in
  let rateLimitMs := rateLimit * 1000 in
  let willBeQueued :=
    (0 <? rateLimit)
    && ((1 <? length (queue queueData))%nat || (timeSinceLastSent <? rateLimitMs)) in
  let s := if willBeQueued
           then emit (ShowQueueNotification webhookUrl webhookName) s
           else s in
  processQueue webhookUrl s.

(** a timer of the table fires: it leaves the table and its callback
    runs; an id that is not pending is not an event *)
Definition timer_fires (id : nat) (s : State) : State :=
  match timers s !! id with
  | Some (webhookUrl, _) => processQueue webhookUrl (clearTimeout id s)
  | None => s
  end.

(** the body of the [forEach] of [initializeQueues], for one webhook *)
Definition initialize_one (s : State) (webhook : Storage.Webhook) : State :=
  match webhookQueues s !! Storage.url webhook with
  | None =>
      set_queueData (Storage.url webhook)
        (mkQueueData [] 0 None (Storage.rateLimit_or_0 webhook)) s
  | Some queueData =>
      (* Update rate limit if it changed *)
      set_queueData (Storage.url webhook)
        (mkQueueData (queue queueData) (lastSent queueData) (timer queueData)
           (Storage.rateLimit_or_0 webhook)) s
  end.

(** [initializeQueues()], from the callback of [chrome.storage.local.get]
    on: [webhooks] is what the storage holds under that key ([None]:
    nothing stored) *)
Definition initializeQueues (webhooks : option (list Storage.Webhook))
           (s : State) : State :=
  match webhooks with
  | Some webhooks => fold_left initialize_one webhooks s
  | None => s
  end.

(** What the event loop hands to the script: a call of [addToQueue], the
    callback of a timer, and the callback of the storage read that
    [initializeQueues] starts (when the browser starts, when the extension
    is installed, and whenever the stored webhooks change). *)
Inductive Event : Type :=
| Enqueue (webhookUrl : string) (payload : P) (webhookName : string)
          (rateLimit : Z)
| TimerFires (id : nat)
| StorageRead (webhooks : option (list Storage.Webhook)).

Definition step (s : State) (ev : Event) : State :=
  match ev with
  | Enqueue webhookUrl payload webhookName rateLimit =>
      addToQueue webhookUrl payload webhookName rateLimit s
  | TimerFires id => timer_fires id s
  | StorageRead webhooks => initializeQueues webhooks s
  end.

Definition run (evs : list Event) (s : State) : State :=
  fold_left step evs s.

(** ** Observations *)

(** the payloads handed to [postToWebhookDirect] for [webhookUrl] with the
    recorded send timestamps ([queueData.lastSent] at the call), newest
    first *)
Definition posted (webhookUrl : string) (s : State) : list (P * Z) :=
  omap (fun e =>
          match e with
          | PostToWebhookDirect u p _ _ t =>
              if String.eqb u webhookUrl then Some (p, t) else None
          | _ => None
          end) (effects s).

(** the same, oldest first: the order of dispatch *)
Definition sends (webhookUrl : string) (s : State) : list (P * Z) :=
  rev (posted webhookUrl s).

(** the payloads still queued for [webhookUrl], head first *)
Definition pending (webhookUrl : string) (s : State) : list P :=
  match webhookQueues s !! webhookUrl with
  | Some queueData => List.map payload (queue queueData)
  | None => []
  end.

(** the payloads enqueued for [webhookUrl] by a list of events, in order *)
Definition enqueued (webhookUrl : string) (evs : list Event) : list P :=
  omap (fun ev =>
          match ev with
          | Enqueue u p _ _ => if String.eqb u webhookUrl then Some p else None
          | TimerFires _ | StorageRead _ => None
          end) evs.

(** the rate limit the storage gives [webhookUrl]: that of the last entry
    with this URL, which is the one [initializeQueues] leaves in place;
    [None] when the storage has no entry for it *)
Definition configured (webhookUrl : string)
           (webhooks : option (list Storage.Webhook)) : option Z :=
  match webhooks with
  | Some webhooks =>
      Storage.rateLimit_or_0 <$> last (entries_for webhookUrl webhooks)
  | None => None
  end.

(** The interval of [webhookUrl] is [I] throughout: every enqueue for it
    carries [I], and so does every reading of the storage that has an
    entry for it. *)
Definition interval_is (webhookUrl : string) (I : Z) (evs : list Event) : Prop :=
  Forall (fun ev =>
            match ev with
            | Enqueue u _ _ r => u = webhookUrl -> r = I
            | TimerFires _ => True
            | StorageRead webhooks =>
                forall r, configured webhookUrl webhooks = Some r -> r = I
            end) evs.

End Queue.

(** ** Delivery *)

(** how one [fetch] ends: a response with its status, or a rejection *)
Inductive FetchOutcome : Type :=
| Responds (status : Z)
| Rejects (message : string).

(** [response.ok] *)
Definition ok (status : Z) : bool := (200 <=? status) && (status <=? 299).

(** a notification of [showNotification]; the title is given without its
    leading pictograph *)
Inductive Delivery : Type :=
| Fetch (webhookUrl : string)
| SetTimeout (delay : Z)
| ShowNotification (title message : string) (isSuccess : bool).

(** [postToWebhookDirect(webhookUrl, payload, retryCount, webhookName)],
    followed through its retries: [network n] is how the [n]-th [fetch]
    ends, [attempt] the number of fetches made before this call.  The
    result lists the fetches, the waits and the notification, in order. *)
Fixpoint postToWebhookDirect (network : nat -> FetchOutcome) (attempt : nat)
         (webhookUrl : string) (retryCount : nat) (webhookName : string)
  : list Delivery :=
  Fetch webhookUrl ::
  match network attempt with
  | Responds status =>
      if negb (ok status) && (0 <? retryCount)%nat then
        SetTimeout 1000 ::
        match retryCount with
        | S retryCount' =>
            postToWebhookDirect network (S attempt) webhookUrl retryCount'
                                webhookName
        | O => []
        end
      else if ok status then
        [ShowNotification (webhookName ++ " - Success")%string
           ("Data sent successfully to " ++ webhookName)%string true]
      else
        [ShowNotification (webhookName ++ " - Failed")%string
           "Failed to send data after 3 attempts" false]
  | Rejects message =>
      if (0 <? retryCount)%nat then
        SetTimeout 2000 ::
        match retryCount with
        | S retryCount' =>
            postToWebhookDirect network (S attempt) webhookUrl retryCount'
                                webhookName
        | O => []
        end
      else
        [ShowNotification (webhookName ++ " - Error")%string
           ("Network error: " ++ message)%string false]
  end.

(** the fetches of a delivery *)
Definition attempts (d : list Delivery) : nat :=
  length (List.filter (fun e => match e with Fetch _ => true | _ => false end) d).

(** the notification a delivery ends with *)
Definition outcome (d : list Delivery) : option Delivery :=
  List.find (fun e => match e with ShowNotification _ _ _ => true | _ => false end) d.

(** the waits of a delivery *)
Definition delays (d : list Delivery) : list Z :=
  omap (fun e => match e with SetTimeout ms => Some ms | _ => None end) d.

End Background.

(* ================================================================== *)
(** * Concrete pages and schedules *)
(* ================================================================== *)

Module Fixtures.

(** A CSS engine given by its verdicts: the selectors that do not parse,
    and which selector matches which node. *)
Definition table_engine (invalid : list string) (verdicts : list (string * nat))
  : SelectorEngine :=
  {| sel_valid s := negb (existsb (String.eqb s) invalid);
     sel_matches s e :=
       existsb (fun v => String.eqb (fst v) s && Nat.eqb (snd v) (node_id e))
               verdicts |}.

(** an element with text only *)
Definition text_node (id : nat) (text : string) : Element :=
  mkElement id (js text) (Some (js text)) None None false [] [].

(** an anchor *)
Definition anchor (id : nat) (text url : string) : Element :=
  mkElement id (js text) (Some (js text)) (Some (js url)) None false [] [].

(** an element that only contains others *)
Definition container (id : nat) (kids : list Element) : Element :=
  mkElement id [] (Some []) None None false [] kids.

Definition row (id : nat) (name url : string) : Element :=
  container id [ text_node (id + 1) name; anchor (id + 2) name url ].

(** verdicts for a results page: rows, their name and link, the next
    button *)
Definition results_verdicts : list (string * nat) :=
  [ (sel ".entity-result", 10%nat);
    (sel ".entity-result__title-text a span", 11%nat);
    (sel "a[href*='/in/']", 12%nat);
    (sel ".entity-result", 20%nat);
    (sel ".entity-result__title-text a span", 21%nat);
    (sel "a[href*='/in/']", 22%nat);
    (sel ".entity-result", 30%nat);
    (sel ".entity-result__title-text a span", 31%nat);
    (sel "a[href*='/in/']", 32%nat);
    (sel "button[aria-label*='Next']", 5%nat) ].

Definition results_engine : SelectorEngine := table_engine [] results_verdicts.

Definition next_button : Element :=
  mkElement 5 (js "Next") (Some (js "Next")) None None false [] [].

(** first results page: one row, and a next button *)
Definition page_one : Element :=
  container 1 [ row 10 "  Alice Martin " "https://www.linkedin.com/in/alice-martin/";
                next_button ].

(** second results page: two rows, the second without a name; no next
    button *)
Definition page_two : Element :=
  container 2 [ row 20 "Bob Lee" "https://www.linkedin.com/in/bob-lee?x=1";
                row 30 "   " "https://www.linkedin.com/in/nameless" ].

Definition two_pages (n : nat) : Element :=
  match n with
  | O => page_one
  | _ => page_two
  end.

Definition tokens (n : nat) : jsstring := js "k3j9x0q1z".

(** a session in which the clock advances by a second per reading *)
Definition quick_world : World :=
  mkWorld (fun n => 1700000000000 + 1000 * Z.of_nat n) 0 tokens 0 two_pages 0.

(** a session in which the second page is reached after six minutes *)
Definition slow_world : World :=
  mkWorld (fun n => if (n <? 3)%nat then 1700000000000 + 1000 * Z.of_nat n
                    else 1700000360000)
          0 tokens 0 two_pages 0.

Definition source_profile : ProfileData.t :=
  ProfileData.mk (Some (js "Carol Diaz"))
                 (Some (js "https://www.linkedin.com/in/carol-diaz/"))
                 (Some (js "ACoAAABCDEF")) (Some 44).

(** a profile page with the shared-connections link of the example *)
Definition profile_engine : SelectorEngine :=
  table_engine [] [ (sel "a[href*='facetConnectionOf']", 7%nat) ].

Definition example_href : string :=
  "https://www.linkedin.com/search/results/people/?facetConnectionOf=%22ABC%22".

Definition profile_page : Element :=
  container 1 [ text_node 6 "Carol Diaz";
                anchor 7 "5 other mutual connections" example_href ].

(** the same page with a count in the label that no double holds *)
Definition crowded_page : Element :=
  container 1 [ text_node 6 "Carol Diaz";
                anchor 7 "9007199254740993 mutual connections" example_href ].



(** a page and a candidate list whose first selector does not parse *)
Definition name_page : Element :=
  container 1 [ text_node 50 " Eve Park " ].

Definition broken_engine : SelectorEngine :=
  table_engine [ "h1:contains(name)" ] [ (".name", 50%nat) ].

Definition candidates : selector_list := [ "h1:contains(name)"; ".name" ].

(** a page on which the second candidate matches an earlier element than
    the first *)
Definition order_page : Element :=
  container 1 [ text_node 60 "old markup"; text_node 61 "new markup" ].

Definition order_engine : SelectorEngine :=
  table_engine [] [ (".new", 61%nat); (".old", 60%nat) ].

(** Three payloads for one endpoint with a 30 s interval, and one for
    another endpoint without rate limit in between; then the two timers of
    the first endpoint that are still pending fire. *)
Definition hook_a : string := "https://hooks.example.com/a".
Definition hook_b : string := "https://hooks.example.com/b".

Definition three_payloads : list (@Background.Event nat) :=
  [ Background.Enqueue hook_a 1%nat "Hook A" 30;
    Background.Enqueue hook_b 9%nat "Hook B" 0;
    Background.Enqueue hook_a 2%nat "Hook A" 30;
    Background.Enqueue hook_a 3%nat "Hook A" 30;
    Background.TimerFires 2;
    Background.TimerFires 3 ].

(** what the storage holds: the two endpoints, the first with a rate
    limit of 30 s *)
Definition stored_webhooks : option (list Storage.Webhook) :=
  Some [ Storage.mkWebhook hook_a "Hook A" (Some 30);
         Storage.mkWebhook hook_b "Hook B" None ].

(** the same events after the start of the browser, which reads the
    storage *)
Definition started_payloads : list (@Background.Event nat) :=
  Background.StorageRead stored_webhooks :: three_payloads.

(** the clock: a millisecond per reading while the payloads arrive, then
    the instants at which the two timers fire *)
Definition thirty_second_clock (n : nat) : Z :=
  if (n <? 12)%nat then 1700000000000 + Z.of_nat n
  else if (n <? 13)%nat then 1700000030005
  else 1700000060007.

End Fixtures.

(* ================================================================== *)
(** * The background script: context menus *)
(* ================================================================== *)

Module ContextMenu.

(** [[a-zA-Z0-9_-]] *)
Definition is_menu_char (c : N) : bool :=
  ((97 <=? c) && (c <=? 122) || (65 <=? c) && (c <=? 90)
   || (48 <=? c) && (c <=? 57) || (c =? 95) || (c =? 45))%N.

(** [sanitizeMenuId(name)]:
    [name.replace(/[^a-zA-Z0-9_-]/g, '_').substring(0, 50)] *)
Definition sanitizeMenuId (name : jsstring) : jsstring :=
  take 50 (List.map (fun c => if is_menu_char c then c else 95%N) name).

(** the code units of a decimal numeral *)
Fixpoint uint_units (d : Decimal.uint) : jsstring :=
  match d with
  | Decimal.Nil => []
  | Decimal.D0 d => 48%N :: uint_units d
  | Decimal.D1 d => 49%N :: uint_units d
  | Decimal.D2 d => 50%N :: uint_units d
  | Decimal.D3 d => 51%N :: uint_units d
  | Decimal.D4 d => 52%N :: uint_units d
  | Decimal.D5 d => 53%N :: uint_units d
  | Decimal.D6 d => 54%N :: uint_units d
  | Decimal.D7 d => 55%N :: uint_units d
  | Decimal.D8 d => 56%N :: uint_units d
  | Decimal.D9 d => 57%N :: uint_units d
  end.

(** [`${index}`] for an array index: its decimal numeral *)
Definition index_to_string (index : nat) : jsstring :=
  uint_units (Nat.to_uint index).

(** the value of a digit in the given radix *)
Definition digit_value (radix : Z) (c : N) : option Z :=
  match Url.hex_val c with
  | Some v => if Z.of_N v <? radix then Some (Z.of_N v) else None
  | None => None
  end.

(** the values of the longest prefix of digits *)
Fixpoint leading_digits (radix : Z) (s : jsstring) : list Z :=
  match s with
  | [] => []
  | c :: s' =>
      match digit_value radix c with
      | Some v => v :: leading_digits radix s'
      | None => []
      end
  end.

(** [parseInt(s)] without a radix: leading white space is skipped, a sign
    is read, [0x] or [0X] selects radix 16, and the longest prefix of digits
    is the value; [None] is NaN.  The value is the integer written; the
    listener uses it as an array index, and an index that an array has is
    a number that a double holds as it is. *)
Definition parseInt (s : jsstring) : option Z :=
  let s := trimStart s in
  let '(sign, s) :=
    match s with
    | 45%N :: r => (-1, r)
    | 43%N :: r => (1, r)
    | _ => (1, s)
    end in
  let '(radix, s) :=
    match s with
    | 48%N :: x :: r =>
        if ((x =? 120) || (x =? 88))%N then (16, r) else (10, s)
    | _ => (10, s)
    end in
  match leading_digits radix s with
  | [] => None
  | ds => Some (sign * fold_left (fun acc d => radix * acc + d) ds 0)
  end.

Section Menus.

(** the webhooks of the storage, with their names *)
Context {W : Type} (name_of : W -> jsstring).

(** the two menu item ids [updateWebhookMenus] creates for the webhook at
    [index]: [`sendTo_${sanitizedId}_${index}_normal`] and
    [`sendTo_${sanitizedId}_${index}_selection`] *)
Definition menu_item_id (webhook : W) (index : nat) (kind : string) : jsstring :=
  (js "sendTo_" ++ sanitizeMenuId (name_of webhook) ++ js "_"
   ++ index_to_string index ++ js "_" ++ js kind)%list.

Definition menu_item_ids (webhooks : list W) : list jsstring :=
  List.concat
    (imap (fun index webhook =>
             [ menu_item_id webhook index "normal";
               menu_item_id webhook index "selection" ]) webhooks).

(** [parts[parts.length - 2]] of [menuItemId.split('_')]; [None] is
    [undefined] *)
Definition index_part (menuItemId : jsstring) : option jsstring :=
  let parts := Url.split_all 95 menuItemId in
  if (2 <=? length parts)%nat then parts !! (length parts - 2)%nat else None.

(** The webhook a click on [menuItemId] sends to, in the [onClicked]
    listener: for an id that starts with [sendTo_], the webhook at the
    index read from the id's second-to-last part; [None] when the listener
    sends nothing. *)
Definition clicked_webhook (webhooks : list W) (menuItemId : jsstring)
  : option W :=
  if starts_with (js "sendTo_") menuItemId then
    match parseInt (default (js "undefined") (index_part menuItemId)) with
    | Some index => if 0 <=? index then webhooks !! Z.to_nat index else None
    | None => None
    end
  else None.

End Menus.

(** ** What a click sends *)






End ContextMenu.

(* ================================================================== *)
(** * The background script: forwarding LinkedIn data *)
(* ================================================================== *)

Module LinkedInData.

Import Storage.

Section Queues.

Context {P : Type}.

(** the [targetWebhooks] of [sendLinkedInDataToWebhooks]: all of them, the
    ones whose index is among the selected, or none *)
Definition targetWebhooks (webhooks : list Webhook) (linkedinWebhooks : string)
           (selectedLinkedinWebhooks : list Z) : list Webhook :=
  if String.eqb linkedinWebhooks "all" then webhooks
  else if String.eqb linkedinWebhooks "selected" then
    List.map snd
      (List.filter
         (fun iw => existsb (Z.eqb (Z.of_nat (fst iw))) selectedLinkedinWebhooks)
         (imap (fun index webhook => (index, webhook)) webhooks))
  else [].

(** the notification [sendLinkedInDataToWebhooks] shows:
    "No webhooks configured. Please add webhooks to receive LinkedIn data.",
    "No webhooks selected for LinkedIn data.", or
    [`LinkedIn data queued for ${targetWebhooks.length} webhook(s)`] *)
Inductive Notice : Type :=
| NoWebhooksConfigured
| NoWebhooksSelected
| QueuedFor (targets : nat).

Context {D : Type} (clock : nat -> Z).

(** [{...linkedinData, timestamp, type: 'linkedin_mutual_connections',
     source: 'chrome_extension_linkedin_parser'}], as a payload of the
    queue *)
Context (enhanced : D -> isotime -> P).

(** [sendLinkedInDataToWebhooks(linkedinData)], on what the storage holds *)
Definition sendLinkedInDataToWebhooks (webhooks : option (list Webhook))
           (linkedinWebhooks : string) (selectedLinkedinWebhooks : list Z)
           (linkedinData : D) (s : @Background.State P)
  : @Background.State P * Notice :=
  match webhooks with
  | None | Some [] =>
      (s, NoWebhooksConfigured)
  | Some webhooks =>
      match targetWebhooks webhooks linkedinWebhooks selectedLinkedinWebhooks with
      | [] =>
          (s, NoWebhooksSelected)
      | targets =>
          let '(now, s) := Background.Date_now clock s in
          let enhancedPayload := enhanced linkedinData (ISO now) in
          (fold_left
             (fun s webhook =>
                Background.addToQueue clock (url webhook) enhancedPayload
                  (name webhook) (rateLimit_or_0 webhook) s)
             targets s,
           QueuedFor (length targets))
      end
  end.

End Queues.

End LinkedInData.


(* ================================================================== *)
(** * The background script: the notification of a queued payload *)
(* ================================================================== *)

Module Notice.

(** [Math.ceil(x / 1000)] for an integer [x]: the exact ceiling, which the
    floating-point quotient also gives for [x] below 2^50 *)
Definition ceil_seconds (x : Z) : Z := - ((- x) / 1000).

Section Estimate.

Context {P : Type} (clock : nat -> Z).

(** [updateNotification()] inside [showQueueNotification(webhookUrl, _)]:
    [None] when it clears the notification, else the [queuePosition] and
    the [totalWait] of the message
    [`${queuePosition} in queue, ~${totalWait}s remaining`] *)
Definition updateNotification (webhookUrl : string)
           (s : @Background.State P) : option (nat * Z) * @Background.State P :=
  match Background.webhookQueues s !! webhookUrl with
  | None => (None, s)
  | Some queueData =>
      match Background.queue queueData with
      | [] => (None, s)
      | _ :: _ =>
          let '(now, s) := Background.Date_now clock s in
          let timeSinceLastSent := now - Background.lastSent queueData in
          let rateLimitMs := Background.rateLimit queueData * 1000 in
          let waitTime := Z.max 0 (rateLimitMs - timeSinceLastSent) in
          let queuePosition := length (Background.queue queueData) in
          let totalWait :=
            ceil_seconds (waitTime
                          + (Z.of_nat queuePosition - 1) * rateLimitMs) in
          (Some (queuePosition, totalWait), s)
      end
  end.

End Estimate.

End Notice.

(* ================================================================== *)
(** * The content script: the profile page *)
(* ================================================================== *)

(** The other profile page selectors of [this.config.selectors]
    ([profileName] and [profileImage] are in [Config]). *)
Module ProfileSelectors.

Definition profileTitle : selector_list :=
  [ sel ".text-body-medium.break-words";
    sel ".pv-text-details__title + div";
    sel ".pv-top-card--list-bullet .text-body-medium";
    sel ".pv-text-details__left-panel div.text-body-medium";
    sel "span[data-test-id='hero-title']" ].

Definition profileLocation : selector_list :=
  [ sel ".text-body-small.inline.t-black--light.break-words";
    sel ".pv-text-details__left-panel .geo-text";
    sel "span[data-test-id='hero-location']";
    sel "div[data-test-id='hero-location'] span" ].

Definition aboutSection : selector_list :=
  [ sel ".pv-about-section .pv-about__summary-text";
    sel ".pv-shared-text-with-see-more .inline-show-more-text";
    sel "section[data-section='about'] .inline-show-more-text";
    sel "section[data-section='about'] span[aria-hidden='true']";
    sel "div#about" ].

Definition experienceSection : selector_list :=
  [ sel ".pv-profile-section.experience-section";
    sel ".pvs-list__container";
    sel "section[data-section='experience']";
    sel "section#experience";
    sel "section[data-test-id='experience']";
    sel "div#experience" ].

Definition educationSection : selector_list :=
  [ sel ".pv-profile-section.education-section";
    sel ".pvs-list__container";
    sel "section[data-section='education']";
    sel "section#education";
    sel "section[data-test-id='education']";
    sel "div#education" ].

Definition skillsSection : selector_list :=
  [ sel ".pv-skill-categories-section";
    sel ".pvs-list__container";
    sel "section[data-section='skills']";
    sel "section#skills";
    sel "section[data-test-id='skills']";
    sel "div#skills" ].

Definition connectionsCount : selector_list :=
  [ sel ".pv-top-card--list-bullet .t-black--light span";
    sel ".pv-top-card--list-bullet a[href*='overlay/connections']";
    sel "span[data-test-id='hero-summary-counts__connections']";
    sel "a[data-test-id='hero-summary-counts__connections'] span";
    sel "ul li span.t-bold" ].

Definition followersCount : selector_list :=
  [ sel ".pv-top-card--list-bullet .t-black--light span";
    sel "span[data-test-id='hero-summary-counts__followers']";
    sel "a[data-test-id='hero-summary-counts__followers'] span" ].

Definition mutualConnectionsText : selector_list :=
  [ sel ".pv-top-card--list-bullet a[href*='facetConnectionOf']";
    sel ".pv-top-card--list-bullet a[href*='mutual']";
    sel "a[href*='connections/shared']";
    sel "a[data-test-id='hero-summary-counts__mutualConnections']";
    sel "a[href*='facetConnectionOf']" ].

End ProfileSelectors.

Module Experience.
Record t : Type := mk {
  title : option jsstring;
  company : option jsstring;
  duration : option jsstring;
  location : option jsstring;
  description : option jsstring }.
End Experience.

Module Education.
Record t : Type := mk {
  school : option jsstring;
  degree : option jsstring;
  fieldOfStudy : option jsstring;
  duration : option jsstring;
  description : option jsstring }.
End Education.

Module Skill.
Record t : Type := mk {
  name : option jsstring;
  endorsements : option jsstring }.
End Skill.

(** The object [parseProfilePage] returns.  A property that is assigned
    only when its element is found is [None] while it is not assigned;
    [Some None] is [null] (for [mutualConnectionsUrl], an [href] that is
    [undefined]). *)
Module Profile.
Record t : Type := mk {
  name : option jsstring;
  title : option jsstring;
  location : option jsstring;
  profileImageUrl : option jsstring;
  profileUrl : jsstring;
  about : option jsstring;
  extractedAt : isotime;
  connectionsCount : option (option jsstring);
  followersCount : option (option jsstring);
  mutualConnectionsCount : option (option number);
  mutualConnectionsUrl : option (option jsstring);
  isPremium : bool;
  linkedinId : option jsstring;
  experience : list Experience.t;
  education : list Education.t;
  skills : list Skill.t }.
End Profile.

(** [.]: any code unit but a line terminator *)
Definition any_char : Regex.regex :=
  Regex.Lit (fun c => negb ((c =? 10) || (c =? 13) || (c =? 8232)
                            || (c =? 8233))%N).

(** [r*], greedy: one or more, else none *)
Definition star (r : Regex.regex) : Regex.regex := Regex.Opt (Regex.Plus r).

(** [/\d+.*connections?/i] *)
Definition connections_mention_regex : Regex.regex :=
  Regex.Seq (Regex.Plus Regex.digit)
 (Regex.Seq (star any_char)
 (Regex.Seq (Regex.word_i "connection")
            (Regex.Opt (Regex.chr_i "s")))).

(** [/(D)\s+connections?/i] and [/(D)\s+followers?/i], where [D] stands
    for [\d+(?:,\d+)*], for the noun without its [s] *)
Definition count_regex (noun : string) : Regex.regex :=
  Regex.Seq (Regex.Capture 1
               (Regex.Seq (Regex.Plus Regex.digit)
                          (star (Regex.Seq (Regex.chr ",")
                                           (Regex.Plus Regex.digit)))))
 (Regex.Seq (Regex.Plus Regex.space)
 (Regex.Seq (Regex.word_i noun)
            (Regex.Opt (Regex.chr_i "s")))).

(** [/(\d+)\s+(?:other\s+)?mutual\s+connections?/i] *)
Definition mutual_mention_regex : Regex.regex :=
  Regex.Seq (Regex.Capture 1 (Regex.Plus Regex.digit))
 (Regex.Seq (Regex.Plus Regex.space)
 (Regex.Seq (Regex.Opt (Regex.Seq (Regex.word_i "other")
                                  (Regex.Plus Regex.space)))
 (Regex.Seq (Regex.word_i "mutual")
 (Regex.Seq (Regex.Plus Regex.space)
 (Regex.Seq (Regex.word_i "connection")
            (Regex.Opt (Regex.chr_i "s"))))))).

(** [/\/in\/([^/]+)/] *)
Definition profile_id_regex : Regex.regex :=
  Regex.Seq (Regex.word "/in/")
            (Regex.Capture 1 (Regex.Plus (Regex.Lit (fun c => negb (c =? 47)%N)))).

(** [s.replace(/,/g, '')] *)
Definition remove_commas (s : jsstring) : jsstring :=
  List.filter (fun c => negb (c =? 44)%N) s.

(** [m ? m[1].replace(/,/g, '') : null] for [m = text.match(r)] *)
Definition count_in (r : Regex.regex) (text : jsstring) : option jsstring :=
  match Regex.search r text with
  | Some m => Some (remove_commas (default [] (Regex.cap_get 1 m)))
  | None => None
  end.

Section ProfilePage.

Context `{SelectorEngine}.

(** [extractElementText(parentElement, selector)] *)
Definition extractElementText (parentElement : Element)
           (selector : selector_list) : Res (option jsstring) :=
  try_catch
    (bindR (querySelector parentElement selector) (fun element =>
       match element with
       | Some element => Ok (Some (trim (text_of element)))
       | None => Ok None
       end))
    (fun error => Ok None).

(** the [for (const item of experienceItems)] loop *)
Fixpoint experience_items (items : list Element)
         (experiences : list Experience.t) : Res (list Experience.t) :=
  match items with
  | [] => Ok experiences
  | item :: rest =>
      bindR (extractElementText item
               [ sel ".t-bold span[aria-hidden='true']";
                 sel ".mr1.t-bold span";
                 sel ".pv-entity__summary-info h3" ]) (fun title =>
      bindR (extractElementText item
               [ sel ".t-14.t-normal span[aria-hidden='true']";
                 sel ".pv-entity__secondary-title";
                 sel ".t-14.t-normal a" ]) (fun company =>
      bindR (extractElementText item
               [ sel ".t-14.t-normal.t-black--light span[aria-hidden='true']";
                 sel ".pv-entity__bullet-item-v2";
                 sel ".t-14.t-normal.t-black--light" ]) (fun duration =>
      bindR (extractElementText item
               [ sel ".t-12.t-normal.t-black--light span[aria-hidden='true']";
                 sel ".pv-entity__location span:last-child" ]) (fun location =>
      bindR (extractElementText item
               [ sel ".inline-show-more-text";
                 sel ".pv-entity__extra-details" ]) (fun description =>
      let experience :=
        Experience.mk title company duration location description in
      (* Only add if we have at least a title *)
      experience_items rest
        (if truthy_opt (Experience.title experience)
         then (experiences ++ [experience])%list
         else experiences))))))
  end.

(** [extractExperienceData()] *)
Definition extractExperienceData (document : Element)
  : Res (list Experience.t) :=
  try_catch
    (bindR (querySelector document ProfileSelectors.experienceSection)
       (fun experienceSection =>
     match experienceSection with
     | None => Ok []
     | Some experienceSection =>
         bindR (querySelectorAll experienceSection
                  [ sel "li.artdeco-list__item";
                    sel ".pvs-list__paged-list-item";
                    sel ".pv-entity__position-group-pager li" ])
           (fun experienceItems => experience_items experienceItems [])
     end))
    (fun err => Ok []).

(** the [for (const item of educationItems)] loop *)
Fixpoint education_items (items : list Element)
         (educations : list Education.t) : Res (list Education.t) :=
  match items with
  | [] => Ok educations
  | item :: rest =>
      bindR (extractElementText item
               [ sel ".t-bold span[aria-hidden='true']";
                 sel ".mr1.t-bold span";
                 sel ".pv-entity__school-name" ]) (fun school =>
      bindR (extractElementText item
               [ sel ".t-14.t-normal span[aria-hidden='true']";
                 sel ".pv-entity__degree-name .pv-entity__comma-item" ])
        (fun degree =>
      bindR (extractElementText item
               [ sel ".t-14.t-normal span[aria-hidden='true']:nth-child(2)";
                 sel ".pv-entity__fos .pv-entity__comma-item" ])
        (fun fieldOfStudy =>
      bindR (extractElementText item
               [ sel ".t-14.t-normal.t-black--light span[aria-hidden='true']";
                 sel ".pv-entity__dates .pv-entity__bullet-item" ])
        (fun duration =>
      bindR (extractElementText item
               [ sel ".inline-show-more-text";
                 sel ".pv-entity__extra-details" ]) (fun description =>
      let education :=
        Education.mk school degree fieldOfStudy duration description in
      (* Only add if we have at least a school name *)
      education_items rest
        (if truthy_opt (Education.school education)
         then (educations ++ [education])%list
         else educations))))))
  end.

(** [extractEducationData()] *)
Definition extractEducationData (document : Element)
  : Res (list Education.t) :=
  try_catch
    (bindR (querySelector document ProfileSelectors.educationSection)
       (fun educationSection =>
     match educationSection with
     | None => Ok []
     | Some educationSection =>
         bindR (querySelectorAll educationSection
                  [ sel "li.artdeco-list__item";
                    sel ".pvs-list__paged-list-item";
                    sel ".pv-education-entity" ])
           (fun educationItems => education_items educationItems [])
     end))
    (fun err => Ok []).

(** the [for (const item of skillItems)] loop *)
Fixpoint skill_items (items : list Element) (skills : list Skill.t)
  : Res (list Skill.t) :=
  match items with
  | [] => Ok skills
  | item :: rest =>
      bindR (extractElementText item
               [ sel ".t-bold span[aria-hidden='true']";
                 sel ".mr1.t-bold span";
                 sel ".pv-skill-category-entity__name a" ]) (fun name =>
      bindR (extractElementText item
               [ sel ".t-12.t-normal.t-black--light";
                 sel ".pv-skill-category-entity__endorsement-count" ])
        (fun endorsements =>
      let skill := Skill.mk name endorsements in
      (* Only add if we have a skill name *)
      skill_items rest
        (if truthy_opt (Skill.name skill)
         then (skills ++ [skill])%list
         else skills)))
  end.

(** [extractSkillsData()] *)
Definition extractSkillsData (document : Element) : Res (list Skill.t) :=
  try_catch
    (bindR (querySelector document ProfileSelectors.skillsSection)
       (fun skillsSection =>
     match skillsSection with
     | None => Ok []
     | Some skillsSection =>
         bindR (querySelectorAll skillsSection
                  [ sel "li.artdeco-list__item";
                    sel ".pvs-list__paged-list-item";
                    sel ".pv-skill-category-entity__skill-wrapper" ])
           (fun skillItems => skill_items skillItems [])
     end))
    (fun err => Ok []).

(** [parseProfilePage()], for [window.location.href = location_href] *)
Definition parseProfilePage (location_href : jsstring)
  : M (option Profile.t) :=
  try_catchM
    (document <- get_document ;;
     (* Extract profile data using enhanced selectors *)
     name <- lift (extractTextContent document Config.profileName) ;;
     title <- lift (extractTextContent document ProfileSelectors.profileTitle) ;;
     location <-
       lift (extractTextContent document ProfileSelectors.profileLocation) ;;
     profileImageUrl <-
       lift (extractAttribute document Config.profileImage "src") ;;
     let profileUrl := location_href in
     about <- lift (extractTextContent document ProfileSelectors.aboutSection) ;;
     extractedAt <- new_Date_toISOString ;;
     (* Extract connections information *)
     connectionsElements <-
       lift (querySelectorAll document ProfileSelectors.connectionsCount) ;;
     let connectionsElement :=
       List.find
         (fun el =>
            truthy (textContent el)
            && bool_decide
                 (is_Some (Regex.search connections_mention_regex
                                        (textContent el))))
         connectionsElements in
     let connectionsCount :=
       match connectionsElement with
       | Some connectionsElement =>
           let connectionsText := or_str (textContent connectionsElement) [] in
           Some (count_in (count_regex "connection") connectionsText)
       | None => None
       end in
     (* Extract followers information *)
     followersElement <-
       lift (querySelector document ProfileSelectors.followersCount) ;;
     let followersCount :=
       match followersElement with
       | Some followersElement =>
           let followersText := or_str (textContent followersElement) [] in
           Some (count_in (count_regex "follower") followersText)
       | None => None
       end in
     (* Extract mutual connections information *)
     mutualConnectionsElement <-
       lift (querySelector document ProfileSelectors.mutualConnectionsText) ;;
     let mutualConnectionsCount :=
       match mutualConnectionsElement with
       | Some mutualConnectionsElement =>
           let mutualText := or_str (textContent mutualConnectionsElement) [] in
           Some match Regex.search mutual_mention_regex mutualText with
                | Some mutualMatch =>
                    Some (parseInt_digits
                            (default [] (Regex.cap_get 1 mutualMatch)))
                | None => None
                end
       | None => None
       end in
     let mutualConnectionsUrl :=
       match mutualConnectionsElement with
       | Some mutualConnectionsElement => Some (href mutualConnectionsElement)
       | None => None
       end in
     (* Check for premium indicator *)
     premiumElement <- lift (querySelector document Config.premiumIndicator) ;;
     let isPremium := bool_decide (is_Some premiumElement) in
     (* Extract LinkedIn profile ID from URL *)
     let linkedinId :=
       match Regex.search profile_id_regex profileUrl with
       | Some urlMatch => Regex.cap_get 1 urlMatch
       | None => None
       end in
     experience <- lift (extractExperienceData document) ;;
     education <- lift (extractEducationData document) ;;
     skills <- lift (extractSkillsData document) ;;
     ret (Some (Profile.mk name title location profileImageUrl profileUrl
                  about extractedAt connectionsCount followersCount
                  mutualConnectionsCount mutualConnectionsUrl isPremium
                  linkedinId experience education skills)))
    (fun err => ret None).

End ProfilePage.

(* ================================================================== *)
(** * More worlds for the examples *)
(* ================================================================== *)

Module Worlds.

(** a results page that carries a rate-limit notice above its row *)
Definition blocked_page : Element :=
  mkElement 1 (js "Please slow down. Alice Martin") (Some [])
            None None false []
            [ Fixtures.row 10 "Alice Martin"
                           "https://www.linkedin.com/in/alice-martin/" ].

(** a session that only ever sees that page *)
Definition blocked_world : World :=
  mkWorld (fun n => 1700000000000 + 1000 * Z.of_nat n) 0 Fixtures.tokens 0
          (fun _ => blocked_page) 0.

(** a clock that reads a millisecond more each time while the payloads of
    [Fixtures.three_payloads] arrive (twelve readings), and 31 s more each
    time after that *)
Definition half_minute_clock (n : nat) : Z :=
  if (n <? 12)%nat then 1700000000000 + Z.of_nat n
  else 1700000000000 + 31000 * (Z.of_nat n - 11).

(** a profile page: the name, the two counts, the shared-connections
    link, and an experience section with two items, the second without a
    title *)
Definition profile_verdicts : list (string * nat) :=
  [ (sel "h1.text-heading-xlarge", 4%nat);
    (sel ".pv-top-card--list-bullet .t-black--light span", 2%nat);
    (sel "ul li span.t-bold", 3%nat);
    (sel "a[href*='facetConnectionOf']", 7%nat);
    (sel "section#experience", 40%nat);
    (sel "li.artdeco-list__item", 41%nat);
    (sel "li.artdeco-list__item", 42%nat);
    (sel ".mr1.t-bold span", 43%nat);
    (sel ".pv-entity__secondary-title", 44%nat);
    (sel ".pv-entity__secondary-title", 45%nat) ].

Definition profile_engine : SelectorEngine :=
  Fixtures.table_engine [] profile_verdicts.

Definition profile_page : Element :=
  Fixtures.container 1
    [ Fixtures.text_node 4 "  Carol Diaz ";
      Fixtures.text_node 2 "5,678 followers";
      Fixtures.text_node 3 "1,234 connections";
      Fixtures.anchor 7 "12 mutual connections" Fixtures.example_href;
      Fixtures.container 40
        [ Fixtures.container 41
            [ Fixtures.text_node 43 " Engineer ";
              Fixtures.text_node 44 "Acme" ];
          Fixtures.container 42 [ Fixtures.text_node 45 "Initech" ] ] ].

Definition profile_world : World :=
  mkWorld (fun n => 1700000000000 + 1000 * Z.of_nat n) 0 Fixtures.tokens 0
          (fun _ => profile_page) 0.

Definition profile_address : jsstring :=
  js "https://www.linkedin.com/in/carol-diaz/details/experience/".

End Worlds.

(* ================================================================== *)
(** * Predicates of the statements *)
(* ================================================================== *)

(** A record with its two essential fields: neither the name nor the
    profile URL is the empty string. *)
Definition essential (c : Connection.t) : Prop :=
  Connection.name c <> [] /\ Connection.profileUrl c <> [].

(** A method that leaves [this] as it found it, and whose result
    satisfies [Q]. *)
Definition reads {A} (m : M A) (Q : Res A -> Prop) : Prop :=
  forall p w r p' w', m p w = (r, p', w') -> p' = p /\ Q r.

(** the world after one more reading of the clock *)
Definition tick (w : World) : World :=
  mkWorld (clock w) (S (ticks w)) (random w) (draws w) (pages w) (page_ix w).

(** the session a call of [parseAllMutualConnections] starts with *)
Definition fresh_session (profileData : ProfileData.t) (w : World) : Parser :=
  mkParser true (Some (Session.mk profileData (clock w (ticks w)) [] 0)).

(** A per-connection payload that describes [connection] as seen from the
    source profile [sourceProfile]: the connection is the profile viewed,
    the source profile the one it shares connections with, the details are
    the connection's, and the relation type is "mutual_connection". *)
Definition describes (sourceProfile : ProfileData.t) (connection : Connection.t)
           (payload : Payload) : Prop :=
  exists b,
    payload = ConnectionPayload b /\
    Bidirectional.name (Bidirectional.profileViewed b)
      = Connection.name connection /\
    Bidirectional.profileUrl (Bidirectional.profileViewed b)
      = Connection.profileUrl connection /\
    Bidirectional.src_name (Bidirectional.mutualConnectionsWith b)
      = or_opt (ProfileData.profileName sourceProfile) [] /\
    Bidirectional.src_profileUrl (Bidirectional.mutualConnectionsWith b)
      = or_opt (ProfileData.profileUrl sourceProfile) [] /\
    Bidirectional.src_encodedId (Bidirectional.mutualConnectionsWith b)
      = or_opt (ProfileData.encodedId sourceProfile) [] /\
    Bidirectional.connectionDetails b
      = Bidirectional.mkDetails
          (Connection.headline connection) (Connection.location connection)
          (Connection.profileImageUrl connection)
          (Connection.connectionDegree connection)
          (Connection.isPremium connection)
          (Connection.extractedAt connection) /\
    Metadata.relationType (Bidirectional.metadata b)
      = Some "mutual_connection".

(** Send timestamps, newest first, each at least [d] after the one before
    it. *)
Fixpoint spaced (d : Z) (newest_first : list Z) : Prop :=
  match newest_first with
  | newer :: (older :: _) as rest => older + d <= newer /\ spaced d rest
  | _ => True
  end.

(** The invariant of one endpoint's queue under the interval [I], after
    the events [done]: what was dispatched followed by what is pending is
    what was enqueued; the recorded timestamps are spaced; the queue data
    carries [I] as rate limit and the latest timestamp as [lastSent]. *)
Definition queue_inv {P : Type} (webhookUrl : string) (I : Z)
           (done : list (@Background.Event P)) (s : @Background.State P) : Prop :=
  (List.map fst (Background.sends webhookUrl s)
   ++ Background.pending webhookUrl s)%list
  = Background.enqueued webhookUrl done /\
  spaced (I * 1000) (List.map snd (Background.posted webhookUrl s)) /\
  match Background.webhookQueues s !! webhookUrl with
  | Some queueData =>
      Background.rateLimit queueData = I /\
      forall t, head (List.map snd (Background.posted webhookUrl s)) = Some t ->
                Background.lastSent queueData = t
  | None => Background.posted webhookUrl s = []
  end.

(** What the timers of the event loop owe the queues: a pending timer has
    an id below the next one; the id stored in an endpoint's queue data is
    below the next one and, while pending, is a timer of that endpoint; and
    every endpoint among [covered] whose queue is not empty has a positive
    rate limit and a pending timer due at [lastSent + rateLimit * 1000]. *)
Definition timers_ok {P : Type} (covered : string -> Prop)
           (s : @Background.State P) : Prop :=
  (forall id v due,
     Background.timers s !! id = Some (v, due) ->
     (id < Background.next_timer s)%nat) /\
  (forall v qd id,
     Background.webhookQueues s !! v = Some qd ->
     Background.timer qd = Some id ->
     (id < Background.next_timer s)%nat /\
     forall w due, Background.timers s !! id = Some (w, due) -> w = v) /\
  (forall v qd,
     covered v ->
     Background.webhookQueues s !! v = Some qd ->
     Background.queue qd <> [] ->
     0 < Background.rateLimit qd /\
     exists id,
       Background.timers s !! id
       = Some (v, Background.lastSent qd + Background.rateLimit qd * 1000)).

(** the endpoints of [covered] other than [v] *)
Definition but (v : string) (covered : string -> Prop) : string -> Prop :=
  fun w => covered w /\ w <> v.

(** every endpoint *)
Definition every : string -> Prop := fun _ => True.

(** no endpoint *)
Definition nowhere : string -> Prop := fun _ => False.

(** The readings of the storage among the events leave the rate limit of an
    endpoint as it is while the endpoint has payloads queued: a reading
    that has an entry for such an endpoint gives it the rate limit its
    queue data carries. *)
Fixpoint rates_kept {P : Type} (clock : nat -> Z)
         (evs : list (@Background.Event P)) (s : @Background.State P) : Prop :=
  match evs with
  | [] => True
  | ev :: evs' =>
      match ev with
      | Background.StorageRead webhooks =>
          forall v qd r,
            Background.webhookQueues s !! v = Some qd ->
            Background.queue qd <> [] ->
            Background.configured v webhooks = Some r ->
            r = Background.rateLimit qd
      | _ => True
      end /\
      rates_kept clock evs' (Background.step clock s ev)
  end.


(** What makes two runs of a method the same on a parser whose flag is
    set: they return the same, leave the same parser and world, and the
    flag is still set. *)
Definition same_when_busy {A : Type} (m1 m2 : M A) : Prop :=
  forall p w,
    isProcessing p = true ->
    m1 p w = m2 p w /\ isProcessing (m2 p w).1.2 = true.

(** An event loop that leaves a parser whose flag is set, and the world
    with it, alone. *)
Definition spares_busy (loop : EventLoop) : Prop :=
  forall p w, isProcessing p = true -> @meanwhile loop p w = (p, w).

(* ================================================================== *)
(** * Properties of the delivery: [postToWebhookDirect] *)
(* ================================================================== *)

(** A failed outcome: a response outside 200..299, or a rejection. *)
Definition failed (o : Background.FetchOutcome) : bool :=
  match o with
  | Background.Responds status => negb (Background.ok status)
  | Background.Rejects _ => true
  end.

(** the number of failed fetches in a row from the [attempt]-th on, counted
    up to [bound] *)
Fixpoint leading_failures (network : nat -> Background.FetchOutcome)
         (attempt bound : nat) : nat :=
  match bound with
  | O => O
  | S bound' =>
      if failed (network attempt)
      then S (leading_failures network (S attempt) bound')
      else O
  end.

(** the notification that follows the last fetch of a delivery *)
Definition notification_after (o : Background.FetchOutcome) (name : string)
  : Background.Delivery :=
  match o with
  | Background.Responds status =>
      if Background.ok status then
        Background.ShowNotification (name ++ " - Success")%string
          ("Data sent successfully to " ++ name)%string true
      else
        Background.ShowNotification (name ++ " - Failed")%string
          "Failed to send data after 3 attempts" false
  | Background.Rejects message =>
      Background.ShowNotification (name ++ " - Error")%string
        ("Network error: " ++ message)%string false
  end.

(** the wait that follows a failed fetch *)
Definition wait_after (o : Background.FetchOutcome) : Z :=
  match o with
  | Background.Responds _ => 1000
  | Background.Rejects _ => 2000
  end.

(** the number of queued-notifications raised so far *)
Definition queue_notifications {P : Type} (s : @Background.State P) : nat :=
  length (List.filter (fun e => match e with
                                | Background.ShowQueueNotification _ _ => true
                                | _ => false
                                end) (Background.effects s)).

(** [matched r a n]: the regular expression [r] matches the whole of [a],
    binding the capture slots [n] (most recent binding first). *)
Inductive matched : Regex.regex -> jsstring -> Regex.caps -> Prop :=
| matched_Empty : matched Regex.Empty [] []
| matched_Lit p x : p x = true -> matched (Regex.Lit p) [x] []
| matched_Seq r1 r2 a b n1 n2 :
    matched r1 a n1 -> matched r2 b n2 ->
    matched (Regex.Seq r1 r2) (a ++ b)%list (n2 ++ n1)%list
| matched_Opt_none r : matched (Regex.Opt r) [] []
| matched_Opt_some r a n : matched r a n -> matched (Regex.Opt r) a n
| matched_Plus_one r a n : matched r a n -> matched (Regex.Plus r) a n
| matched_Plus_more r a b n1 n2 :
    matched r a n1 -> matched (Regex.Plus r) b n2 ->
    matched (Regex.Plus r) (a ++ b)%list (n2 ++ n1)%list
| matched_Capture i r a n :
    matched r a n -> matched (Regex.Capture i r) a ((i, a) :: n).

(** a regular expression without capture groups *)
Fixpoint no_capture (r : Regex.regex) : bool :=
  match r with
  | Regex.Empty | Regex.Lit _ => true
  | Regex.Seq r1 r2 => no_capture r1 && no_capture r2
  | Regex.Opt r1 | Regex.Plus r1 => no_capture r1
  | Regex.Capture _ _ => false
  end.

(** the ways a collection run fails: the session timeout, bot protection,
    a next-page button that is gone, or a selector the browser rejects *)
Definition session_failure (e : exn) : Prop :=
  e = Error "Session timeout exceeded" \/
  e = Error "Bot protection detected - aborting parsing" \/
  e = Error "Next page button not found" \/
  exists g, e = SyntaxError g.

Definition fails_only {A : Type} (r : Res A) : Prop :=
  match r with
  | Ok _ => True
  | Throw e => session_failure e
  end.

(** a text that is present, not empty, and has no white space at either
    end *)
Definition proper_text (o : option jsstring) : Prop :=
  exists t, o = Some t /\ t <> [] /\ trim t = t.

(** a string of decimal digits, not empty *)
Definition numeral (s : jsstring) : Prop :=
  s <> [] /\ Forall (fun c => is_digit c = true) s.

(** every code unit class of the regular expression lies within [q] *)
Fixpoint within (q : N -> Prop) (r : Regex.regex) : Prop :=
  match r with
  | Regex.Empty => True
  | Regex.Lit p => forall x, p x = true -> q x
  | Regex.Seq r1 r2 => within q r1 /\ within q r2
  | Regex.Opt r1 | Regex.Plus r1 | Regex.Capture _ r1 => within q r1
  end.

(** What a profile returned for the address [location_href] satisfies:
    its URL is the address; its texts are trimmed; a connection or
    follower count is a numeral; a count of mutual connections is not
    negative; its identifier is cut out of the address after [/in/], is
    not empty and runs up to the next [/] or the end; and every listed
    experience, education and skill has its leading text. *)
Definition well_formed_profile (location_href : jsstring) (profile : Profile.t)
  : Prop :=
  Profile.profileUrl profile = location_href /\
  (forall t, Profile.name profile = Some t -> trim t = t) /\
  (forall t, Profile.title profile = Some t -> trim t = t) /\
  (forall t, Profile.location profile = Some t -> trim t = t) /\
  (forall t, Profile.about profile = Some t -> trim t = t) /\
  (forall s, Profile.connectionsCount profile = Some (Some s) -> numeral s) /\
  (forall s, Profile.followersCount profile = Some (Some s) -> numeral s) /\
  (forall n, Profile.mutualConnectionsCount profile = Some (Some (Num n)) ->
             0 <= n) /\
  (forall id, Profile.linkedinId profile = Some id ->
     exists before after,
       location_href = (before ++ js "/in/" ++ id ++ after)%list /\
       id <> [] /\ Forall (fun c => c <> 47%N) id /\
       match after with
       | [] => True
       | c :: _ => c = 47%N
       end) /\
  Forall (fun e => proper_text (Experience.title e))
         (Profile.experience profile) /\
  Forall (fun e => proper_text (Education.school e))
         (Profile.education profile) /\
  Forall (fun e => proper_text (Skill.name e)) (Profile.skills profile).

(** What holds of an endpoint after a notification taken at the clock
    reading [now], when the last send was at [L0] and [base] had been
    dispatched: the dispatches since then, oldest first, are no earlier
    than the later of [now] and [L0 + I * 1000], plus one interval for each
    dispatch before them. *)
Definition estimate_inv {P : Type} (webhookUrl : string) (I now L0 : Z)
           (base : list (P * Z)) (T0 : nat) (clock : nat -> Z)
           (s : @Background.State P) : Prop :=
  (T0 <= Background.ticks s)%nat /\
  exists news qd,
    Background.posted webhookUrl s = (news ++ base)%list /\
    Background.webhookQueues s !! webhookUrl = Some qd /\
    Background.rateLimit qd = I /\
    (forall j t, rev (List.map snd news) !! j = Some t ->
                 Z.max (L0 + I * 1000) now + Z.of_nat j * (I * 1000) <= t) /\
    Z.max (L0 + I * 1000) now + Z.of_nat (length news) * (I * 1000)
    <= Z.max (Background.lastSent qd + I * 1000) now.

(** A delivery makes at most [retryCount + 1] fetches. *)
Lemma attempts_at_most network attempt url retryCount name :
  (Background.attempts
     (Background.postToWebhookDirect network attempt url retryCount name)
   <= retryCount + 1)%nat.
Proof.
  revert attempt.
  induction retryCount as [|r IH]; intros attempt;
    cbn [Background.postToWebhookDirect].
  - destruct (network attempt) as [status|msg]; cbn.
    + rewrite andb_false_r. destruct (Background.ok status); cbn; lia.
    + lia.
  - destruct (network attempt) as [status|msg].
    + destruct (Background.ok status); cbn; [lia|].
      specialize (IH (S attempt)). unfold Background.attempts in IH. lia.
    + cbn. specialize (IH (S attempt)). unfold Background.attempts in IH. lia.
Qed.

(** When every fetch fails, a delivery makes exactly [retryCount + 1] of
    them. *)
Lemma attempts_when_all_fail network attempt url retryCount name :
  (forall n, failed (network n) = true) ->
  Background.attempts
    (Background.postToWebhookDirect network attempt url retryCount name)
  = (retryCount + 1)%nat.
Proof.
  intros Hfail. revert attempt.
  induction retryCount as [|r IH]; intros attempt;
    cbn [Background.postToWebhookDirect];
    specialize (Hfail attempt); destruct (network attempt) as [status|msg];
    cbn in Hfail.
  - apply negb_true_iff in Hfail. rewrite Hfail. reflexivity.
  - reflexivity.
  - apply negb_true_iff in Hfail. rewrite Hfail. cbn.
    specialize (IH (S attempt)). unfold Background.attempts in IH. lia.
  - cbn. specialize (IH (S attempt)). unfold Background.attempts in IH. lia.
Qed.

(** Retry property: two failures and then a success give three fetches and
    the success notification. *)
Lemma third_attempt_succeeds network url name status :
  failed (network 0%nat) = true -> failed (network 1%nat) = true ->
  network 2%nat = Background.Responds status ->
  Background.ok status = true ->
  let d := Background.postToWebhookDirect network 0 url 3 name in
  Background.attempts d = 3%nat /\
  Background.outcome d
  = Some (Background.ShowNotification
            (name ++ " - Success")%string
            ("Data sent successfully to " ++ name)%string true).
Proof.
  intros H0 H1 H2 Hok. cbn [Background.postToWebhookDirect].
  destruct (network 0%nat) as [s0|m0], (network 1%nat) as [s1|m1];
    cbn in H0, H1; rewrite ?negb_true_iff in *; rewrite ?H0, ?H1, H2, Hok;
    cbn; auto.
Qed.

(** The wait before a retry is 1000 ms after a response that is not ok and
    2000 ms after a rejection. *)
Lemma retry_delays network attempt url retryCount name :
  Background.delays
    (Background.postToWebhookDirect network attempt url (S retryCount) name)
  = match network attempt with
    | Background.Responds status =>
        if Background.ok status then []
        else 1000 :: Background.delays
                       (Background.postToWebhookDirect network (S attempt)
                          url retryCount name)
    | Background.Rejects _ =>
        2000 :: Background.delays
                  (Background.postToWebhookDirect network (S attempt)
                     url retryCount name)
    end.
Proof.
  cbn [Background.postToWebhookDirect].
  destruct (network attempt) as [status|msg];
    [destruct (Background.ok status)|]; reflexivity.
Qed.

(** C1.  A delivery dispatched from a queue ([retryCount = 3]) whose
    fetches keep failing makes four fetches, not three, before it shows
    the notification that says "after 3 attempts"; and when the fourth
    fetch succeeds after three failures the delivery is reported as a
    success. *)
Theorem postToWebhookDirect_fourth_attempt (url name : string) :
  let always_500 := fun _ : nat => Background.Responds 500 in
  let fourth_ok := fun n : nat => if (n <? 3)%nat then Background.Responds 500
                                  else Background.Responds 200 in
  let exhausted := Background.postToWebhookDirect always_500 0 url 3 name in
  let late := Background.postToWebhookDirect fourth_ok 0 url 3 name in
  Background.attempts exhausted = 4%nat /\
  Background.outcome exhausted
  = Some (Background.ShowNotification
            (name ++ " - Failed")%string
            "Failed to send data after 3 attempts" false) /\
  Background.attempts late = 4%nat /\
  Background.outcome late
  = Some (Background.ShowNotification
            (name ++ " - Success")%string
            ("Data sent successfully to " ++ name)%string true).
Proof. cbn. repeat split; reflexivity. Qed.

(* ================================================================== *)
(** * Reasoning about methods *)
(* ================================================================== *)

Lemma bind_inv {A B} (m : M A) (k : A -> M B) p w r p' w' :
  bind m k p w = (r, p', w') ->
  (exists a p1 w1, m p w = (Ok a, p1, w1) /\ k a p1 w1 = (r, p', w')) \/
  (exists e, m p w = (Throw e, p', w') /\ r = Throw e).
Proof.
  unfold bind. destruct (m p w) as [[[a|e] p1] w1]; intros Hk.
  - left. eauto.
  - right. inversion Hk; subst. eauto.
Qed.

Lemma reads_ret {A} (a : A) (Q : Res A -> Prop) : Q (Ok a) -> reads (ret a) Q.
Proof. intros HQ p w r p' w' Heq. inversion Heq; subst. auto. Qed.

Lemma reads_throw {A} e (Q : Res A -> Prop) : Q (Throw e) -> reads (throw e) Q.
Proof. intros HQ p w r p' w' Heq. inversion Heq; subst. auto. Qed.

Lemma reads_lift {A} (x : Res A) (Q : Res A -> Prop) : Q x -> reads (lift x) Q.
Proof. intros HQ p w r p' w' Heq. inversion Heq; subst. auto. Qed.

Lemma reads_bind {A B} (m : M A) (k : A -> M B) (Q1 : Res A -> Prop)
      (Q : Res B -> Prop) :
  reads m Q1 ->
  (forall a, Q1 (Ok a) -> reads (k a) Q) ->
  (forall e, Q1 (Throw e) -> Q (Throw e)) ->
  reads (bind m k) Q.
Proof.
  intros Hm Hk He p w r p' w' Heq.
  apply bind_inv in Heq as [(a & p1 & w1 & H1 & H2)|(e & H1 & ->)].
  - apply Hm in H1 as [-> Ha]. eapply Hk; eauto.
  - apply Hm in H1 as [-> Ha]. auto.
Qed.

Lemma reads_try_catchM {A} (body : M A) (handler : exn -> M A)
      (Q1 Q : Res A -> Prop) :
  reads body Q1 ->
  (forall a, Q1 (Ok a) -> Q (Ok a)) ->
  (forall e, Q1 (Throw e) -> reads (handler e) Q) ->
  reads (try_catchM body handler) Q.
Proof.
  intros Hb Hok Hh p w r p' w'. unfold try_catchM.
  destruct (body p w) as [[[a|e] p1] w1] eqn:Hbody; intros Heq;
    apply Hb in Hbody as [-> HQ1].
  - inversion Heq; subst. auto.
  - eapply Hh; eauto.
Qed.

Lemma reads_weaken {A} (m : M A) (Q1 Q : Res A -> Prop) :
  reads m Q1 -> (forall r, Q1 r -> Q r) -> reads m Q.
Proof. intros Hm HQ p w r p' w' Heq. apply Hm in Heq as [-> ?]. auto. Qed.

Lemma reads_get_document : reads get_document (fun r => exists d, r = Ok d).
Proof. intros p w r p' w' Heq. inversion Heq; subst. eauto. Qed.

Lemma reads_Date_now : reads Date_now (fun r => exists t, r = Ok t).
Proof. intros p w r p' w' Heq. inversion Heq; subst. eauto. Qed.

Lemma reads_new_Date_toISOString :
  reads new_Date_toISOString (fun r => exists t, r = Ok t).
Proof. intros p w r p' w' Heq. inversion Heq; subst. eauto. Qed.

(** In the quiet event loop a wait changes nothing. *)
Lemma await_quiet {A} (m : M A) p w : await m p w = m p w.
Proof. unfold await. destruct (m p w) as [[r p1] w1]. reflexivity. Qed.

Lemma reads_await {A} (m : M A) (Q : Res A -> Prop) :
  reads m Q -> reads (await m) Q.
Proof. intros Hm p w r p' w'. rewrite await_quiet. apply Hm. Qed.

Lemma reads_click_and_load : reads click_and_load (fun r => r = Ok tt).
Proof. intros p w r p' w' Heq. inversion Heq; subst. eauto. Qed.

Lemma reads_randomDelay a b : reads (randomDelay a b) (fun r => r = Ok tt).
Proof. intros p w r p' w' Heq. inversion Heq; subst. eauto. Qed.

Lemma reads_humanScroll e : reads (humanScroll e) (fun r => r = Ok tt).
Proof. intros p w r p' w' Heq. inversion Heq; subst. eauto. Qed.

(* ================================================================== *)
(** * Properties of the row extractor and of a page parse *)
(* ================================================================== *)

Section TrimProofs.

Lemma trimStart_clean (s : jsstring) :
  match trimStart s with
  | [] => True
  | c :: _ => is_whitespace c = false
  end.
Proof.
  induction s as [|c s IH]; cbn; [exact I|].
  destruct (is_whitespace c) eqn:Hc; [exact IH|exact Hc].
Qed.

Lemma trimStart_id (s : jsstring) :
  match s with
  | [] => True
  | c :: _ => is_whitespace c = false
  end ->
  trimStart s = s.
Proof. destruct s as [|c s]; cbn; [reflexivity|]. intros ->. reflexivity. Qed.

Lemma trimStart_snoc (s : jsstring) (c : N) :
  is_whitespace c = false ->
  exists m, trimStart (s ++ [c]) = (m ++ [c])%list.
Proof.
  intros Hc. induction s as [|x s IH]; cbn.
  - rewrite Hc. exists []. reflexivity.
  - destruct (is_whitespace x); [exact IH|].
    exists (x :: s). reflexivity.
Qed.

(** [trim] does nothing to a trimmed string. *)
Lemma trim_idem (s : jsstring) : trim (trim s) = trim s.
Proof.
  unfold trim.
  assert (Hhead : match trimEnd (trimStart s) with
                  | [] => True
                  | c :: _ => is_whitespace c = false
                  end).
  { pose proof (trimStart_clean s) as Hclean.
    destruct (trimStart s) as [|c t]; [exact I|].
    unfold trimEnd. cbn [rev].
    destruct (trimStart_snoc (rev t) c Hclean) as (m & ->).
    rewrite rev_app_distr. exact Hclean. }
  rewrite (trimStart_id _ Hhead).
  unfold trimEnd. rewrite rev_involutive.
  rewrite (trimStart_id (trimStart (rev (trimStart s))))
    by apply trimStart_clean.
  reflexivity.
Qed.

End TrimProofs.


Lemma truthy_nonempty (s : jsstring) : truthy s = true -> s <> [].
Proof. destruct s; [discriminate|intros _ ?; discriminate]. Qed.

Lemma truthy_empty (s : jsstring) : truthy s = false -> s = [].
Proof. destruct s; [reflexivity|discriminate]. Qed.

(** What [extractConnectionData] returns: it never throws and leaves
    [this] alone; a record it returns was read off a name element and a
    link element that the queries found, its name is the trimmed text of
    the former, its URL the [href] of the latter, and neither is empty. *)
Lemma extractConnectionData_spec `{SelectorEngine} (element : Element) :
  reads (extractConnectionData element)
    (fun r => exists o, r = Ok o /\
       forall c, o = Some c ->
         exists n u,
           find_nameElement element = Ok (Some n) /\
           find_profileUrlElement element = Ok (Some u) /\
           Connection.name c = trim (text_of n) /\
           Connection.profileUrl c = or_opt (href u) [] /\
           essential c).
Proof.
  intros p w r p' w'.
  unfold extractConnectionData, try_catchM, bind, lift, ret,
    new_Date_toISOString, Date_now, bind, ret.
  destruct (find_nameElement element) as [[n|]|e1];
    destruct (find_profileUrlElement element) as [[u|]|e2];
    try (intros Heq; inversion Heq; subst; split; [reflexivity|];
         eexists; split; [reflexivity|]; intros c Hc; discriminate).
  repeat match goal with
         | |- context [query_or ?a ?b ?c] =>
             destruct (query_or a b c) as [[?|]|?]
         end;
    try (intros Heq; inversion Heq; subst; split; [reflexivity|];
         eexists; split; [reflexivity|]; intros c Hc; discriminate).
  all: cbn [Connection.name Connection.profileUrl].
  all: destruct (truthy (trim (text_of n))) eqn:Hn;
       destruct (truthy (or_opt (href u) [])) eqn:Hu; cbn [andb negb];
       intros Heq; inversion Heq; subst; (split; [reflexivity|]);
       eexists; (split; [reflexivity|]); intros c Hc; try discriminate.
  all: inversion Hc; subst; exists n, u; repeat split; cbn;
       auto using truthy_nonempty.
Qed.

(** A row whose name element is missing, or whose name text trims to the
    empty string, or whose link is missing or has an empty [href], gives no
    record. *)
Lemma extractConnectionData_excludes `{SelectorEngine} (element : Element) p w :
  (match find_nameElement element with
   | Ok (Some n) => trim (text_of n) = []
   | _ => True
   end \/
   match find_profileUrlElement element with
   | Ok (Some u) => or_opt (href u) [] = []
   | _ => True
   end) ->
  (extractConnectionData element p w).1.1 = Ok None.
Proof.
  intros Hmissing.
  destruct (extractConnectionData element p w) as [[r p'] w'] eqn:Heq.
  apply extractConnectionData_spec in Heq as [-> (o & -> & Ho)]. cbn.
  destruct o as [c|]; [|reflexivity].
  destruct (Ho c eq_refl) as (n & u & Hn & Hu & Hname & Hurl & Hne1 & Hne2).
  rewrite Hn, Hu in Hmissing. destruct Hmissing; congruence.
Qed.

Lemma extract_items_spec `{SelectorEngine} (items : list Element) :
  forall acc, Forall essential acc ->
  reads (extract_items items acc)
        (fun r => exists l, r = Ok l /\ Forall essential l).
Proof.
  induction items as [|item rest IH]; intros acc Hacc; cbn [extract_items].
  - apply reads_ret. eauto.
  - eapply reads_bind
      with (Q1 := fun r => exists l, r = Ok l /\ Forall essential l).
    + eapply reads_try_catchM
        with (Q1 := fun r => exists l, r = Ok l /\ Forall essential l).
      * eapply reads_bind; [apply reads_await, extractConnectionData_spec| |].
        -- intros o (o' & Ho' & Ho). inversion Ho'; subst o'.
           destruct o as [c|]; apply reads_ret; eexists; split; eauto.
           apply Forall_app; split; [assumption|].
           destruct (Ho c eq_refl) as (n & u & _ & _ & _ & _ & Hc).
           constructor; [assumption|constructor].
        -- intros e (o & Hdisc & _). discriminate.
      * auto.
      * intros e (l & Hdisc & _). discriminate.
    + intros acc' (l & Hl & Hess). inversion Hl; subst l.
      eapply reads_bind; [apply reads_await, reads_randomDelay| |].
      * intros _ _. apply IH. assumption.
      * intros e He. discriminate.
    + intros e (l & Hdisc & _). discriminate.
Qed.

(** A page parse leaves [this] alone; the records it returns all have
    their essential fields. *)
Lemma parseSearchResults_spec `{SelectorEngine} :
  reads parseSearchResults
        (fun r => forall l, r = Ok l -> Forall essential l).
Proof.
  unfold parseSearchResults.
  eapply reads_try_catchM
    with (Q1 := fun r => forall l, r = Ok l -> Forall essential l).
  - eapply reads_bind; [apply reads_await, reads_randomDelay| |]; [|intros e He; discriminate].
    intros _ _.
    eapply reads_bind; [apply reads_get_document| |];
      [|intros e (d & Hd); discriminate].
    intros document _.
    eapply reads_bind with (Q1 := fun _ => True);
      [apply reads_lift; exact I| |intros e _ l Hl; discriminate].
    intros blocked _. destruct blocked.
    { apply reads_throw. intros l Hl. discriminate. }
    eapply reads_bind with (Q1 := fun _ => True);
      [apply reads_lift; exact I| |intros e _ l Hl; discriminate].
    intros resultItems _.
    destruct (length resultItems =? 0)%nat.
    + eapply reads_bind with (Q1 := fun _ => True);
        [apply reads_lift; exact I| |intros e _ l Hl; discriminate].
      intros alternativeItems _.
      destruct (length alternativeItems =? 0)%nat.
      * apply reads_ret. intros l Hl. inversion Hl; subst. constructor.
      * eapply reads_weaken; [apply extract_items_spec; constructor|].
        intros r (l & -> & Hl) l' Hl'. inversion Hl'; subst. assumption.
    + eapply reads_weaken; [apply extract_items_spec; constructor|].
      intros r (l & -> & Hl) l' Hl'. inversion Hl'; subst. assumption.
  - auto.
  - intros e _. apply reads_throw. intros l Hl. discriminate.
Qed.

Lemma hasNextPage_reads `{SelectorEngine} : reads hasNextPage (fun _ => True).
Proof.
  unfold hasNextPage.
  eapply reads_bind; [apply reads_get_document| |auto].
  intros document _.
  eapply reads_bind with (Q1 := fun _ => True);
    [apply reads_lift; exact I| |auto].
  intros [nextButton|] _; apply reads_ret; exact I.
Qed.

Lemma navigateToNextPage_reads `{SelectorEngine} :
  reads navigateToNextPage (fun _ => True).
Proof.
  unfold navigateToNextPage.
  eapply reads_bind; [apply reads_get_document| |auto].
  intros document _.
  eapply reads_bind with (Q1 := fun _ => True);
    [apply reads_lift; exact I| |auto].
  intros [nextButton|] _; [|apply reads_throw; exact I].
  eapply reads_bind; [eapply reads_await, reads_humanScroll| |auto]. intros _ _.
  eapply reads_bind; [eapply reads_await, reads_randomDelay| |auto]. intros _ _.
  eapply reads_weaken; [apply reads_click_and_load|auto].
Qed.

(* ================================================================== *)
(** * Properties of a collection session *)
(* ================================================================== *)

Lemma get_session_some flag s w :
  get_session (mkParser flag (Some s)) w = (Ok s, mkParser flag (Some s), w).
Proof. reflexivity. Qed.

Lemma record_page_some l flag s w :
  record_page l (mkParser flag (Some s)) w =
  (Ok tt,
   mkParser flag
     (Some (Session.mk (Session.profileData s) (Session.startTime s)
                       (Session.connections s ++ l)%list
                       (S (Session.pagesProcessed s)))),
   w).
Proof. reflexivity. Qed.

(** [buildWebhookPayload] on a session: the payload, written out. *)
Lemma buildWebhookPayload_some `{SelectorEngine} flag s w :
  buildWebhookPayload (mkParser flag (Some s)) w =
  (Ok (Aggregate.mk
         (Aggregate.mkProfile
            (or_opt (ProfileData.profileName (Session.profileData s)) [])
            (or_opt (ProfileData.profileUrl (Session.profileData s)) [])
            (or_opt (ProfileData.encodedId (Session.profileData s)) []))
         (Session.connections s)
         (length (Session.connections s))
         (Session.pagesProcessed s)
         (clock w (ticks w) - Session.startTime s)
         (Metadata.mk (ISO (clock w (S (ticks w))))
                      (SessionId (clock w (S (S (ticks w))))
                                 (random w (draws w)))
                      "2.0" "linkedin-mutual-connections" None)),
   mkParser flag (Some s),
   mkWorld (clock w) (S (S (S (ticks w)))) (random w) (S (draws w))
           (pages w) (page_ix w)).
Proof. reflexivity. Qed.

(** The page loop keeps the flag, keeps the session in place with its
    source profile and start time, only appends records that have their
    essential fields, and only counts pages up. *)
Lemma page_loop_session `{SelectorEngine} (remaining : nat) :
  forall flag s w r p' w',
    Forall essential (Session.connections s) ->
    page_loop remaining (mkParser flag (Some s)) w = (r, p', w') ->
    exists s' more,
      p' = mkParser flag (Some s') /\
      Session.profileData s' = Session.profileData s /\
      Session.startTime s' = Session.startTime s /\
      Session.connections s' = (Session.connections s ++ more)%list /\
      Forall essential (Session.connections s') /\
      (Session.pagesProcessed s <= Session.pagesProcessed s')%nat.
Proof.
  induction remaining as [|n IH]; intros flag s w r p' w' Hs Hrun.
  - inversion Hrun; subst. exists s, []. rewrite app_nil_r. auto 10.
  - cbn [page_loop] in Hrun.
    apply bind_inv in Hrun as [(now & p1 & w1 & Hnow & Hrun)|(e & Hnow & _)];
      [|inversion Hnow].
    inversion Hnow; subst p1 w1 now; clear Hnow.
    apply bind_inv in Hrun as [(s0 & p1 & w1 & Hget & Hrun)|(e & Hget & _)];
      [|inversion Hget].
    inversion Hget; subst p1 w1 s0; clear Hget.
    destruct (_ >? Config.sessionTimeout).
    { inversion Hrun; subst. exists s, []. rewrite app_nil_r. auto 10. }
    apply bind_inv in Hrun as [(l & p1 & w1 & Hparse & Hrun)|(e & Hparse & _)].
    2:{ rewrite await_quiet in Hparse; apply parseSearchResults_spec in Hparse as [-> _].
        exists s, []. rewrite app_nil_r. auto 10. }
    rewrite await_quiet in Hparse; apply parseSearchResults_spec in Hparse as [-> Hl].
    specialize (Hl l eq_refl).
    apply bind_inv in Hrun as [([] & p1 & w2 & Hrec & Hrun)|(e & Hrec & _)];
      [|rewrite record_page_some in Hrec; inversion Hrec].
    rewrite record_page_some in Hrec. inversion Hrec; subst p1 w2; clear Hrec.
    set (s1 := Session.mk _ _ _ _) in Hrun.
    assert (Hs1 : Forall essential (Session.connections s1))
      by (apply Forall_app; auto).
    assert (Hdone : exists s' more,
               mkParser flag (Some s1) = mkParser flag (Some s') /\
               Session.profileData s' = Session.profileData s /\
               Session.startTime s' = Session.startTime s /\
               Session.connections s' = (Session.connections s ++ more)%list /\
               Forall essential (Session.connections s') /\
               (Session.pagesProcessed s <= Session.pagesProcessed s')%nat).
    { exists s1, l. cbn. auto 10. }
    apply bind_inv in Hrun as [(more & p1 & w2 & Hnext & Hrun)|(e & Hnext & _)].
    2:{ apply hasNextPage_reads in Hnext as [-> _]. exact Hdone. }
    apply hasNextPage_reads in Hnext as [-> _].
    destruct more; cbn [negb] in Hrun.
    2:{ inversion Hrun; subst. exact Hdone. }
    apply bind_inv in Hrun as [([] & p1 & w3 & Hdelay & Hrun)|(e & Hdelay & _)];
      [|inversion Hdelay].
    inversion Hdelay; subst p1 w3; clear Hdelay.
    apply bind_inv in Hrun as [([] & p1 & w3 & Hnav & Hrun)|(e & Hnav & _)].
    2:{ rewrite await_quiet in Hnav; apply navigateToNextPage_reads in Hnav as [-> _]. exact Hdone. }
    rewrite await_quiet in Hnav; apply navigateToNextPage_reads in Hnav as [-> _].
    apply IH in Hrun as (s' & more & -> & Hpd & Hst & Hconn & Hess & Hpages);
      [|assumption].
    exists s', (l ++ more)%list. subst s1. cbn in *.
    repeat split; auto; [by rewrite Hconn, app_assoc | lia].
Qed.

(** A call of [parseAllMutualConnections] on an idle parser: the flag is
    clear when it ends, the session is in place, and a payload it returns
    is the aggregate of that session. *)
Lemma parseAllMutualConnections_idle `{SelectorEngine} profileData s0 w r p' w' :
  parseAllMutualConnections profileData (mkParser false s0) w = (r, p', w') ->
  exists s,
    p' = mkParser false (Some s) /\
    Session.profileData s = profileData /\
    Session.startTime s = clock w (ticks w) /\
    Forall essential (Session.connections s) /\
    forall payload, r = Ok payload ->
      Aggregate.mutualConnections payload = Session.connections s /\
      Aggregate.totalCount payload = length (Session.connections s) /\
      Aggregate.pagesScraped payload = Session.pagesProcessed s.
Proof.
  unfold parseAllMutualConnections, bind at 1, get_this. cbn [isProcessing].
  unfold bind at 1, set_this at 1. unfold bind at 1, Date_now at 1.
  unfold bind at 1, set_this at 1, try_finally.
  cbn [clock ticks random draws pages page_ix currentSession].
  match goal with
  | |- context [bind ?m ?k ?p ?w0] =>
      destruct (bind m k p w0) as [[r1 p1] w1] eqn:Hbody
  end.
  intros Heq. inversion Heq; subst r p' w'; clear Heq.
  apply bind_inv in Hbody as [([] & p2 & w2 & Hloop & Hbuild)|(e & Hloop & ->)].
  - apply page_loop_session in Hloop
      as (s & more & -> & Hpd & Hst & Hconn & Hess & Hpages); [|constructor].
    rewrite buildWebhookPayload_some in Hbuild.
    inversion Hbuild; subst. exists s. cbn in *.
    repeat (split; [solve [auto]|]).
    intros pl Hp; inversion Hp; subst; auto.
  - apply page_loop_session in Hloop
      as (s & more & -> & Hpd & Hst & Hconn & Hess & Hpages); [|constructor].
    exists s. cbn in *. repeat (split; [solve [auto]|]).
    intros pl Hp; discriminate.
Qed.

(** C5.  A row for which the name query or the link query finds no
    element gives no record, every record [extractConnectionData] returns
    has a name and a profile URL that are not empty, and so has every
    record in the payload a collection run returns. *)
Theorem collected_records_have_name_and_url `{SelectorEngine} :
  (forall element this w,
     (forall n, find_nameElement element <> Ok (Some n)) \/
     (forall u, find_profileUrlElement element <> Ok (Some u)) ->
     (extractConnectionData element this w).1.1 = Ok None) /\
  (forall element this w c,
     (extractConnectionData element this w).1.1 = Ok (Some c) ->
     essential c) /\
  (forall profileData this w payload,
     (parseAllMutualConnections profileData this w).1.1 = Ok payload ->
     Forall essential (Aggregate.mutualConnections payload)).
Proof.
  split; [|split].
  - intros element this w Hmissing.
    apply extractConnectionData_excludes.
    destruct Hmissing as [Hno|Hno]; [left|right].
    + destruct (find_nameElement element) as [[n|]|e]; auto.
      exfalso. apply (Hno n). reflexivity.
    + destruct (find_profileUrlElement element) as [[u|]|e]; auto.
      exfalso. apply (Hno u). reflexivity.
  - intros element this w c Hres.
    destruct (extractConnectionData element this w) as [[r p'] w'] eqn:Heq.
    apply extractConnectionData_spec in Heq as [_ (o & -> & Ho)].
    cbn in Hres. inversion Hres; subst o.
    destruct (Ho c eq_refl) as (n & u & _ & _ & _ & _ & Hc). exact Hc.
  - intros profileData [[] s0] w payload Hres.
    + discriminate Hres.
    + destruct (parseAllMutualConnections profileData (mkParser false s0) w)
        as [[r this'] w'] eqn:Hrun.
      cbn in Hres. subst r.
      apply parseAllMutualConnections_idle in Hrun
        as (s & _ & _ & _ & Hess & Hpayload).
      destruct (Hpayload payload eq_refl) as (-> & _). exact Hess.
Qed.

Lemma collected_records_witness :
  exists payload,
    (@parseAllMutualConnections Fixtures.results_engine quiet Fixtures.source_profile
       new_Parser Fixtures.quick_world).1.1 = Ok payload /\
    length (Aggregate.mutualConnections payload) = 2%nat /\
    Forall essential (Aggregate.mutualConnections payload).
Proof.
  eexists. split; [vm_compute; reflexivity|]. split; [reflexivity|].
  apply (proj2 (proj2 (@collected_records_have_name_and_url
                         Fixtures.results_engine))
           Fixtures.source_profile new_Parser Fixtures.quick_world).
  vm_compute. reflexivity.
Defined.



(** C9.  For every session, the payload [buildWebhookPayload] builds
    carries the session's records, counts them in [totalCount], and
    reports the session's page counter in [pagesScraped]; the count the
    profile page announced ([profileData.totalCount]) does not enter. *)
Theorem buildWebhookPayload_counts `{SelectorEngine} (flag : bool)
        (session : Session.t) (w : World) :
  exists payload w',
    buildWebhookPayload (mkParser flag (Some session)) w
    = (Ok payload, mkParser flag (Some session), w') /\
    Aggregate.mutualConnections payload = Session.connections session /\
    Aggregate.totalCount payload = length (Aggregate.mutualConnections payload) /\
    Aggregate.totalCount payload = length (Session.connections session) /\
    Aggregate.pagesScraped payload = Session.pagesProcessed session.
Proof.
  eexists _, _. split; [apply buildWebhookPayload_some|]. repeat split.
Qed.

Lemma each_connection_spec `{SelectorEngine} (sourceProfile : ProfileData.t)
      (connections : list Connection.t) :
  forall payloads this w,
  exists more w',
    each_connection sourceProfile connections payloads this w
    = (Ok (payloads ++ more)%list, this, w') /\
    Forall2 (describes sourceProfile) connections more.
Proof.
  induction connections as [|c rest IH]; intros payloads this w.
  - exists [], w. rewrite app_nil_r. split; [reflexivity|constructor].
  - cbn [each_connection].
    unfold bind at 1, new_Date_toISOString, bind at 1, Date_now at 1, ret at 1.
    unfold bind at 1, generateSessionId, bind at 1, Date_now at 1.
    unfold bind at 1, Math_random_token, ret at 1.
    cbn [clock ticks random draws pages page_ix].
    match goal with
    | |- context [each_connection _ rest (payloads ++ [?x])%list this ?w0] =>
        destruct (IH (payloads ++ [x])%list this w0) as (more & w' & Heq & Hmore);
        exists (x :: more), w'
    end.
    split.
    + rewrite Heq, <- app_assoc. reflexivity.
    + constructor; [|exact Hmore].
      eexists. split; [reflexivity|]. cbn. auto 10.
Qed.

(** [buildBidirectionalPayloads] on a session: the aggregate payload, then
    one payload per record, in order. *)
Lemma buildBidirectionalPayloads_some `{SelectorEngine} (flag : bool)
      (session : Session.t) (w : World) :
  exists main rest w1 w',
    buildBidirectionalPayloads (mkParser flag (Some session)) w
    = (Ok (MainPayload main :: rest), mkParser flag (Some session), w') /\
    buildWebhookPayload (mkParser flag (Some session)) w
    = (Ok main, mkParser flag (Some session), w1) /\
    length (MainPayload main :: rest)
    = (1 + length (Session.connections session))%nat /\
    Forall2 (describes (Session.profileData session))
            (Session.connections session) rest.
Proof.
  unfold buildBidirectionalPayloads, bind at 1.
  rewrite get_session_some. unfold bind at 1.
  rewrite buildWebhookPayload_some.
  match goal with
  | |- context [each_connection ?src ?cs ?acc ?p ?w0] =>
      destruct (each_connection_spec src cs acc p w0) as (more & w' & Heq & Hmore)
  end.
  eexists _, more, _, w'. split; [exact Heq|]. split; [reflexivity|].
  split; [|exact Hmore].
  cbn. f_equal. symmetry. eapply Forall2_length. exact Hmore.
Qed.

(** C8.  For a session with N records, [buildBidirectionalPayloads]
    returns 1 + N payloads: first the aggregate payload (the one
    [buildWebhookPayload] builds), then, record by record and in order, a
    payload with the connection as profile viewed, the source profile as
    the one it shares connections with, the connection's details, and the
    relation type "mutual_connection".  In particular the answer of the
    listener to a completed bi-directional collection is the aggregate
    payload followed by one such payload per collected record. *)
Theorem buildBidirectionalPayloads_shape `{SelectorEngine} :
  (forall flag session w,
   exists main rest w1 w',
     buildBidirectionalPayloads (mkParser flag (Some session)) w
     = (Ok (MainPayload main :: rest), mkParser flag (Some session), w') /\
     buildWebhookPayload (mkParser flag (Some session)) w
     = (Ok main, mkParser flag (Some session), w1) /\
     length (MainPayload main :: rest)
     = (1 + length (Session.connections session))%nat /\
     Forall2 (describes (Session.profileData session))
             (Session.connections session) rest) /\
  (forall profileData w payloads,
     (on_parseAllMutualConnectionsBidirectional profileData w).1
     = Success payloads ->
     exists main rest,
       payloads = MainPayload main :: rest /\
       length payloads = (1 + Aggregate.totalCount main)%nat /\
       Forall2 (describes profileData) (Aggregate.mutualConnections main) rest).
Proof.
  split; [intros; apply buildBidirectionalPayloads_some|].
  intros profileData w payloads.
  unfold on_parseAllMutualConnectionsBidirectional, new_Parser.
  destruct (bind _ _ _ w) as [[r this'] w'] eqn:Hrun.
  apply bind_inv in Hrun as [(agg & p1 & w1 & Hparse & Hbuild)|(e & _ & ->)];
    [|discriminate].
  rewrite await_quiet in Hparse.
  apply parseAllMutualConnections_idle in Hparse as (s & -> & Hpd & _).
  destruct (buildBidirectionalPayloads_some false s w1)
    as (main & rest & w2 & w3 & Hb & Hmain & Hlen & Hrest).
  rewrite Hb in Hbuild. inversion Hbuild; subst r this' w'. cbn.
  intros [= <-]. exists main, rest. split; [reflexivity|].
  rewrite buildWebhookPayload_some in Hmain. inversion Hmain; subst main.
  cbn in *. rewrite <- Hpd. auto.
Qed.

Lemma buildBidirectionalPayloads_shape_witness :
  exists main rest,
    (@on_parseAllMutualConnectionsBidirectional Fixtures.results_engine quiet
       Fixtures.source_profile Fixtures.quick_world).1
    = Success (MainPayload main :: rest) /\
    length (MainPayload main :: rest) = 3%nat /\
    Forall2 (describes Fixtures.source_profile)
            (Aggregate.mutualConnections main) rest.
Proof.
  destruct (@on_parseAllMutualConnectionsBidirectional Fixtures.results_engine quiet
              Fixtures.source_profile Fixtures.quick_world).1
    as [payloads|msg] eqn:Hanswer; [|vm_compute in Hanswer; discriminate].
  destruct (proj2 (@buildBidirectionalPayloads_shape Fixtures.results_engine)
              _ _ _ Hanswer) as (main & rest & -> & Hlen & Hrest).
  exists main, rest. split; [reflexivity|]. split; [|exact Hrest].
  vm_compute in Hanswer. inversion Hanswer; subst. reflexivity.
Defined.

(* ================================================================== *)
(** * One session at a time *)
(* ================================================================== *)

Lemma same_of_reads {A} (m : M A) (Q : Res A -> Prop) :
  reads m Q -> same_when_busy m m.
Proof.
  intros Hm p w Hp. split; [reflexivity|].
  destruct (m p w) as [[r p'] w'] eqn:Heq.
  apply Hm in Heq as [-> _]. exact Hp.
Qed.

Lemma same_bind {A B} (m1 m2 : M A) (k1 k2 : A -> M B) :
  same_when_busy m1 m2 ->
  (forall a, same_when_busy (k1 a) (k2 a)) ->
  same_when_busy (bind m1 k1) (bind m2 k2).
Proof.
  intros Hm Hk p w Hp. destruct (Hm p w Hp) as [Heq Hflag].
  unfold bind. rewrite Heq.
  destruct (m2 p w) as [[[a|e] p1] w1]; cbn in Hflag.
  - apply Hk. exact Hflag.
  - split; [reflexivity|exact Hflag].
Qed.

Lemma same_try_catchM {A} (m1 m2 : M A) (h1 h2 : exn -> M A) :
  same_when_busy m1 m2 ->
  (forall e, same_when_busy (h1 e) (h2 e)) ->
  same_when_busy (try_catchM m1 h1) (try_catchM m2 h2).
Proof.
  intros Hm Hh p w Hp. destruct (Hm p w Hp) as [Heq Hflag].
  unfold try_catchM. rewrite Heq.
  destruct (m2 p w) as [[[a|e] p1] w1]; cbn in Hflag.
  - split; [reflexivity|exact Hflag].
  - apply Hh. exact Hflag.
Qed.

Lemma same_ret {A} (a : A) : same_when_busy (ret a) (ret a).
Proof. intros p w Hp. split; [reflexivity|exact Hp]. Qed.

Lemma same_throw {A} (e : exn) : same_when_busy (@throw A e) (throw e).
Proof. intros p w Hp. split; [reflexivity|exact Hp]. Qed.

Lemma same_record_page (l : list Connection.t) :
  same_when_busy (record_page l) (record_page l).
Proof.
  intros [flag [session|]] w Hp; (split; [reflexivity|exact Hp]).
Qed.

Lemma reads_get_session : reads get_session (fun _ => True).
Proof.
  intros [flag [session|]] w r p' w' Heq; inversion Heq; subst; auto.
Qed.

Lemma reads_buildWebhookPayload : reads buildWebhookPayload (fun _ => True).
Proof.
  intros [flag [session|]] w r p' w' Heq; inversion Heq; subst; auto.
Qed.

Section Interleaving.

Context `{SelectorEngine} (loop : EventLoop) (Hloop : spares_busy loop).

Lemma same_suspend : same_when_busy (@suspend loop) (@suspend quiet).
Proof.
  intros p w Hp. unfold suspend. rewrite (Hloop p w Hp).
  split; [reflexivity|exact Hp].
Qed.

Lemma same_await {A} (m1 m2 : M A) :
  same_when_busy m1 m2 ->
  same_when_busy (@await loop A m1) (@await quiet A m2).
Proof.
  intros Hm p w Hp. destruct (Hm p w Hp) as [Heq Hflag].
  unfold await. rewrite Heq.
  destruct (m2 p w) as [[r p1] w1]; cbn in Hflag.
  rewrite (Hloop p1 w1 Hflag). split; [reflexivity|exact Hflag].
Qed.

Lemma same_extract_items (items : list Element) :
  forall acc,
    same_when_busy (@extract_items _ loop items acc)
                   (@extract_items _ quiet items acc).
Proof.
  induction items as [|item rest IH]; intros acc; cbn [extract_items].
  - apply same_ret.
  - apply same_bind.
    + apply same_try_catchM; [|intros e; apply same_ret].
      apply same_bind.
      * apply same_await.
        eapply same_of_reads, extractConnectionData_spec.
      * intros [c|]; apply same_ret.
    + intros acc'. apply same_bind; [apply same_await, same_suspend|].
      intros _. apply IH.
Qed.

Lemma same_parseSearchResults :
  same_when_busy (@parseSearchResults _ loop) (@parseSearchResults _ quiet).
Proof.
  unfold parseSearchResults.
  apply same_try_catchM; [|intros e; apply same_throw].
  apply same_bind; [apply same_await, same_suspend|]. intros _.
  apply same_bind; [eapply same_of_reads, reads_get_document|].
  intros document.
  apply same_bind;
    [eapply same_of_reads, reads_lift with (Q := fun _ => True); exact I|].
  intros [|]; [apply same_throw|].
  apply same_bind;
    [eapply same_of_reads, reads_lift with (Q := fun _ => True); exact I|].
  intros resultItems. destruct (length resultItems =? 0)%nat.
  - apply same_bind;
      [eapply same_of_reads, reads_lift with (Q := fun _ => True); exact I|].
    intros alternativeItems. destruct (length alternativeItems =? 0)%nat.
    + apply same_ret.
    + apply same_extract_items.
  - apply same_extract_items.
Qed.

Lemma same_navigateToNextPage :
  same_when_busy (@navigateToNextPage _ loop) (@navigateToNextPage _ quiet).
Proof.
  unfold navigateToNextPage.
  apply same_bind; [eapply same_of_reads, reads_get_document|].
  intros document.
  apply same_bind;
    [eapply same_of_reads, reads_lift with (Q := fun _ => True); exact I|].
  intros [nextButton|]; [|apply same_throw].
  apply same_bind; [apply same_await, same_suspend|]. intros _.
  apply same_bind; [apply same_await, same_suspend|]. intros _.
  unfold click_and_load.
  apply same_bind; [apply same_suspend|]. intros _.
  intros p w Hp. split; [reflexivity|exact Hp].
Qed.

Lemma same_page_loop (remaining : nat) :
  same_when_busy (@page_loop _ loop remaining) (@page_loop _ quiet remaining).
Proof.
  induction remaining as [|n IH]; cbn [page_loop]; [apply same_ret|].
  apply same_bind; [eapply same_of_reads, reads_Date_now|]. intros now.
  apply same_bind; [eapply same_of_reads, reads_get_session|]. intros session.
  destruct (_ >? Config.sessionTimeout); [apply same_throw|].
  apply same_bind; [apply same_await, same_parseSearchResults|].
  intros pageConnections.
  apply same_bind; [apply same_record_page|]. intros _.
  apply same_bind; [eapply same_of_reads, hasNextPage_reads|].
  intros more. destruct more; cbn [negb]; [|apply same_ret].
  apply same_bind; [apply same_await, same_suspend|]. intros _.
  apply same_bind; [apply same_await, same_navigateToNextPage|]. intros _.
  exact IH.
Qed.

(** A session that starts on an idle parser runs as in the quiet event
    loop when the other tasks leave a parser whose flag is set alone. *)
Lemma session_undisturbed (profileData : ProfileData.t)
      (session : option Session.t) (w : World) :
  @parseAllMutualConnections _ loop profileData (mkParser false session) w
  = @parseAllMutualConnections _ quiet profileData (mkParser false session) w.
Proof.
  change (try_finally
            (@page_loop _ loop Config.maxPagesPerSession ;;; buildWebhookPayload)
            (fun this => mkParser false (currentSession this))
            (fresh_session profileData w) (tick w)
          = try_finally
              (@page_loop _ quiet Config.maxPagesPerSession ;;;
               buildWebhookPayload)
              (fun this => mkParser false (currentSession this))
              (fresh_session profileData w) (tick w)).
  unfold try_finally.
  destruct (same_bind _ _ (fun _ => buildWebhookPayload)
              (fun _ => buildWebhookPayload)
              (same_page_loop Config.maxPagesPerSession)
              (fun _ => same_of_reads _ _ reads_buildWebhookPayload)
              (fresh_session profileData w) (tick w) eq_refl) as [Heq _].
  rewrite Heq. reflexivity.
Qed.

End Interleaving.

Lemma when_idle_spares (f : Parser -> World -> Parser * World) :
  spares_busy (when_idle f).
Proof. intros p w Hp. cbn. rewrite Hp. reflexivity. Qed.

Lemma second_caller_spares `{SelectorEngine} (profileData : ProfileData.t) :
  spares_busy (second_caller profileData).
Proof. intros [flag session] w Hp. cbn in Hp. subst flag. reflexivity. Qed.

(** C7.  One session at a time, per parser object.
    - A call of [parseAllMutualConnections] on a parser whose flag is set
      throws "Parsing already in progress" at once and changes neither the
      parser (flag, session with its records and page counter) nor the
      world, whatever the other tasks do; nothing is queued.
    - A session started on an idle parser has the flag set at every
      [await] up to its end: other code that acts only on an idle parser
      never acts while the session runs.
    - So a second call made on the same parser at any [await] of a running
      session leaves that session as it would have been without the call.
    - When the call ends, whether it returns or throws, the flag is
      clear, whatever the other tasks do.
    - A call made after that is not refused: it installs its own
      session. *)
Theorem one_session_at_a_time `{SelectorEngine} :
  (forall (loop : EventLoop) profileData session w,
     @parseAllMutualConnections _ loop profileData (mkParser true session) w
     = (Throw (Error "Parsing already in progress"),
        mkParser true session, w)) /\
  (forall f profileData session w,
     @parseAllMutualConnections _ (when_idle f) profileData
       (mkParser false session) w
     = parseAllMutualConnections profileData (mkParser false session) w) /\
  (forall profileData' profileData session w,
     @parseAllMutualConnections _ (second_caller profileData') profileData
       (mkParser false session) w
     = parseAllMutualConnections profileData (mkParser false session) w) /\
  (forall (loop : EventLoop) profileData session w,
     isProcessing
       (@parseAllMutualConnections _ loop profileData
          (mkParser false session) w).1.2
     = false) /\
  (forall profileData session w profileData' w',
     let this' :=
       (parseAllMutualConnections profileData (mkParser false session) w).1.2 in
     exists session',
       (parseAllMutualConnections profileData' this' w').1.2
       = mkParser false (Some session') /\
       Session.profileData session' = profileData' /\
       Session.startTime session' = clock w' (ticks w')).
Proof.
  split; [reflexivity|].
  split; [intros f; apply session_undisturbed, when_idle_spares|].
  split; [intros profileData';
          apply session_undisturbed, second_caller_spares|].
  split.
  - intros loop profileData session w.
    change (isProcessing
              (try_finally
                 (@page_loop _ loop Config.maxPagesPerSession ;;;
                  buildWebhookPayload)
                 (fun this => mkParser false (currentSession this))
                 (fresh_session profileData w) (tick w)).1.2 = false).
    unfold try_finally. destruct (bind _ _ _ _) as [[r p'] w']. reflexivity.
  - intros profileData session w profileData' w'.
    destruct (parseAllMutualConnections profileData (mkParser false session) w)
      as [[r this'] w1] eqn:Hrun.
    apply parseAllMutualConnections_idle in Hrun as (s & -> & _).
    cbn [fst snd].
    destruct (parseAllMutualConnections profileData' (mkParser false (Some s)) w')
      as [[r2 this2] w2] eqn:Hrun2.
    apply parseAllMutualConnections_idle in Hrun2
      as (s2 & -> & Hpd & Hst & _).
    exists s2. auto.
Qed.

(** On the two pages of the example: a second caller that tries at every
    [await] is refused each time, and the session returns its two records
    as it does undisturbed. *)
Lemma one_session_at_a_time_witness :
  @parseAllMutualConnections Fixtures.results_engine
    (@second_caller Fixtures.results_engine Fixtures.source_profile)
    Fixtures.source_profile new_Parser Fixtures.quick_world
  = @parseAllMutualConnections Fixtures.results_engine quiet
      Fixtures.source_profile new_Parser Fixtures.quick_world /\
  (exists payload,
     (@parseAllMutualConnections Fixtures.results_engine
        (@second_caller Fixtures.results_engine Fixtures.source_profile)
        Fixtures.source_profile new_Parser Fixtures.quick_world).1.1
     = Ok payload /\
     length (Aggregate.mutualConnections payload) = 2%nat) /\
  @parseAllMutualConnections Fixtures.results_engine quiet
    Fixtures.source_profile
    (fresh_session Fixtures.source_profile Fixtures.quick_world)
    (tick Fixtures.quick_world)
  = (Throw (Error "Parsing already in progress"),
     fresh_session Fixtures.source_profile Fixtures.quick_world,
     tick Fixtures.quick_world).
Proof.
  destruct (@one_session_at_a_time Fixtures.results_engine)
    as (Hrefused & _ & Hsecond & _).
  unfold new_Parser. split; [apply Hsecond|]. split.
  - rewrite Hsecond. eexists. split; [vm_compute; reflexivity|reflexivity].
  - apply Hrefused.
Defined.

Lemma timeout_check_trips `{SelectorEngine} remaining flag session w :
  clock w (ticks w) - Session.startTime session > Config.sessionTimeout ->
  page_loop (S remaining) (mkParser flag (Some session)) w
  = (Throw (Error "Session timeout exceeded"),
     mkParser flag (Some session), tick w).
Proof.
  intros Hlate. cbn [page_loop].
  unfold bind at 1, Date_now at 1. unfold bind at 1.
  rewrite get_session_some.
  cbn [clock ticks random draws pages page_ix].
  apply Z.gtb_gt in Hlate. rewrite Hlate. reflexivity.
Qed.

Lemma page_loop_throw_propagates `{SelectorEngine} profileData session w e this1 w1 :
  page_loop Config.maxPagesPerSession (fresh_session profileData w) (tick w)
  = (Throw e, this1, w1) ->
  parseAllMutualConnections profileData (mkParser false session) w
  = (Throw e, mkParser false (currentSession this1), w1).
Proof.
  intros Hloop.
  unfold parseAllMutualConnections, bind at 1, get_this. cbn [isProcessing].
  unfold bind at 1, set_this at 1. unfold bind at 1, Date_now at 1.
  unfold bind at 1, set_this at 1, try_finally.
  cbn [clock ticks random draws pages page_ix currentSession].
  unfold bind at 1. unfold fresh_session, tick in Hloop. rewrite Hloop.
  reflexivity.
Qed.

(** C3, as the code has it.  The timeout is 300000 ms.  At the top of a
    page iteration, when the clock is more than the timeout past the
    session's start, the loop throws [Error "Session timeout exceeded"]
    (an [Error] like the other failures, told apart by its message) and
    leaves the session with the records accumulated so far in [this].
    An exception of the loop ends the call: the flag is cleared, the call
    throws that exception, and the listener answers with a failure that
    carries the message only; no payload, hence no record, is returned. *)
Theorem session_timeout_aborts `{SelectorEngine} :
  Config.sessionTimeout = 300000 /\
  (forall remaining flag session w,
     clock w (ticks w) - Session.startTime session > Config.sessionTimeout ->
     page_loop (S remaining) (mkParser flag (Some session)) w
     = (Throw (Error "Session timeout exceeded"),
        mkParser flag (Some session), tick w)) /\
  (forall profileData w e this1 w1,
     page_loop Config.maxPagesPerSession (fresh_session profileData w) (tick w)
     = (Throw e, this1, w1) ->
     parseAllMutualConnections profileData new_Parser w
     = (Throw e, mkParser false (currentSession this1), w1) /\
     on_parseAllMutualConnections profileData w
     = (Failure (exn_message e), w1)).
Proof.
  split; [reflexivity|]. split.
  - intros. apply timeout_check_trips. assumption.
  - intros profileData w e this1 w1 Hloop.
    apply (page_loop_throw_propagates _ None) in Hloop.
    split; [exact Hloop|].
    unfold on_parseAllMutualConnections, new_Parser.
    rewrite await_quiet, Hloop. reflexivity.
Qed.

Lemma session_timeout_aborts_witness :
  @page_loop Fixtures.results_engine quiet 1
    (mkParser true (Some (Session.mk Fixtures.source_profile 1700000000000 [] 0)))
    (tick (tick (tick Fixtures.slow_world)))
  = (Throw (Error "Session timeout exceeded"),
     mkParser true (Some (Session.mk Fixtures.source_profile 1700000000000 [] 0)),
     tick (tick (tick (tick Fixtures.slow_world)))) /\
  (@on_parseAllMutualConnections Fixtures.results_engine quiet
     Fixtures.source_profile Fixtures.slow_world).1
  = Failure "Session timeout exceeded".
Proof.
  split.
  - apply (proj1 (proj2 (@session_timeout_aborts Fixtures.results_engine))).
    vm_compute. reflexivity.
  - destruct (@page_loop Fixtures.results_engine quiet Config.maxPagesPerSession
                (fresh_session Fixtures.source_profile Fixtures.slow_world)
                (tick Fixtures.slow_world)) as [[r this1] w1] eqn:Hloop.
    assert (Hr : r = Throw (Error "Session timeout exceeded")).
    { change r with (r, this1, w1).1.1. rewrite <- Hloop.
      vm_compute. reflexivity. }
    subst r.
    destruct (proj2 (proj2 (@session_timeout_aborts Fixtures.results_engine))
                _ _ _ _ _ Hloop) as [_ Hanswer].
    rewrite Hanswer. reflexivity.
Defined.

(** C3 as stated fails: when the second page is reached six minutes after
    the start, the call throws, the one record of the first page stays in
    [this.currentSession], and the caller is answered with the message
    alone. *)
Lemma timeout_returns_no_records :
  (@parseAllMutualConnections Fixtures.results_engine quiet Fixtures.source_profile
     new_Parser Fixtures.slow_world).1.1
  = Throw (Error "Session timeout exceeded") /\
  (exists s,
     currentSession
       (@parseAllMutualConnections Fixtures.results_engine quiet
          Fixtures.source_profile new_Parser Fixtures.slow_world).1.2
     = Some s /\ length (Session.connections s) = 1%nat) /\
  (@on_parseAllMutualConnections Fixtures.results_engine quiet
     Fixtures.source_profile Fixtures.slow_world).1
  = Failure "Session timeout exceeded".
Proof.
  split; [vm_compute; reflexivity|]. split; [|vm_compute; reflexivity].
  eexists. split; [vm_compute; reflexivity|reflexivity].
Qed.

(* ================================================================== *)
(** * Properties of detection and of the field extractor *)
(* ================================================================== *)

(** C4, as the code has it.  On a page whose shared-connections link has
    the label "5 other mutual connections" and an [href] with the query
    [facetConnectionOf=%22ABC%22], [detectMutualConnections] returns a
    result whose total count is 7 (the 5 of the label plus 2) and whose
    [encodedId] is the decoded value of the parameter: the five characters
    of ABC between two double quotes.  This holds with every CSS engine and
    every URL parser. *)
Theorem detectMutualConnections_example `{SelectorEngine} `{Url.UrlParser}
        (document link : Element) :
  querySelector document Config.mutualConnectionsLink = Ok (Some link) ->
  textContent link = js "5 other mutual connections" ->
  href link = Some (js Fixtures.example_href) ->
  detectMutualConnections document
  = Ok (Some (Detection.mk (js Fixtures.example_href)
                           (js (dq ++ "ABC" ++ dq)%string)
                           (Some (Num 7))
                           (js "5 other mutual connections"))).
Proof.
  intros Hlink Htext Hhref. unfold detectMutualConnections.
  rewrite Hlink. cbn [bindR try_catch]. rewrite Hhref, Htext.
  destruct (Url.new_URL_plain (js Fixtures.example_href))
    as (url & Hurl & Hget); [vm_compute; reflexivity|].
  replace (truthy (js Fixtures.example_href)) with true by reflexivity.
  cbn [negb]. rewrite Hurl. cbn [bindR]. rewrite Hget.
  vm_compute. reflexivity.
Qed.

Lemma detectMutualConnections_example_witness :
  @detectMutualConnections Fixtures.profile_engine Url.plain_parser
      Fixtures.profile_page
  = Ok (Some (Detection.mk (js Fixtures.example_href)
                           (js (dq ++ "ABC" ++ dq)%string)
                           (Some (Num 7))
                           (js "5 other mutual connections"))).
Proof.
  apply (@detectMutualConnections_example Fixtures.profile_engine
           Url.plain_parser Fixtures.profile_page
           (Fixtures.anchor 7 "5 other mutual connections"
                            Fixtures.example_href)).
  - vm_compute. reflexivity.
  - reflexivity.
  - reflexivity.
Defined.

(** C4 as stated fails on the identifier: the detected [encodedId] is not
    the three characters ABC; it has five, the first a double quote. *)
Lemma detected_id_keeps_its_quotes :
  exists d,
    @detectMutualConnections Fixtures.profile_engine Url.plain_parser
      Fixtures.profile_page
    = Ok (Some d) /\
    Detection.totalCount d = Some (Num 7) /\
    Detection.encodedId d <> js "ABC" /\
    length (Detection.encodedId d) = 5%nat /\
    head (Detection.encodedId d) = Some 34%N.
Proof.
  eexists. split; [vm_compute; reflexivity|]. cbn.
  repeat split; try reflexivity. discriminate.
Qed.

(** C6, as the code has it.  [extractTextContent] makes one query with
    the whole selector list.  It never throws.  When a selector of the list
    does not parse, the query throws and the result is [null], whatever the
    other selectors would match.  Otherwise the result is the trimmed text
    of the first element, in document order, that matches any selector of
    the list, and [null] when there is none. *)
Theorem extractTextContent_single_query `{SelectorEngine}
        (document : Element) (selector : selector_list) :
  (exists result, extractTextContent document selector = Ok result) /\
  (forall s, In s selector -> sel_valid s = false ->
             extractTextContent document selector = Ok None) /\
  (parses selector = true ->
   extractTextContent document selector
   = Ok ((fun e => trim (text_of e))
           <$> List.find (matches_any selector) (descendants document))).
Proof.
  unfold extractTextContent, querySelector. split; [|split].
  - destruct (parses selector); cbn; [|eauto].
    destruct (List.find _ _); cbn; eauto.
  - intros s Hin Hbad.
    assert (Hp : parses selector = false).
    { unfold parses. destruct selector as [|s0 rest]; [reflexivity|].
      apply not_true_is_false. intros Hall.
      rewrite forallb_forall in Hall. specialize (Hall s Hin). congruence. }
    rewrite Hp. reflexivity.
  - intros ->. cbn. destruct (List.find _ _); reflexivity.
Qed.

Lemma extractTextContent_single_query_witness :
  @extractTextContent Fixtures.broken_engine Fixtures.name_page
    Fixtures.candidates = Ok None /\
  @extractTextContent Fixtures.order_engine Fixtures.order_page [".new"; ".old"]
  = Ok (Some (js "old markup")).
Proof.
  split.
  - apply (proj1 (proj2 (@extractTextContent_single_query
                           Fixtures.broken_engine Fixtures.name_page
                           Fixtures.candidates))) with (s := "h1:contains(name)").
    + left. reflexivity.
    + reflexivity.
  - rewrite (proj2 (proj2 (@extractTextContent_single_query
                             Fixtures.order_engine Fixtures.order_page
                             [".new"; ".old"]))); reflexivity.
Defined.

(** C6 as stated fails.  With a first candidate that does not parse, the
    extractor of the specification skips it and finds the name under the
    second candidate, where the code returns [null]; and with two valid
    candidates the code returns the text of the element that comes first
    in the document, not the one under the first candidate. *)
Lemma extractTextContent_does_not_skip :
  @extractTextContent Fixtures.broken_engine Fixtures.name_page
    Fixtures.candidates = Ok None /\
  @extractText_as_specified Fixtures.broken_engine Fixtures.name_page
    Fixtures.candidates = Some (js "Eve Park") /\
  @extractTextContent Fixtures.order_engine Fixtures.order_page [".new"; ".old"]
  = Ok (Some (js "old markup")) /\
  @extractText_as_specified Fixtures.order_engine Fixtures.order_page
    [".new"; ".old"] = Some (js "new markup").
Proof. repeat split; vm_compute; reflexivity. Qed.

(* ================================================================== *)
(** * Properties of the queue: [addToQueue], [processQueue] *)
(* ================================================================== *)

Section StorageProofs.

Context {P : Type}.

Lemma initialize_one_frame (s : @Background.State P) (w : Storage.Webhook) :
  Background.timers (Background.initialize_one s w) = Background.timers s /\
  Background.effects (Background.initialize_one s w) = Background.effects s /\
  Background.ticks (Background.initialize_one s w) = Background.ticks s /\
  Background.next_timer (Background.initialize_one s w)
  = Background.next_timer s.
Proof.
  unfold Background.initialize_one.
  destruct (Background.webhookQueues s !! Storage.url w); cbn; auto.
Qed.

Lemma initialize_one_entry (s : @Background.State P) (w : Storage.Webhook)
      (u : string) :
  Background.webhookQueues (Background.initialize_one s w) !! u
  = if String.eqb (Storage.url w) u then
      let e := default (Background.mkQueueData [] 0 None 0)
                       (Background.webhookQueues s !! u) in
      Some (Background.mkQueueData (Background.queue e) (Background.lastSent e)
              (Background.timer e) (Storage.rateLimit_or_0 w))
    else Background.webhookQueues s !! u.
Proof.
  unfold Background.initialize_one.
  destruct (String.eqb_spec (Storage.url w) u) as [<-|Hne].
  - destruct (Background.webhookQueues s !! Storage.url w) as [qd|];
      cbn; rewrite lookup_insert_eq; reflexivity.
  - destruct (Background.webhookQueues s !! Storage.url w) as [qd|];
      cbn; rewrite lookup_insert_ne by congruence; reflexivity.
Qed.

(** What [initializeQueues] does: an endpoint the storage has an entry for
    gets the configured rate limit and keeps the rest of its queue data
    (an empty queue, 0 and no timer for a new endpoint); every other
    endpoint keeps its queue data; nothing else changes. *)
Lemma initializeQueues_spec (webhooks : option (list Storage.Webhook))
      (s : @Background.State P) (u : string) :
  let s' := Background.initializeQueues webhooks s in
  Background.webhookQueues s' !! u
  = match Background.configured u webhooks with
    | Some r =>
        let e := default (Background.mkQueueData [] 0 None 0)
                         (Background.webhookQueues s !! u) in
        Some (Background.mkQueueData (Background.queue e)
                (Background.lastSent e) (Background.timer e) r)
    | None => Background.webhookQueues s !! u
    end /\
  Background.timers s' = Background.timers s /\
  Background.effects s' = Background.effects s /\
  Background.ticks s' = Background.ticks s /\
  Background.next_timer s' = Background.next_timer s.
Proof.
  cbn zeta. unfold Background.configured.
  destruct webhooks as [webhooks|]; [|cbn; auto].
  unfold Background.initializeQueues.
  induction webhooks as [|w webhooks IH] using rev_ind; [cbn; auto|].
  rewrite fold_left_app. cbn [fold_left].
  destruct IH as (Hentry & Htimers & Heffects & Hticks & Hnext).
  destruct (initialize_one_frame
              (fold_left Background.initialize_one webhooks s) w)
    as (Ht & He & Hk & Hn).
  split; [|repeat split; congruence].
  rewrite initialize_one_entry. unfold entries_for in *.
  rewrite List.filter_app. cbn [List.filter].
  destruct (String.eqb (Storage.url w) u).
  - rewrite last_snoc. rewrite Hentry. cbn.
    destruct (last _) as [w0|]; reflexivity.
  - rewrite app_nil_r. exact Hentry.
Qed.

(** the same, for what the observations of an endpoint see *)
Lemma initializeQueues_views (webhooks : option (list Storage.Webhook))
      (s : @Background.State P) (u : string) :
  let s' := Background.initializeQueues webhooks s in
  Background.posted u s' = Background.posted u s /\
  Background.pending u s' = Background.pending u s.
Proof.
  cbn zeta.
  destruct (initializeQueues_spec webhooks s u) as (Hq & _ & He & _).
  unfold Background.posted, Background.pending. rewrite He, Hq.
  split; [reflexivity|].
  destruct (Background.configured u webhooks); [|reflexivity].
  destruct (Background.webhookQueues s !! u); reflexivity.
Qed.

End StorageProofs.

Section QueueProofs.

Context {P : Type} (clock : nat -> Z).

(** [processQueue] for one endpoint leaves the queue data and the
    dispatches of every other endpoint as they are. *)
Lemma processQueue_rec_other (u v : string) :
  u <> v ->
  forall fuel (s : @Background.State P),
    Background.webhookQueues (Background.processQueue_rec clock fuel v s) !! u
    = Background.webhookQueues s !! u /\
    Background.posted u (Background.processQueue_rec clock fuel v s)
    = Background.posted u s.
Proof.
  intros Hne.
  assert (Heqb : String.eqb v u = false)
    by (destruct (String.eqb_spec v u); congruence).
  induction fuel as [|fuel IH]; intros s; cbn [Background.processQueue_rec].
  all: destruct (Background.webhookQueues s !! v) as [qd|] eqn:Hqd; [|auto].
  all: destruct (Background.queue qd) as [|item rest] eqn:Hq; [auto|].
  all: cbn.
  all: destruct ((0 <? Background.rateLimit qd) && _) eqn:Hwait.
  all: try (destruct (Background.timer qd); cbn;
            rewrite lookup_insert_ne by congruence; auto; fail).
  all: destruct rest as [|item' rest']; cbn.
  all: try (unfold Background.posted; cbn; rewrite Heqb;
            rewrite lookup_insert_ne by congruence; auto; fail).
  all: destruct (0 <? Background.rateLimit qd) eqn:Hrl; cbn.
  all: try (unfold Background.posted; cbn; rewrite Heqb;
            rewrite !lookup_insert_ne by congruence; auto; fail).
  match goal with
  | |- context [Background.processQueue_rec clock fuel v ?s1] =>
      destruct (IH s1) as [Hq1 Hp1]; rewrite Hq1, Hp1
  end.
  unfold Background.posted; cbn; rewrite Heqb.
  rewrite lookup_insert_ne by congruence. auto.
Qed.


(** [processQueue] for an endpoint with a positive rate limit: either
    nothing is dispatched, or the head of the queue is, at a timestamp at
    least the interval after the last one. *)
Lemma processQueue_rec_own (u : string) fuel (s : @Background.State P) qd :
  Background.webhookQueues s !! u = Some qd ->
  0 < Background.rateLimit qd ->
  exists qd',
    Background.webhookQueues (Background.processQueue_rec clock fuel u s) !! u
    = Some qd' /\
    Background.rateLimit qd' = Background.rateLimit qd /\
    ((Background.queue qd' = Background.queue qd /\
      Background.lastSent qd' = Background.lastSent qd /\
      Background.posted u (Background.processQueue_rec clock fuel u s)
      = Background.posted u s) \/
     (exists item,
        Background.queue qd = item :: Background.queue qd' /\
        Background.lastSent qd + Background.rateLimit qd * 1000
        <= Background.lastSent qd' /\
        Background.posted u (Background.processQueue_rec clock fuel u s)
        = (Background.payload item, Background.lastSent qd')
            :: Background.posted u s)).
Proof.
  intros Hqd Hrl.
  assert (Hpos : (0 <? Background.rateLimit qd) = true) by (apply Z.ltb_lt; lia).
  destruct fuel as [|fuel]; cbn [Background.processQueue_rec]; rewrite Hqd.
  all: destruct (Background.queue qd) as [|item rest] eqn:Hq;
    [exists qd; rewrite Hqd, Hq; auto 10|].
  all: cbn; rewrite Hpos; cbn [andb].
  all: destruct (clock (Background.ticks s) - Background.lastSent qd
                <? Background.rateLimit qd * 1000) eqn:Hwait.
  1,3: destruct (Background.timer qd); cbn; rewrite lookup_insert_eq;
    eexists; (split; [reflexivity|]); cbn; auto 10.
  all: apply Z.ltb_ge in Hwait.
  all: destruct rest as [|item' rest']; cbn; rewrite ?Hpos; cbn;
    rewrite lookup_insert_eq; eexists; (split; [reflexivity|]); cbn;
    (split; [reflexivity|]); right; exists item;
    unfold Background.posted; cbn; rewrite String.eqb_refl;
    repeat split; try reflexivity; lia.
Qed.


Lemma queue_inv_ext (u : string) I done (s s' : @Background.State P) :
  Background.webhookQueues s' !! u = Background.webhookQueues s !! u ->
  Background.posted u s' = Background.posted u s ->
  queue_inv u I done s -> queue_inv u I done s'.
Proof.
  unfold queue_inv, Background.sends, Background.pending.
  intros -> ->. auto.
Qed.

Lemma spaced_cons d t l :
  spaced d l -> (forall t0, head l = Some t0 -> t0 + d <= t) ->
  spaced d (t :: l).
Proof. destruct l as [|t0 l]; cbn; auto. Qed.

(** A call of [processQueue] keeps the invariant of its endpoint. *)
Lemma queue_inv_processQueue (u : string) I done fuel (s : @Background.State P) :
  0 < I ->
  queue_inv u I done s ->
  queue_inv u I done (Background.processQueue_rec clock fuel u s).
Proof.
  intros HI (Hfifo & Hspaced & Hdata).
  destruct (Background.webhookQueues s !! u) as [qd|] eqn:Hqd.
  2:{ assert (Hsame : Background.processQueue_rec clock fuel u s = s)
        by (destruct fuel; cbn; rewrite Hqd; reflexivity).
      rewrite Hsame. unfold queue_inv. rewrite Hqd. auto. }
  destruct Hdata as [Hrate Hlast].
  destruct (processQueue_rec_own u fuel s qd Hqd ltac:(lia))
    as (qd' & Hqd' & Hrate' & Hcases).
  unfold queue_inv, Background.sends, Background.pending in *.
  rewrite Hqd in Hfifo. rewrite Hqd'.
  destruct Hcases as [(Hq & Hl & Hp)|(item & Hq & Hgap & Hp)]; rewrite Hp.
  - rewrite Hq. repeat split; auto; try congruence.
    intros t Ht. rewrite Hl. auto.
  - split; [|split; [|split]].
    + rewrite <- Hfifo, Hq. cbn. rewrite map_app, <- app_assoc. reflexivity.
    + cbn [List.map snd]. apply spaced_cons; [assumption|].
      intros t0 Ht0. apply Hlast in Ht0. lia.
    + congruence.
    + cbn. intros t Ht. congruence.
Qed.

Lemma enqueued_snoc (u : string) (done : list (@Background.Event P)) ev :
  Background.enqueued u (done ++ [ev]) =
  (Background.enqueued u done ++
   match ev with
   | Background.Enqueue v p _ _ => if String.eqb v u then [p] else []
   | Background.TimerFires _ | Background.StorageRead _ => []
   end)%list.
Proof.
  unfold Background.enqueued. rewrite omap_app. f_equal.
  destruct ev as [v p n r|id|ws]; cbn; [destruct (String.eqb v u)| |];
    reflexivity.
Qed.

(** [addToQueue] appends the entry to the endpoint's queue data, sets its
    rate limit, and calls [processQueue]. *)
Lemma addToQueue_shape (v : string) (p : P) n r (s : @Background.State P) :
  let qd0 := match Background.webhookQueues s !! v with
             | Some queueData => queueData
             | None => Background.mkQueueData [] 0 None r
             end in
  exists s1,
    Background.addToQueue clock v p n r s = Background.processQueue clock v s1 /\
    Background.webhookQueues s1
    = <[v := Background.mkQueueData
               (Background.queue qd0
                ++ [Background.mkItem p n (clock (Background.ticks s))])%list
               (Background.lastSent qd0) (Background.timer qd0) r]>
        (Background.webhookQueues s) /\
    Background.timers s1 = Background.timers s /\
    Background.next_timer s1 = Background.next_timer s /\
    forall u, Background.posted u s1 = Background.posted u s.
Proof.
  intros qd0. unfold Background.addToQueue. cbv [Background.Date_now].
  cbv beta iota zeta. fold qd0.
  match goal with
  | |- context [if ?c then _ else _] => destruct c
  end; eexists; (split; [reflexivity|]); repeat split; reflexivity.
Qed.

(** One event keeps the invariant of an endpoint, when the event, if it is
    an enqueue for that endpoint or a reading of the storage with an entry
    for it, carries the interval. *)
Lemma queue_inv_step (u : string) I done (s : @Background.State P) ev :
  0 < I ->
  match ev with
  | Background.Enqueue v _ _ r => v = u -> r = I
  | Background.TimerFires _ => True
  | Background.StorageRead webhooks =>
      forall r, Background.configured u webhooks = Some r -> r = I
  end ->
  queue_inv u I done s ->
  queue_inv u I (done ++ [ev]) (Background.step clock s ev).
Proof.
  intros HI Hev Hinv.
  assert (Hdone : forall s', queue_inv u I done s' ->
            match ev with
            | Background.Enqueue v _ _ _ => v <> u
            | _ => True
            end -> queue_inv u I (done ++ [ev]) s').
  { intros s' (Hfifo & Hrest) Hother. split; [|exact Hrest].
    rewrite enqueued_snoc, Hfifo.
    destruct ev as [v p n r|id|ws]; [|by rewrite app_nil_r..].
    destruct (String.eqb_spec v u); [congruence|by rewrite app_nil_r]. }
  destruct ev as [v p n r|id|ws]; cbn [Background.step].
  3:{ apply Hdone; [|trivial].
      destruct (initializeQueues_spec ws s u) as (Hq & _).
      destruct (initializeQueues_views ws s u) as (Hp & Hpend).
      cbn zeta in Hq, Hp, Hpend.
      destruct Hinv as (Hfifo & Hspaced & Hdata).
      unfold queue_inv, Background.sends. rewrite Hp, Hpend.
      split; [exact Hfifo|]. split; [exact Hspaced|].
      rewrite Hq.
      destruct (Background.configured u ws) as [r|]; [|exact Hdata].
      specialize (Hev r eq_refl). subst r.
      destruct (Background.webhookQueues s !! u) as [qd|]; cbn.
      - destruct Hdata as [_ Hlast]. auto.
      - rewrite Hdata. split; [reflexivity|]. intros t Ht. discriminate. }
  - destruct (addToQueue_shape v p n r s) as (s1 & -> & Hq1 & _ & _ & Hp1).
    unfold Background.processQueue.
    set (fuel := Background.queue_length v s1).
    destruct (String.eqb_spec v u) as [->|Hne].
    + specialize (Hev eq_refl). subst r.
      apply queue_inv_processQueue; [assumption|].
      destruct Hinv as (Hfifo & Hspaced & Hdata).
      unfold queue_inv, Background.sends, Background.pending in *.
      rewrite Hq1, Hp1, lookup_insert_eq, enqueued_snoc, String.eqb_refl,
        <- Hfifo.
      cbn [Background.queue Background.rateLimit Background.lastSent].
      destruct (Background.webhookQueues s !! u) as [qd|] eqn:Hqd.
      * rewrite map_app, app_assoc. cbn. destruct Hdata. auto.
      * rewrite Hdata in *. cbn. repeat split; auto. intros t Ht; discriminate.
    + destruct (processQueue_rec_other u v ltac:(congruence) fuel s1)
        as [Hq2 Hp2].
      apply Hdone; [|assumption].
      eapply queue_inv_ext; [| |exact Hinv].
      * rewrite Hq2, Hq1. apply lookup_insert_ne. assumption.
      * rewrite Hp2. apply Hp1.
  - unfold Background.timer_fires.
    destruct (Background.timers s !! id) as [[v due]|]; [|apply Hdone; auto].
    unfold Background.processQueue.
    set (s1 := Background.clearTimeout id s). set (fuel := Background.queue_length v s1).
    assert (Hinv1 : queue_inv u I done s1)
      by (eapply queue_inv_ext; [| |exact Hinv]; reflexivity).
    apply Hdone; [|trivial].
    destruct (String.eqb_spec v u) as [->|Hne].
    + apply queue_inv_processQueue; assumption.
    + destruct (processQueue_rec_other u v ltac:(congruence) fuel s1)
        as [Hq2 Hp2].
      eapply queue_inv_ext; [exact Hq2|exact Hp2|exact Hinv1].
Qed.

(** A run keeps the invariant. *)
Lemma queue_inv_run (u : string) I (evs : list (@Background.Event P)) :
  0 < I ->
  forall done s,
    Background.interval_is u I evs ->
    queue_inv u I done s ->
    queue_inv u I (done ++ evs) (Background.run clock evs s).
Proof.
  intros HI. induction evs as [|ev evs IH]; intros done s Hint Hinv.
  - rewrite app_nil_r. exact Hinv.
  - inversion Hint as [|? ? Hev Hrest]; subst.
    cbn [Background.run fold_left].
    replace (done ++ ev :: evs)%list with ((done ++ [ev]) ++ evs)%list
      by (rewrite <- app_assoc; reflexivity).
    apply IH; [assumption|]. apply queue_inv_step; assumption.
Qed.

Lemma queue_inv_initial (u : string) I :
  queue_inv u I [] (@Background.initial P).
Proof.
  unfold queue_inv, Background.sends, Background.pending,
    Background.posted, Background.initial. cbn.
  rewrite lookup_empty. auto.
Qed.


(** The fuel [processQueue] gives to its recursion is enough: any larger
    amount gives the same state. *)
Lemma processQueue_fuel_enough (v : string) :
  forall n fuel1 fuel2 (s : @Background.State P),
    (Background.queue_length v s <= n)%nat ->
    (n <= fuel1)%nat -> (n <= fuel2)%nat ->
    Background.processQueue_rec clock fuel1 v s
    = Background.processQueue_rec clock fuel2 v s.
Proof.
  induction n as [|n IH]; intros fuel1 fuel2 s Hlen H1 H2.
  - unfold Background.queue_length in Hlen.
    destruct fuel1, fuel2; cbn [Background.processQueue_rec];
      destruct (Background.webhookQueues s !! v) as [qd|]; try reflexivity;
      destruct (Background.queue qd); try reflexivity; cbn in Hlen; lia.
  - destruct fuel1 as [|fuel1]; [lia|]. destruct fuel2 as [|fuel2]; [lia|].
    cbn [Background.processQueue_rec].
    unfold Background.queue_length in Hlen.
    destruct (Background.webhookQueues s !! v) as [qd|] eqn:Hqd; [|reflexivity].
    destruct (Background.queue qd) as [|item rest] eqn:Hq; [reflexivity|].
    cbn. destruct (_ && _); [reflexivity|].
    destruct rest as [|item' rest']; [reflexivity|].
    destruct (0 <? Background.rateLimit qd); [reflexivity|].
    apply IH; [|lia|lia].
    unfold Background.queue_length. cbn. rewrite lookup_insert_eq.
    cbn in *. lia.
Qed.

Lemma spaced_lookup d (l : list Z) :
  spaced d l ->
  forall j newer older,
    l !! j = Some newer -> l !! S j = Some older -> older + d <= newer.
Proof.
  induction l as [|x l IH]; intros Hsp j newer older Hn Ho; [discriminate|].
  destruct l as [|y l]; [discriminate|].
  destruct Hsp as [Hxy Hrest].
  destruct j as [|j]; cbn in Hn, Ho.
  - inversion Hn; inversion Ho; subst. exact Hxy.
  - eapply IH; eauto.
Qed.

Lemma spaced_rev_lookup d (l : list Z) :
  spaced d l ->
  forall i a b,
    rev l !! i = Some a -> rev l !! S i = Some b -> a + d <= b.
Proof.
  intros Hsp i a b Ha Hb.
  rewrite rev_alt in Ha, Hb. change (rev_append l []) with (reverse l) in *.
  assert (Hi : (S i < length l)%nat).
  { apply lookup_lt_Some in Hb. rewrite length_reverse in Hb. exact Hb. }
  rewrite reverse_lookup in Ha by lia. rewrite reverse_lookup in Hb by lia.
  replace (length l - S i)%nat with (S (length l - S (S i))) in Ha by lia.
  eapply spaced_lookup; eauto.
Qed.

End QueueProofs.

(* ================================================================== *)
(** * Progress of the queue *)
(* ================================================================== *)

Section TimerProofs.

Context {P : Type} (clock : nat -> Z).

Lemma timers_ok_sub (C C' : string -> Prop) (s : @Background.State P) :
  (forall w, C' w -> C w) -> timers_ok C s -> timers_ok C' s.
Proof.
  intros Hsub (Ha & Hb & Hc). split; [exact Ha|]. split; [exact Hb|].
  intros w qd Hw. apply Hc, Hsub, Hw.
Qed.

Lemma timers_ok_weaken (v : string) C (s : @Background.State P) :
  timers_ok (but v C) s ->
  (forall qd, Background.webhookQueues s !! v = Some qd ->
              Background.queue qd = []) ->
  timers_ok C s.
Proof.
  intros (Ha & Hb & Hc) Hempty. split; [exact Ha|]. split; [exact Hb|].
  intros w qd Hcov Hqd Hne.
  destruct (String.eqb_spec w v) as [->|Hw].
  - apply Hempty in Hqd. congruence.
  - apply Hc; [split; assumption|assumption|assumption].
Qed.

(** the three components [timers_ok] looks at, after a timer is set (and
    a stored one cleared) for [v] *)
Lemma timers_ok_set (v : string) C (s : @Background.State P) qd qd' old due
      queues' ticks' effects' :
  timers_ok (but v C) s ->
  Background.webhookQueues s !! v = Some qd ->
  old = Background.timer qd \/ old = None ->
  Background.timer qd' = Some (Background.next_timer s) ->
  (Background.queue qd' <> [] ->
   0 < Background.rateLimit qd' /\
   due = Background.lastSent qd' + Background.rateLimit qd' * 1000) ->
  queues' = <[v := qd']> (Background.webhookQueues s) ->
  timers_ok C
    (Background.mkState queues'
       (<[Background.next_timer s := (v, due)]>
          (match old with
           | Some id => delete id (Background.timers s)
           | None => Background.timers s
           end))
       (S (Background.next_timer s)) ticks' effects').
Proof.
  intros (Ha & Hb & Hc) Hqd Hold Htimer Hdue ->.
  assert (Hsub : forall id x,
            match old with
            | Some id0 => delete id0 (Background.timers s)
            | None => Background.timers s
            end !! id = Some x -> Background.timers s !! id = Some x).
  { intros id x. destruct old as [id0|]; [|auto].
    rewrite lookup_delete. case_decide; [discriminate|auto]. }
  split; [|split]; cbn.
  - intros id w d. rewrite lookup_insert. case_decide; [intros _; lia|].
    intros Hid. apply Hsub in Hid. apply Ha in Hid. lia.
  - intros w q id. rewrite lookup_insert. case_decide as Hw.
    + subst w. intros [= <-] Hid. rewrite Htimer in Hid. inversion Hid; subst id.
      split; [lia|]. intros w d. rewrite lookup_insert_eq. congruence.
    + intros Hq Hid. destruct (Hb w q id Hq Hid) as [Hlt Hown].
      split; [lia|]. intros w' d. rewrite lookup_insert_ne by lia.
      intros Hx. apply Hsub in Hx. eauto.
  - intros w q Hcov. rewrite lookup_insert. case_decide as Hw.
    + subst w. intros [= <-] Hne. destruct (Hdue Hne) as [Hpos ->].
      split; [assumption|]. exists (Background.next_timer s).
      apply lookup_insert_eq.
    + intros Hq Hne.
      destruct (Hc w q ltac:(split; [assumption|congruence]) Hq Hne)
        as [Hpos [id Hid]].
      split; [assumption|]. exists id.
      rewrite lookup_insert_ne by (apply Ha in Hid; lia).
      destruct old as [id0|]; [|assumption].
      rewrite lookup_delete_ne; [assumption|].
      intros ->. destruct Hold as [Hold|Hold]; [|discriminate].
      symmetry in Hold. destruct (Hb v qd id Hqd Hold) as [_ Hown].
      apply Hown in Hid. congruence.
Qed.

(** the same components after the queue data of [v] is replaced and no
    timer is touched *)
Lemma timers_ok_keep (v : string) C C' (s : @Background.State P) qd'
      queues' ticks' effects' :
  timers_ok (but v C) s ->
  (forall id, Background.timer qd' = Some id ->
     exists qd, Background.webhookQueues s !! v = Some qd /\
                Background.timer qd = Some id) ->
  (forall w, C' w -> w <> v -> C w) ->
  (C' v -> Background.queue qd' = []) ->
  queues' = <[v := qd']> (Background.webhookQueues s) ->
  timers_ok C'
    (Background.mkState queues' (Background.timers s)
                        (Background.next_timer s) ticks' effects').
Proof.
  intros (Ha & Hb & Hc) Htimer Hsub Hempty ->.
  split; [exact Ha|]. split; cbn.
  - intros w q id. rewrite lookup_insert. case_decide as Hw.
    + subst w. intros [= <-] Hid.
      destruct (Htimer id Hid) as (qd & Hqd & Hid'). eauto.
    + eauto.
  - intros w q Hcov. rewrite lookup_insert. case_decide as Hw.
    + subst w. intros [= <-] Hq. apply Hempty in Hcov. congruence.
    + intros Hq Hnonempty.
      apply Hc; [split; [apply Hsub|]; congruence|assumption|assumption].
Qed.

Lemma but_sub (v : string) (C : string -> Prop) :
  forall w, but v C w -> w <> v -> C w.
Proof. intros w [Hw _] _. exact Hw. Qed.

Lemma but_self (v : string) (C : string -> Prop) (Q : Prop) : but v C v -> Q.
Proof. intros [_ Hne]. congruence. Qed.

Lemma timers_ok_clear (w : string) C id due (s : @Background.State P) :
  timers_ok C s ->
  Background.timers s !! id = Some (w, due) ->
  timers_ok (but w C) (Background.clearTimeout id s).
Proof.
  intros (Ha & Hb & Hc) Hid. split; [|split]; cbn.
  - intros id' v d. rewrite lookup_delete. case_decide; [discriminate|eauto].
  - intros v qd id' Hqd Hstored. destruct (Hb v qd id' Hqd Hstored) as [Hlt Hown].
    split; [assumption|]. intros x d. rewrite lookup_delete.
    case_decide; [discriminate|eauto].
  - intros v qd [Hcov Hne] Hqd Hq.
    destruct (Hc v qd Hcov Hqd Hq) as [Hpos [id' Hid']].
    split; [assumption|]. exists id'.
    rewrite lookup_delete_ne; [assumption|]. intros ->. congruence.
Qed.

(** [processQueue] for [v] restores [timers_ok] for [v] and keeps it for
    the other endpoints. *)
Lemma processQueue_rec_timers (v : string) C :
  forall fuel (s : @Background.State P),
    timers_ok (but v C) s ->
    (Background.queue_length v s <= fuel)%nat ->
    timers_ok C (Background.processQueue_rec clock fuel v s).
Proof.
  induction fuel as [|fuel IH]; intros s Hok Hfuel;
    unfold Background.queue_length in Hfuel;
    cbn [Background.processQueue_rec].
  all: destruct (Background.webhookQueues s !! v) as [qd|] eqn:Hqd;
    [|apply (timers_ok_weaken v); [assumption|intros qd; congruence]].
  all: destruct (Background.queue qd) as [|item rest] eqn:Hq;
    [apply (timers_ok_weaken v); [assumption|intros qd0; congruence]|].
  - cbn in Hfuel. lia.
  - cbn.
    destruct (0 <? Background.rateLimit qd) eqn:Hpos; cbn [andb].
    + destruct (clock (Background.ticks s) - Background.lastSent qd
                <? Background.rateLimit qd * 1000) eqn:Hwait.
      * (* wait *)
        apply Z.ltb_lt in Hpos.
        destruct (Background.timer qd) as [old|] eqn:Hold; cbn.
        -- eapply (timers_ok_set v C s qd _ (Some old));
             [exact Hok|exact Hqd|auto| | |reflexivity];
             [reflexivity|cbn; intros _; split; [assumption|lia]].
        -- eapply (timers_ok_set v C s qd _ None);
             [exact Hok|exact Hqd|auto| | |reflexivity];
             [reflexivity|cbn; intros _; split; [assumption|lia]].
      * (* send, then a timer when more is queued *)
        apply Z.ltb_lt in Hpos.
        destruct rest as [|item' rest']; cbn.
        -- eapply (timers_ok_keep v C C s);
             [exact Hok| | | |reflexivity];
             [cbn; intros id Hid; eauto|auto|reflexivity].
        -- unfold Background.set_queueData. cbn. rewrite insert_insert_eq.
           eapply (timers_ok_set v C s qd _ None);
             [exact Hok|exact Hqd|auto| | |reflexivity];
             [reflexivity|cbn; intros _; split; [assumption|reflexivity]].
    + (* no rate limit: send, and go on with the rest *)
      destruct rest as [|item' rest']; cbn.
      * eapply (timers_ok_keep v C C s);
          [exact Hok| | | |reflexivity];
          [cbn; intros id Hid; eauto|auto|reflexivity].
      * apply IH.
        -- eapply (timers_ok_keep v C (but v C) s);
             [exact Hok| | | |reflexivity];
             [cbn; intros id Hid; eauto|apply but_sub|apply but_self].
        -- unfold Background.queue_length. cbn. rewrite lookup_insert_eq.
           cbn in *. lia.
Qed.

Lemma timers_ok_ext C (s s' : @Background.State P) :
  Background.webhookQueues s' = Background.webhookQueues s ->
  Background.timers s' = Background.timers s ->
  Background.next_timer s' = Background.next_timer s ->
  timers_ok C s -> timers_ok C s'.
Proof. unfold timers_ok. intros -> -> ->. auto. Qed.

(** [timers_ok] when [addToQueue] has appended its entry and is about to
    call [processQueue] *)
Lemma timers_ok_appended C (v : string) (p : P) n r (s : @Background.State P) :
  timers_ok C s ->
  exists s1,
    Background.addToQueue clock v p n r s = Background.processQueue clock v s1 /\
    timers_ok (but v C) s1 /\
    Background.timers s1 = Background.timers s.
Proof.
  intros Hok.
  destruct (addToQueue_shape clock v p n r s)
    as (s1 & Heq & Hq1 & Ht1 & Hn1 & _).
  exists s1. split; [exact Heq|]. split; [|exact Ht1].
  eapply timers_ok_ext with
    (s := Background.mkState (Background.webhookQueues s1)
            (Background.timers s) (Background.next_timer s)
            (Background.ticks s1) (Background.effects s1));
    [reflexivity|exact Ht1|exact Hn1|].
  eapply (timers_ok_keep v C (but v C) s);
    [| |apply but_sub|apply but_self|exact Hq1].
  - eapply timers_ok_sub; [|exact Hok]. intros w [Hw _]. exact Hw.
  - cbn. intros id Hid.
    destruct (Background.webhookQueues s !! v) as [qd|]; [eauto|discriminate].
Qed.

(** A reading of the storage keeps [timers_ok] when it leaves the rate
    limit of the covered endpoints that have payloads queued as it is. *)
Lemma timers_ok_initializeQueues C webhooks (s : @Background.State P) :
  (forall v qd r,
     C v ->
     Background.webhookQueues s !! v = Some qd ->
     Background.queue qd <> [] ->
     Background.configured v webhooks = Some r ->
     r = Background.rateLimit qd) ->
  timers_ok C s ->
  timers_ok C (Background.initializeQueues webhooks s).
Proof.
  intros Hrates (Ha & Hb & Hc).
  assert (Hframe : Background.timers (Background.initializeQueues webhooks s)
                   = Background.timers s /\
                   Background.next_timer (Background.initializeQueues webhooks s)
                   = Background.next_timer s).
  { destruct (initializeQueues_spec webhooks s "") as (_ & Ht & _ & _ & Hn).
    auto. }
  destruct Hframe as [Ht Hn].
  assert (Hentry : forall v qd',
            Background.webhookQueues (Background.initializeQueues webhooks s)
            !! v = Some qd' ->
            (Background.timer qd' <> None \/ Background.queue qd' <> []) ->
            exists qd,
              Background.webhookQueues s !! v = Some qd /\
              Background.queue qd' = Background.queue qd /\
              Background.lastSent qd' = Background.lastSent qd /\
              Background.timer qd' = Background.timer qd /\
              (Background.rateLimit qd' = Background.rateLimit qd \/
               Background.configured v webhooks
               = Some (Background.rateLimit qd'))).
  { intros v qd' Hqd' Hsome.
    destruct (initializeQueues_spec webhooks s v) as (Hq & _).
    cbn zeta in Hq. rewrite Hq in Hqd'.
    destruct (Background.configured v webhooks) as [r|].
    - destruct (Background.webhookQueues s !! v) as [qd|].
      + inversion Hqd'; subst qd'. exists qd. cbn. auto 10.
      + inversion Hqd'; subst qd'. cbn in Hsome.
        destruct Hsome; congruence.
    - exists qd'. auto 10. }
  split; [|split].
  - rewrite Ht, Hn. exact Ha.
  - intros v qd' id Hqd' Hid. rewrite Ht, Hn.
    destruct (Hentry v qd' Hqd' ltac:(left; congruence))
      as (qd & Hqd & _ & _ & Htimer & _).
    apply (Hb v qd id Hqd). congruence.
  - intros v qd' Hcov Hqd' Hne. rewrite Ht.
    destruct (Hentry v qd' Hqd' ltac:(right; exact Hne))
      as (qd & Hqd & Hqueue & Hlast & _ & Hrate).
    assert (Hsame : Background.rateLimit qd' = Background.rateLimit qd).
    { destruct Hrate as [Hrate|Hrate]; [exact Hrate|].
      apply (Hrates v qd _ Hcov Hqd); [congruence|exact Hrate]. }
    rewrite Hsame, Hlast. apply (Hc v qd Hcov Hqd). congruence.
Qed.

(** One event keeps [timers_ok]. *)
Lemma timers_ok_step C (s : @Background.State P) ev :
  match ev with
  | Background.StorageRead webhooks =>
      forall v qd r,
        C v ->
        Background.webhookQueues s !! v = Some qd ->
        Background.queue qd <> [] ->
        Background.configured v webhooks = Some r ->
        r = Background.rateLimit qd
  | _ => True
  end ->
  timers_ok C s -> timers_ok C (Background.step clock s ev).
Proof.
  intros Hev Hok. destruct ev as [v p n r|id|ws]; cbn [Background.step].
  - destruct (timers_ok_appended C v p n r s Hok) as (s1 & -> & Hok1 & _).
    apply processQueue_rec_timers; [exact Hok1|reflexivity].
  - unfold Background.timer_fires.
    destruct (Background.timers s !! id) as [[v due]|] eqn:Hid; [|assumption].
    apply processQueue_rec_timers; [|reflexivity].
    eapply timers_ok_clear; eauto.
  - apply timers_ok_initializeQueues; assumption.
Qed.

(** Whatever the events, the bookkeeping of the timer ids holds. *)
Lemma timers_ok_always (evs : list (@Background.Event P)) :
  forall s, timers_ok nowhere s -> timers_ok nowhere (Background.run clock evs s).
Proof.
  induction evs as [|ev evs IH]; intros s Hok; [exact Hok|].
  cbn [Background.run fold_left]. apply IH. apply timers_ok_step; [|exact Hok].
  destruct ev; try exact I. intros v qd r [].
Qed.

(** With readings of the storage that keep the rate limits, every
    endpoint keeps its wake-up. *)
Lemma timers_ok_run (evs : list (@Background.Event P)) :
  forall s,
    rates_kept clock evs s ->
    timers_ok every s -> timers_ok every (Background.run clock evs s).
Proof.
  induction evs as [|ev evs IH]; intros s Hkept Hok; [exact Hok|].
  destruct Hkept as [Hev Hkept].
  cbn [Background.run fold_left]. apply IH; [exact Hkept|].
  apply timers_ok_step; [|exact Hok].
  destruct ev; try exact I. intros v qd r _. apply Hev.
Qed.

Lemma timers_ok_initial C : timers_ok C (@Background.initial P).
Proof.
  split; [|split].
  - intros id v due Hid.
    cbv [Background.initial Background.timers] in Hid.
    rewrite lookup_empty in Hid. discriminate.
  - intros v qd id Hqd.
    cbv [Background.initial Background.webhookQueues] in Hqd.
    rewrite lookup_empty in Hqd. discriminate.
  - intros v qd _ Hqd.
    cbv [Background.initial Background.webhookQueues] in Hqd.
    rewrite lookup_empty in Hqd. discriminate.
Qed.

(** The callback of a timer of an endpoint with a positive rate limit, at
    or after [lastSent + rateLimit * 1000], dispatches the head of the
    queue. *)
Lemma due_timer_dispatches (s : @Background.State P) (v : string) qd item rest
      id due :
  Background.webhookQueues s !! v = Some qd ->
  Background.queue qd = item :: rest ->
  0 < Background.rateLimit qd ->
  Background.timers s !! id = Some (v, due) ->
  Background.lastSent qd + Background.rateLimit qd * 1000
  <= clock (Background.ticks s) ->
  Background.posted v (Background.timer_fires clock id s)
  = (Background.payload item, clock (Background.ticks s))
      :: Background.posted v s /\
  Background.pending v (Background.timer_fires clock id s)
  = List.map Background.payload rest.
Proof.
  intros Hqd Hq Hpos Hid Hdue.
  unfold Background.timer_fires. rewrite Hid.
  unfold Background.processQueue.
  set (s1 := Background.clearTimeout id s).
  assert (Hqd1 : Background.webhookQueues s1 !! v = Some qd) by exact Hqd.
  destruct (Background.queue_length v s1) as [|fuel];
    cbn [Background.processQueue_rec]; rewrite Hqd1, Hq; cbn.
  all: replace (0 <? Background.rateLimit qd) with true
    by (symmetry; apply Z.ltb_lt; lia).
  all: replace (clock (Background.ticks s) - Background.lastSent qd
                <? Background.rateLimit qd * 1000) with false
    by (symmetry; apply Z.ltb_ge; lia).
  all: cbn; destruct rest; unfold Background.posted, Background.pending; cbn;
    rewrite String.eqb_refl, ?insert_insert_eq, lookup_insert_eq; split;
      reflexivity.
Qed.

(** X6.  Progress.  In every state the queue reaches through enqueues, timer
    callbacks and readings of the storage that leave the rate limit of an
    endpoint with queued payloads as it is, an endpoint whose queue is not
    empty has a pending timer due at [lastSent + rateLimit * 1000]; and
    when that timer fires on or after its due time, the head of the queue
    is dispatched. *)
Lemma queued_entry_has_its_timer (evs : list (@Background.Event P))
      (v : string) qd item rest :
  let s := Background.run clock evs Background.initial in
  rates_kept clock evs Background.initial ->
  Background.webhookQueues s !! v = Some qd ->
  Background.queue qd = item :: rest ->
  exists id,
    Background.timers s !! id
    = Some (v, Background.lastSent qd + Background.rateLimit qd * 1000) /\
    (Background.lastSent qd + Background.rateLimit qd * 1000
     <= clock (Background.ticks s) ->
     Background.posted v (Background.timer_fires clock id s)
     = (Background.payload item, clock (Background.ticks s))
         :: Background.posted v s).
Proof.
  intros s Hkept Hqd Hq.
  destruct (timers_ok_run evs Background.initial Hkept (timers_ok_initial every))
    as (_ & _ & Hc).
  fold s in Hc.
  destruct (Hc v qd I Hqd ltac:(congruence)) as [Hpos [id Hid]].
  exists id. split; [exact Hid|]. intros Hdue.
  apply (due_timer_dispatches s v qd item rest id _ Hqd Hq Hpos Hid Hdue).
Qed.

End TimerProofs.


(* ================================================================== *)
(** * Order, spacing and dispatch *)
(* ================================================================== *)

Section FifoProofs.

Context {P : Type} (clock : nat -> Z).

(** A run keeps the invariant of the endpoint together with its
    wake-up. *)
Lemma queue_and_timer_run (u : string) I (evs : list (@Background.Event P)) :
  0 < I ->
  forall done s,
    Background.interval_is u I evs ->
    queue_inv u I done s ->
    timers_ok (eq u) s ->
    queue_inv u I (done ++ evs) (Background.run clock evs s) /\
    timers_ok (eq u) (Background.run clock evs s).
Proof.
  intros HI. induction evs as [|ev evs IH]; intros done s Hint Hinv Hok.
  - rewrite app_nil_r. auto.
  - apply Forall_cons in Hint as [Hev Hrest].
    cbn [Background.run fold_left].
    replace (done ++ ev :: evs)%list with ((done ++ [ev]) ++ evs)%list
      by (rewrite <- app_assoc; reflexivity).
    apply IH; [exact Hrest|apply queue_inv_step; assumption|].
    apply timers_ok_step; [|exact Hok].
    destruct ev as [v p n r|id|ws]; [trivial..|].
    intros v qd r <- Hqd _ Hr.
    destruct Hinv as (_ & _ & Hdata). rewrite Hqd in Hdata.
    destruct Hdata as [Hrate _]. rewrite Hrate. apply Hev. exact Hr.
Qed.

(** the head of the pending payloads is the payload of the head of the
    queue *)
Lemma pending_head (u : string) (s : @Background.State P) p rest :
  Background.pending u s = p :: rest ->
  exists qd item items,
    Background.webhookQueues s !! u = Some qd /\
    Background.queue qd = item :: items /\
    Background.payload item = p /\
    List.map Background.payload items = rest.
Proof.
  unfold Background.pending.
  destruct (Background.webhookQueues s !! u) as [qd|]; [|discriminate].
  destruct (Background.queue qd) as [|item items] eqn:Hq; [discriminate|].
  cbn. intros [= <- <-]. eauto 10.
Qed.

End FifoProofs.

(** C2.  For an endpoint whose interval is [I] seconds throughout, [I]
    positive (every enqueue for it carries [I], and so does every reading
    of the storage with an entry for it), after any sequence of enqueues
    (for this and other endpoints), timer callbacks and readings of the
    storage:
    - the payloads dispatched so far, in the order of dispatch, followed by
      the payloads still queued, are the payloads enqueued, in the order of
      enqueueing;
    - any two consecutive recorded send timestamps are at least [I * 1000]
      ms apart;
    - while a payload is queued, the event loop holds a timer of the
      endpoint, due [I * 1000] ms after the latest send, and the callback
      of that timer, on or after the due time, dispatches the payload at
      the head of the queue, and that one only. *)
Theorem queue_is_fifo_and_spaced {P : Type} (clock : nat -> Z)
        (webhookUrl : string) (I : Z) (evs : list (@Background.Event P)) :
  0 < I ->
  Background.interval_is webhookUrl I evs ->
  let s := Background.run clock evs Background.initial in
  (List.map fst (Background.sends webhookUrl s)
   ++ Background.pending webhookUrl s)%list
  = Background.enqueued webhookUrl evs /\
  (forall i a b,
     List.map snd (Background.sends webhookUrl s) !! i = Some a ->
     List.map snd (Background.sends webhookUrl s) !! S i = Some b ->
     a + I * 1000 <= b) /\
  (forall p rest,
     Background.pending webhookUrl s = p :: rest ->
     exists id due,
       Background.timers s !! id = Some (webhookUrl, due) /\
       (forall t, last (List.map snd (Background.sends webhookUrl s)) = Some t ->
                  due = t + I * 1000) /\
       (due <= clock (Background.ticks s) ->
        Background.sends webhookUrl (Background.timer_fires clock id s)
        = (Background.sends webhookUrl s
           ++ [(p, clock (Background.ticks s))])%list /\
        Background.pending webhookUrl (Background.timer_fires clock id s)
        = rest)).
Proof.
  intros HI Hint s.
  destruct (queue_and_timer_run clock webhookUrl I evs HI [] Background.initial
              Hint (queue_inv_initial webhookUrl I)
              (timers_ok_initial (eq webhookUrl)))
    as ((Hfifo & Hspaced & Hdata) & (_ & _ & Htimer)).
  fold s in Hfifo, Hspaced, Hdata, Htimer.
  split; [exact Hfifo|]. split.
  - intros i a b Ha Hb. unfold Background.sends in Ha, Hb.
    rewrite map_rev in Ha, Hb.
    eapply spaced_rev_lookup; eauto.
  - intros p rest Hpending.
    apply pending_head in Hpending
      as (qd & item & items & Hqd & Hq & <- & <-).
    rewrite Hqd in Hdata. destruct Hdata as [Hrate Hlast].
    destruct (Htimer webhookUrl qd eq_refl Hqd ltac:(congruence))
      as [Hpos [id Hid]].
    rewrite Hrate in Hid.
    exists id, (Background.lastSent qd + I * 1000).
    split; [exact Hid|]. split.
    + intros t Ht. rewrite (Hlast t); [reflexivity|].
      unfold Background.sends in Ht. rewrite map_rev in Ht.
      destruct (List.map snd (Background.posted webhookUrl s)) as [|t0 l];
        [discriminate|].
      cbn [rev] in Ht. rewrite last_snoc in Ht. exact Ht.
    + intros Hdue.
      destruct (due_timer_dispatches clock s webhookUrl qd item items id _
                  Hqd Hq Hpos Hid ltac:(rewrite Hrate; exact Hdue))
        as [Hposted Hrest].
      unfold Background.sends. rewrite Hposted. cbn [rev]. auto.
Qed.

(** The example of three payloads at a 30 s interval: one is sent at once,
    two are announced as queued, and each of the two timers, fired when it
    is due, sends the next payload; the other endpoint's payload is sent
    without waiting. *)
Example three_payloads_thirty_seconds :
  let s4 := Background.run Fixtures.thirty_second_clock
              (take 4 Fixtures.three_payloads) Background.initial in
  let s := Background.run Fixtures.thirty_second_clock
             Fixtures.three_payloads Background.initial in
  Background.sends Fixtures.hook_a s4 = [(1%nat, 1700000000002)] /\
  Background.pending Fixtures.hook_a s4 = [2%nat; 3%nat] /\
  map_to_list (Background.timers s4)
  = [(2%nat, (Fixtures.hook_a, 1700000030002))] /\
  Background.sends Fixtures.hook_a s
  = [(1%nat, 1700000000002); (2%nat, 1700000030005); (3%nat, 1700000060007)] /\
  Background.pending Fixtures.hook_a s = [] /\
  Background.sends Fixtures.hook_b s = [(9%nat, 1700000000005)].
Proof. vm_compute. repeat split; reflexivity. Qed.

(** The same example after the storage has been read: when the three
    payloads are enqueued, the first is dispatched and the endpoint has
    its timer, due 30 s after that; the callback of the timer dispatches
    the second payload and leaves the third queued; and at the end of the
    events the three payloads have been dispatched in the order of the
    enqueues, 30 s apart or more. *)
Lemma queue_is_fifo_and_spaced_witness :
  let clock := Fixtures.thirty_second_clock in
  let queued := Background.run clock (take 5 Fixtures.started_payloads)
                  Background.initial in
  let s := Background.run clock Fixtures.started_payloads Background.initial in
  (exists id,
     Background.timers queued !! id = Some (Fixtures.hook_a, 1700000030002) /\
     Background.sends Fixtures.hook_a (Background.timer_fires clock id queued)
     = [(1%nat, 1700000000002); (2%nat, 1700000030005)] /\
     Background.pending Fixtures.hook_a (Background.timer_fires clock id queued)
     = [3%nat]) /\
  Background.sends Fixtures.hook_a s
  = [(1%nat, 1700000000002); (2%nat, 1700000030005); (3%nat, 1700000060007)] /\
  (List.map fst (Background.sends Fixtures.hook_a s)
   ++ Background.pending Fixtures.hook_a s)%list
  = Background.enqueued Fixtures.hook_a Fixtures.started_payloads /\
  forall i a b,
    List.map snd (Background.sends Fixtures.hook_a s) !! i = Some a ->
    List.map snd (Background.sends Fixtures.hook_a s) !! S i = Some b ->
    a + 30 * 1000 <= b.
Proof.
  intros clock queued s.
  assert (Hint : forall n,
             Background.interval_is Fixtures.hook_a 30
               (take n Fixtures.started_payloads)).
  { intros n. apply Forall_take.
    unfold Fixtures.started_payloads, Fixtures.three_payloads.
    constructor; [intros r Hr; vm_compute in Hr; congruence|].
    repeat (constructor; [cbn; auto; intros Hb; discriminate Hb|]).
    constructor. }
  split.
  - destruct (queue_is_fifo_and_spaced clock Fixtures.hook_a 30
                (take 5 Fixtures.started_payloads) ltac:(lia) (Hint 5%nat))
      as (_ & _ & Hdispatch).
    destruct (Hdispatch 2%nat [3%nat] ltac:(vm_compute; reflexivity))
      as (id & due & Hid & Hdue & Hfire).
    assert (Hwhen : due = 1700000000002 + 30 * 1000)
      by (apply Hdue; vm_compute; reflexivity).
    subst due. exists id. split; [exact Hid|].
    apply Hfire. vm_compute. discriminate.
  - destruct (queue_is_fifo_and_spaced clock Fixtures.hook_a 30
                Fixtures.started_payloads ltac:(lia) (Hint 7%nat))
      as (Hfifo & Hspaced & _).
    split; [vm_compute; reflexivity|]. split; [exact Hfifo|exact Hspaced].
Defined.

(* ================================================================== *)
(** * More on the delivery *)
(* ================================================================== *)

(** X1.  A delivery fetches once, and once more after each failed fetch, up to
    [retryCount] more times: the number of fetches is one more than the
    number of leading failures counted up to [retryCount]. *)
Theorem delivery_attempts network attempt url retryCount name :
  Background.attempts
    (Background.postToWebhookDirect network attempt url retryCount name)
  = S (leading_failures network attempt retryCount) /\
  (Background.attempts
     (Background.postToWebhookDirect network attempt url retryCount name)
   <= S retryCount)%nat.
Proof.
  revert attempt. induction retryCount as [|r IH]; intros attempt;
    cbn [Background.postToWebhookDirect leading_failures].
  - destruct (network attempt) as [status|msg]; cbn.
    + rewrite andb_false_r. destruct (Background.ok status); cbn; lia.
    + lia.
  - destruct (IH (S attempt)) as [IH1 IH2]. unfold Background.attempts in *.
    destruct (network attempt) as [status|msg]; cbn [failed].
    + destruct (Background.ok status); cbn; [lia|]. rewrite IH1. lia.
    + cbn. rewrite IH1. lia.
Qed.

(** X2.  A delivery shows exactly one notification, as its last step, and it is
    the one that answers the last fetch: success for an ok response, the
    "after 3 attempts" failure for a response that is not ok, the network
    error for a rejection. *)
Theorem delivery_notification network attempt url retryCount name :
  let d := Background.postToWebhookDirect network attempt url retryCount name in
  let last_fetch :=
    network (attempt + leading_failures network attempt retryCount)%nat in
  exists steps,
    d = (steps ++ [notification_after last_fetch name])%list /\
    Forall (fun e => match e with
                     | Background.ShowNotification _ _ _ => False
                     | _ => True
                     end) steps.
Proof.
  revert attempt. induction retryCount as [|r IH]; intros attempt;
    cbn [Background.postToWebhookDirect leading_failures].
  - rewrite Nat.add_0_r. unfold notification_after.
    destruct (network attempt) as [status|msg]; cbn.
    + rewrite andb_false_r.
      destruct (Background.ok status); cbn;
        exists [Background.Fetch url]; split; auto.
    + exists [Background.Fetch url]. split; auto.
  - destruct (IH (S attempt)) as (steps & Heq & Hsteps).
    cbn zeta in Heq. rewrite Nat.add_succ_l, <- Nat.add_succ_r in Heq.
    destruct (network attempt) as [status|msg] eqn:Hnet; cbn [failed].
    + destruct (Background.ok status) eqn:Hok; cbn.
      * rewrite Nat.add_0_r, Hnet. cbn. rewrite Hok.
        exists [Background.Fetch url]. split; auto.
      * rewrite Heq.
        exists (Background.Fetch url :: Background.SetTimeout 1000 :: steps).
        split; [reflexivity|]. repeat constructor. exact Hsteps.
    + cbn. rewrite Heq.
      exists (Background.Fetch url :: Background.SetTimeout 2000 :: steps).
      split; [reflexivity|]. repeat constructor. exact Hsteps.
Qed.

(** X3.  The waits of a delivery: one after each failed fetch that is retried,
    1000 ms after a response that is not ok and 2000 ms after a rejection. *)
Theorem delivery_waits network attempt url retryCount name :
  Background.delays
    (Background.postToWebhookDirect network attempt url retryCount name)
  = List.map (fun i => wait_after (network (attempt + i)%nat))
             (seq 0 (leading_failures network attempt retryCount)).
Proof.
  revert attempt. induction retryCount as [|r IH]; intros attempt;
    cbn [Background.postToWebhookDirect leading_failures].
  - destruct (network attempt) as [status|msg]; cbn.
    + rewrite andb_false_r. destruct (Background.ok status); reflexivity.
    + reflexivity.
  - specialize (IH (S attempt)). unfold Background.delays in *.
    destruct (network attempt) as [status|msg] eqn:Hnet; cbn [failed].
    + destruct (Background.ok status); cbn; [reflexivity|].
      rewrite IH, Nat.add_0_r, Hnet. cbn. f_equal.
      rewrite <- seq_shift, map_map. apply map_ext. intros i.
      rewrite Nat.add_succ_r. reflexivity.
    + cbn. rewrite IH, Nat.add_0_r, Hnet. cbn. f_equal.
      rewrite <- seq_shift, map_map. apply map_ext. intros i.
      rewrite Nat.add_succ_r. reflexivity.
Qed.

(* ================================================================== *)
(** * More on the queue *)
(* ================================================================== *)

(** X4.  Independence of endpoints.  An enqueue for another endpoint, the
    callback of another endpoint's timer, or a reading of the storage that
    has no entry for the endpoint, leaves an endpoint's queue data (queue,
    last send time, stored timer, rate limit), its dispatches and its
    pending entries as they are. *)
Theorem other_endpoints_untouched {P : Type} (clock : nat -> Z)
        (webhookUrl : string) (s : @Background.State P) ev :
  match ev with
  | Background.Enqueue v _ _ _ => v <> webhookUrl
  | Background.TimerFires id =>
      forall due, Background.timers s !! id <> Some (webhookUrl, due)
  | Background.StorageRead webhooks =>
      Background.configured webhookUrl webhooks = None
  end ->
  Background.webhookQueues (Background.step clock s ev) !! webhookUrl
  = Background.webhookQueues s !! webhookUrl /\
  Background.sends webhookUrl (Background.step clock s ev)
  = Background.sends webhookUrl s /\
  Background.pending webhookUrl (Background.step clock s ev)
  = Background.pending webhookUrl s.
Proof.
  intros Hother.
  assert (Hviews :
            Background.webhookQueues (Background.step clock s ev) !! webhookUrl
            = Background.webhookQueues s !! webhookUrl /\
            Background.posted webhookUrl (Background.step clock s ev)
            = Background.posted webhookUrl s).
  { destruct ev as [v p n r|id|ws]; cbn [Background.step].
    3:{ destruct (initializeQueues_spec ws s webhookUrl) as (Hq & _).
        destruct (initializeQueues_views ws s webhookUrl) as (Hp & _).
        cbn zeta in Hq, Hp. rewrite Hother in Hq. auto. }
    - destruct (addToQueue_shape clock v p n r s)
        as (s1 & -> & Hq1 & _ & _ & Hp1).
      destruct (processQueue_rec_other clock webhookUrl v
                  ltac:(congruence) (Background.queue_length v s1) s1)
        as [Hq2 Hp2].
      unfold Background.processQueue. rewrite Hq2, Hp2, Hq1, Hp1.
      split; [apply lookup_insert_ne; assumption|reflexivity].
    - unfold Background.timer_fires.
      destruct (Background.timers s !! id) as [[v due]|] eqn:Hid; [|auto].
      assert (Hne : webhookUrl <> v) by (intros ->; eapply Hother; eauto).
      unfold Background.processQueue.
      destruct (processQueue_rec_other clock webhookUrl v Hne
                  (Background.queue_length v (Background.clearTimeout id s))
                  (Background.clearTimeout id s)) as [Hq2 Hp2].
      rewrite Hq2, Hp2. auto. }
  destruct Hviews as [Hq Hp].
  unfold Background.sends, Background.pending. rewrite Hq, Hp. auto.
Qed.

Lemma other_endpoints_untouched_witness :
  let s := Background.run Fixtures.thirty_second_clock
             (take 1 Fixtures.three_payloads) Background.initial in
  let s' := Background.step Fixtures.thirty_second_clock s
              (Background.Enqueue Fixtures.hook_b 9%nat "Hook B" 0) in
  Background.webhookQueues s' !! Fixtures.hook_a
  = Background.webhookQueues s !! Fixtures.hook_a /\
  Background.sends Fixtures.hook_a s' = Background.sends Fixtures.hook_a s /\
  Background.pending Fixtures.hook_a s' = Background.pending Fixtures.hook_a s.
Proof.
  apply (other_endpoints_untouched Fixtures.thirty_second_clock
           Fixtures.hook_a
           (Background.run Fixtures.thirty_second_clock
              (take 1 Fixtures.three_payloads) Background.initial)
           (Background.Enqueue Fixtures.hook_b 9%nat "Hook B" 0)).
  discriminate.
Defined.

Section MoreQueueProofs.

Context {P : Type} (clock : nat -> Z).

(** [processQueue] for one endpoint cancels no pending timer of another. *)
Lemma processQueue_rec_keeps_timers (u v : string) C id due :
  u <> v ->
  forall fuel (s : @Background.State P),
    timers_ok (but v C) s ->
    Background.timers s !! id = Some (u, due) ->
    Background.timers (Background.processQueue_rec clock fuel v s) !! id
    = Some (u, due).
Proof.
  intros Hne. induction fuel as [|fuel IH]; intros s Hok Hid;
    cbn [Background.processQueue_rec].
  all: destruct (Background.webhookQueues s !! v) as [qd|] eqn:Hqd;
    [|assumption].
  all: destruct (Background.queue qd) as [|item rest] eqn:Hq; [assumption|].
  all: pose proof Hok as (Ha & Hb & _).
  all: pose proof (Ha _ _ _ Hid) as Hlt.
  all: cbn.
  all: destruct ((0 <? Background.rateLimit qd) && _) eqn:Hwait.
  all: try (destruct (Background.timer qd) as [old|] eqn:Hold; cbn;
            rewrite lookup_insert_ne by lia; [|assumption];
            rewrite lookup_delete_ne; [assumption|];
            intros ->; destruct (Hb v qd id Hqd Hold) as [_ Hown];
            apply Hown in Hid; congruence).
  all: destruct rest as [|item' rest']; cbn; try assumption.
  all: destruct (0 <? Background.rateLimit qd) eqn:Hrl; cbn.
  all: try (rewrite lookup_insert_ne by lia; assumption).
  - assumption.
  - apply IH; [|assumption].
    eapply (timers_ok_keep v C (but v C) s); [exact Hok| | | |reflexivity];
      [cbn; intros id0 Hid0; eauto|apply but_sub|apply but_self].
Qed.

End MoreQueueProofs.

(** X5.  Wake-ups are independent too.  In a state the queue has reached, a
    pending timer of one endpoint stays pending through an enqueue for
    another endpoint, through the callback of another endpoint's timer and
    through a reading of the storage: [clearTimeout] in [processQueue]
    only ever cancels a timer of the endpoint being processed. *)
Theorem other_endpoints_keep_their_timers {P : Type} (clock : nat -> Z)
        (evs : list (@Background.Event P)) (webhookUrl : string) id due ev :
  let s := Background.run clock evs Background.initial in
  Background.timers s !! id = Some (webhookUrl, due) ->
  match ev with
  | Background.Enqueue v _ _ _ => v <> webhookUrl
  | Background.TimerFires id' =>
      forall due', Background.timers s !! id' <> Some (webhookUrl, due')
  | Background.StorageRead _ => True
  end ->
  Background.timers (Background.step clock s ev) !! id
  = Some (webhookUrl, due).
Proof.
  intros s Hid Hother.
  pose proof (timers_ok_always clock evs Background.initial
                (timers_ok_initial nowhere)) as Hok.
  fold s in Hok.
  destruct ev as [v p n r|id'|ws]; cbn [Background.step].
  - destruct (timers_ok_appended clock nowhere v p n r s Hok)
      as (s1 & -> & Hok1 & Ht1).
    unfold Background.processQueue.
    eapply processQueue_rec_keeps_timers; [congruence|exact Hok1|congruence].
  - unfold Background.timer_fires.
    destruct (Background.timers s !! id') as [[v due']|] eqn:Hid'; [|assumption].
    assert (Hne : webhookUrl <> v) by (intros ->; eapply Hother; eauto).
    unfold Background.processQueue.
    eapply processQueue_rec_keeps_timers; [assumption| |].
    + eapply timers_ok_clear; eauto.
    + cbn. rewrite lookup_delete_ne; [assumption|]. intros ->. congruence.
  - destruct (initializeQueues_spec ws s webhookUrl) as (_ & Ht & _).
    cbn zeta in Ht. rewrite Ht. exact Hid.
Qed.

Lemma other_endpoints_keep_their_timers_witness :
  let s := Background.run Fixtures.thirty_second_clock
             (take 4 Fixtures.three_payloads) Background.initial in
  Background.timers
    (Background.step Fixtures.thirty_second_clock s
       (Background.Enqueue Fixtures.hook_b 8%nat "Hook B" 0)) !! 2%nat
  = Some (Fixtures.hook_a, 1700000030002).
Proof.
  apply (other_endpoints_keep_their_timers Fixtures.thirty_second_clock
           (take 4 Fixtures.three_payloads) Fixtures.hook_a 2%nat
           1700000030002
           (Background.Enqueue Fixtures.hook_b 8%nat "Hook B" 0)).
  - vm_compute. reflexivity.
  - discriminate.
Defined.

(** Progress, on the example: after the three payloads are enqueued, the
    timer the queue holds for the endpoint is due 30 s after the first
    send, and its callback at that time dispatches the second payload. *)
Lemma queued_entry_has_its_timer_witness :
  let s := Background.run Fixtures.thirty_second_clock
             (take 5 Fixtures.started_payloads) Background.initial in
  exists id,
    Background.timers s !! id = Some (Fixtures.hook_a, 1700000030002) /\
    Background.posted Fixtures.hook_a
      (Background.timer_fires Fixtures.thirty_second_clock id s)
    = (2%nat, 1700000030005) :: Background.posted Fixtures.hook_a s.
Proof.
  intros s.
  destruct (queued_entry_has_its_timer Fixtures.thirty_second_clock
              (take 5 Fixtures.started_payloads) Fixtures.hook_a
              (Background.mkQueueData
                 [Background.mkItem 2%nat "Hook A" 1700000000006;
                  Background.mkItem 3%nat "Hook A" 1700000000009]
                 1700000000002 (Some 2%nat) 30)
              (Background.mkItem 2%nat "Hook A" 1700000000006)
              [Background.mkItem 3%nat "Hook A" 1700000000009])
    as (id & Hid & Hfire).
  - cbn. split; [|tauto]. intros v qd r Hqd.
    rewrite lookup_empty in Hqd. discriminate.
  - vm_compute. reflexivity.
  - reflexivity.
  - exists id. split; [exact Hid|]. apply Hfire. vm_compute. discriminate.
Defined.

Section DrainProofs.

Context {P : Type} (clock : nat -> Z).

(** Without a rate limit, [processQueue] dispatches the whole queue in
    order, in the same turn, and sets no timer. *)
Lemma processQueue_rec_drains (v : string) :
  forall n fuel (s : @Background.State P) qd,
    Background.webhookQueues s !! v = Some qd ->
    Background.rateLimit qd <= 0 ->
    length (Background.queue qd) = n ->
    (n <= fuel)%nat ->
    let s' := Background.processQueue_rec clock fuel v s in
    Background.pending v s' = [] /\
    List.map fst (Background.sends v s')
    = (List.map fst (Background.sends v s)
       ++ List.map Background.payload (Background.queue qd))%list /\
    Background.timers s' = Background.timers s.
Proof.
  induction n as [|n IH]; intros fuel s qd Hqd Hrl Hlen Hfuel.
  - destruct (Background.queue qd) as [|item rest] eqn:Hq; [|discriminate].
    assert (Hsame : Background.processQueue_rec clock fuel v s = s)
      by (destruct fuel; cbn; rewrite Hqd, Hq; reflexivity).
    cbn zeta. rewrite Hsame. unfold Background.pending.
    rewrite Hqd, Hq, app_nil_r. auto.
  - destruct (Background.queue qd) as [|item rest] eqn:Hq; [discriminate|].
    destruct fuel as [|fuel]; [lia|].
    cbn [Background.processQueue_rec]. rewrite Hqd, Hq. cbn.
    replace (0 <? Background.rateLimit qd) with false
      by (symmetry; apply Z.ltb_ge; lia).
    cbn [andb].
    destruct rest as [|item' rest'].
    + cbn. unfold Background.pending, Background.sends, Background.posted.
      cbn. rewrite lookup_insert_eq, String.eqb_refl. cbn.
      rewrite map_app. auto.
    + set (s1 := Background.emit _ _).
      assert (Hqd1 : Background.webhookQueues s1 !! v
                     = Some (Background.mkQueueData (item' :: rest')
                               (clock (Background.ticks s))
                               (Background.timer qd) (Background.rateLimit qd)))
        by (subst s1; cbn; apply lookup_insert_eq).
      destruct (IH fuel s1 _ Hqd1 Hrl) as (Hp & Hs & Ht);
        [cbn in *; lia|lia|].
      cbn zeta in Hp, Hs, Ht. rewrite Hp, Hs, Ht.
      split; [reflexivity|]. split; [|reflexivity].
      subst s1. unfold Background.sends, Background.posted. cbn.
      rewrite String.eqb_refl. cbn. rewrite map_app, <- app_assoc.
      reflexivity.
Qed.

(** [processQueue] raises no queued-notification. *)
Lemma processQueue_rec_notifications (v : string) :
  forall fuel (s : @Background.State P),
    queue_notifications (Background.processQueue_rec clock fuel v s)
    = queue_notifications s.
Proof.
  induction fuel as [|fuel IH]; intros s; cbn [Background.processQueue_rec].
  all: destruct (Background.webhookQueues s !! v) as [qd|]; [|reflexivity].
  all: destruct (Background.queue qd) as [|item rest]; [reflexivity|].
  all: cbn.
  all: destruct ((0 <? Background.rateLimit qd) && _);
    [destruct (Background.timer qd); reflexivity|].
  all: destruct rest as [|item' rest']; [reflexivity|].
  all: destruct (0 <? Background.rateLimit qd); [reflexivity|];
    try reflexivity.
  rewrite IH. reflexivity.
Qed.

End DrainProofs.

(** [addToQueue] with a rate limit of 0 or below. *)
Lemma enqueue_drains {P : Type} (clock : nat -> Z)
        (webhookUrl : string) (payload : P) (webhookName : string)
        (rateLimit : Z) (s : @Background.State P) :
  rateLimit <= 0 ->
  let s' := Background.addToQueue clock webhookUrl payload webhookName
              rateLimit s in
  Background.pending webhookUrl s' = [] /\
  List.map fst (Background.sends webhookUrl s')
  = (List.map fst (Background.sends webhookUrl s)
     ++ Background.pending webhookUrl s ++ [payload])%list /\
  Background.timers s' = Background.timers s /\
  queue_notifications s' = queue_notifications s.
Proof.
  intros Hrl s'. subst s'. unfold Background.addToQueue.
  cbv [Background.Date_now]. cbv beta iota zeta.
  replace (0 <? rateLimit) with false by (symmetry; apply Z.ltb_ge; lia).
  cbn [andb]. unfold Background.processQueue.
  match goal with
  | |- context [Background.processQueue_rec clock ?f webhookUrl ?s1] =>
      set (fuel := f); set (s1' := s1)
  end.
  set (qd0 := match Background.webhookQueues s !! webhookUrl with
              | Some queueData => queueData
              | None => Background.mkQueueData [] 0 None rateLimit
              end) in *.
  set (qd1 := Background.mkQueueData
                (Background.queue qd0
                 ++ [Background.mkItem payload webhookName
                       (clock (Background.ticks s))])%list
                (Background.lastSent qd0) (Background.timer qd0) rateLimit).
  assert (Hqd1 : Background.webhookQueues s1' !! webhookUrl = Some qd1)
    by (subst s1'; cbn; apply lookup_insert_eq).
  assert (Hfuel : fuel = length (Background.queue qd1))
    by (subst fuel; unfold Background.queue_length; fold s1';
        rewrite Hqd1; reflexivity).
  destruct (processQueue_rec_drains clock webhookUrl
              (length (Background.queue qd1)) fuel s1' qd1 Hqd1 Hrl eq_refl
              ltac:(lia)) as (Hp & Hs & Ht).
  cbn zeta in Hp, Hs, Ht.
  rewrite Hp, Hs, Ht, processQueue_rec_notifications.
  repeat split.
  subst qd1. cbn [Background.queue]. rewrite map_app. cbn.
  unfold Background.pending. subst qd0.
  destruct (Background.webhookQueues s !! webhookUrl); reflexivity.
Qed.

(** X7.  An endpoint without rate limit never queues: an enqueue with a rate
    limit of 0 (or below) dispatches, in order and in the same turn, what
    was pending and then the new payload, leaves nothing pending, sets no
    timer and raises no queued-notification. *)
Theorem enqueue_without_rate_limit {P : Type} (clock : nat -> Z)
        (webhookUrl : string) (payload : P) (webhookName : string)
        (rateLimit : Z) (s : @Background.State P) :
  rateLimit <= 0 ->
  let s' := Background.addToQueue clock webhookUrl payload webhookName
              rateLimit s in
  Background.pending webhookUrl s' = [] /\
  List.map fst (Background.sends webhookUrl s')
  = (List.map fst (Background.sends webhookUrl s)
     ++ Background.pending webhookUrl s ++ [payload])%list /\
  Background.timers s' = Background.timers s /\
  queue_notifications s' = queue_notifications s.
Proof. apply enqueue_drains. Qed.

Lemma enqueue_without_rate_limit_witness :
  let s := Background.run Fixtures.thirty_second_clock
             (take 3 Fixtures.three_payloads) Background.initial in
  let s' := Background.addToQueue Fixtures.thirty_second_clock
              Fixtures.hook_a 7%nat "Hook A" 0 s in
  Background.pending Fixtures.hook_a s' = [] /\
  List.map fst (Background.sends Fixtures.hook_a s')
  = (List.map fst (Background.sends Fixtures.hook_a s)
     ++ Background.pending Fixtures.hook_a s ++ [7%nat])%list /\
  Background.timers s' = Background.timers s /\
  queue_notifications s' = queue_notifications s.
Proof.
  apply (enqueue_without_rate_limit Fixtures.thirty_second_clock
           Fixtures.hook_a 7%nat "Hook A" 0). lia.
Defined.

Section ConservationProofs.

Context {P : Type} (clock : nat -> Z).

(** [processQueue] moves payloads from the head of the queue to the
    dispatches, and does nothing else to them. *)
Lemma processQueue_rec_conserves (u v : string) :
  forall fuel (s : @Background.State P),
    (List.map fst (Background.sends u (Background.processQueue_rec clock fuel v s))
     ++ Background.pending u (Background.processQueue_rec clock fuel v s))%list
    = (List.map fst (Background.sends u s) ++ Background.pending u s)%list.
Proof.
  destruct (String.eqb_spec u v) as [->|Hne].
  2:{ intros fuel s.
      destruct (processQueue_rec_other clock u v Hne fuel s) as [Hq Hp].
      unfold Background.sends, Background.pending. rewrite Hq, Hp.
      reflexivity. }
  induction fuel as [|fuel IH]; intros s; cbn [Background.processQueue_rec].
  all: destruct (Background.webhookQueues s !! v) as [qd|] eqn:Hqd;
    [|reflexivity].
  all: destruct (Background.queue qd) as [|item rest] eqn:Hq; [reflexivity|].
  all: cbn.
  all: destruct ((0 <? Background.rateLimit qd) && _).
  all: try (destruct (Background.timer qd);
            unfold Background.sends, Background.posted, Background.pending;
            cbn; rewrite lookup_insert_eq, Hqd, Hq; reflexivity).
  all: assert (Hsent : forall s1 : @Background.State P,
             Background.posted v s1
             = (Background.payload item, clock (Background.ticks s))
                 :: Background.posted v s ->
             Background.pending v s1 = List.map Background.payload rest ->
             (List.map fst (Background.sends v s1)
              ++ Background.pending v s1)%list
             = (List.map fst (Background.sends v s)
                ++ Background.pending v s)%list)
    by (intros s1 Hp1 Hq1; unfold Background.sends; rewrite Hp1, Hq1;
        unfold Background.pending; rewrite Hqd, Hq; cbn;
        rewrite map_app, <- app_assoc; reflexivity).
  all: destruct rest as [|item' rest'].
  all: try (apply Hsent; unfold Background.posted, Background.pending; cbn;
            rewrite ?String.eqb_refl, ?lookup_insert_eq; reflexivity).
  all: destruct (0 <? Background.rateLimit qd).
  all: try (apply Hsent; unfold Background.posted, Background.pending; cbn;
            rewrite ?String.eqb_refl, ?lookup_insert_eq; reflexivity).
  rewrite IH.
  apply Hsent; unfold Background.posted, Background.pending; cbn;
    rewrite ?String.eqb_refl, ?lookup_insert_eq; reflexivity.
Qed.

(** One event adds what it enqueues to the end of an endpoint's payloads,
    and changes nothing else about them. *)
Lemma step_conserves (u : string) (s : @Background.State P) ev :
  (List.map fst (Background.sends u (Background.step clock s ev))
   ++ Background.pending u (Background.step clock s ev))%list
  = ((List.map fst (Background.sends u s) ++ Background.pending u s)
     ++ Background.enqueued u [ev])%list.
Proof.
  destruct ev as [v p n r|id|ws]; cbn [Background.step].
  3:{ destruct (initializeQueues_views ws s u) as (Hp & Hpend).
      cbn zeta in Hp, Hpend. unfold Background.sends.
      rewrite Hp, Hpend. cbn. rewrite app_nil_r. reflexivity. }
  - unfold Background.addToQueue, Background.processQueue.
    cbv [Background.Date_now]. cbv beta iota zeta.
    rewrite processQueue_rec_conserves.
    assert (Hpost : forall (b : bool) (s1 : @Background.State P),
               Background.posted u
                 (if b then Background.emit
                              (Background.ShowQueueNotification v n) s1
                  else s1)
               = Background.posted u s1) by (intros [] s1; reflexivity).
    assert (Hqueues : forall (b : bool) (s1 : @Background.State P),
               Background.webhookQueues
                 (if b then Background.emit
                              (Background.ShowQueueNotification v n) s1
                  else s1)
               = Background.webhookQueues s1) by (intros [] s1; reflexivity).
    unfold Background.sends, Background.pending.
    rewrite Hpost, Hqueues. cbn.
    destruct (String.eqb_spec v u) as [->|Hne].
    + rewrite lookup_insert_eq. cbn. rewrite map_app, app_assoc. cbn.
      destruct (Background.webhookQueues s !! u); cbn;
        rewrite ?app_nil_r; reflexivity.
    + rewrite lookup_insert_ne by congruence.
      unfold Background.posted; cbn. rewrite !app_nil_r. reflexivity.
  - unfold Background.timer_fires.
    destruct (Background.timers s !! id) as [[v due]|];
      [|cbn; rewrite app_nil_r; reflexivity].
    unfold Background.processQueue. rewrite processQueue_rec_conserves.
    cbn. rewrite app_nil_r. reflexivity.
Qed.

(** A run adds what it enqueues to the end of an endpoint's payloads. *)
Lemma payloads_kept (u : string) (evs : list (@Background.Event P)) :
  forall s : @Background.State P,
    (List.map fst (Background.sends u (Background.run clock evs s))
     ++ Background.pending u (Background.run clock evs s))%list
    = ((List.map fst (Background.sends u s) ++ Background.pending u s)
       ++ Background.enqueued u evs)%list.
Proof.
  induction evs as [|ev evs IH]; intros s.
  - cbn. rewrite app_nil_r. reflexivity.
  - cbn [Background.run fold_left]. unfold Background.run in IH.
    rewrite IH, step_conserves, <- !app_assoc. f_equal. f_equal.
    change (ev :: evs) with ([ev] ++ evs)%list.
    unfold Background.enqueued. rewrite omap_app. reflexivity.
Qed.

Lemma lookup_map {A B : Type} (f : A -> B) (l : list A) (i : nat) (x : A) :
  l !! i = Some x -> List.map f l !! i = Some (f x).
Proof.
  revert i. induction l as [|y l IH]; intros [|i] Hi; try discriminate.
  - inversion Hi; subst. reflexivity.
  - cbn. apply IH. exact Hi.
Qed.

End ConservationProofs.

(** X8.  Whatever the rate limits of the enqueues, and whether they change or
    are absent, no payload is lost, duplicated or reordered: after any
    events, what was dispatched to an endpoint followed by what is still
    queued for it is exactly what was enqueued for it, in the order of the
    enqueues. *)
Theorem payloads_are_conserved {P : Type} (clock : nat -> Z)
        (webhookUrl : string) (evs : list (@Background.Event P)) :
  let s := Background.run clock evs Background.initial in
  (List.map fst (Background.sends webhookUrl s)
   ++ Background.pending webhookUrl s)%list
  = Background.enqueued webhookUrl evs.
Proof.
  cbn zeta. induction evs as [|ev evs IH] using rev_ind; [reflexivity|].
  unfold Background.run in *. rewrite fold_left_app. cbn [fold_left].
  rewrite step_conserves, IH.
  unfold Background.enqueued. rewrite omap_app. reflexivity.
Qed.

(** X9.  The queued-notification is not missed: when [addToQueue] raises no
    queued-notification, the payload has been dispatched by the time the
    call returns, after everything that was pending, and no timer was
    set.  (The clock must not run backwards between the two readings of
    the call.) *)
Theorem unannounced_payload_is_dispatched {P : Type} (clock : nat -> Z)
        (webhookUrl : string) (payload : P) (webhookName : string)
        (rateLimit : Z) (s : @Background.State P) :
  clock (S (Background.ticks s)) <= clock (S (S (Background.ticks s))) ->
  let s' := Background.addToQueue clock webhookUrl payload webhookName
              rateLimit s in
  queue_notifications s' = queue_notifications s ->
  Background.pending webhookUrl s' = [] /\
  List.map fst (Background.sends webhookUrl s')
  = (List.map fst (Background.sends webhookUrl s)
     ++ Background.pending webhookUrl s ++ [payload])%list /\
  Background.timers s' = Background.timers s.
Proof.
  intros Hclock s' Hquiet.
  assert (Hall : (List.map fst (Background.sends webhookUrl s')
                  ++ Background.pending webhookUrl s')%list
                 = ((List.map fst (Background.sends webhookUrl s)
                     ++ Background.pending webhookUrl s) ++ [payload])%list).
  { pose proof (step_conserves clock webhookUrl s
                  (Background.Enqueue webhookUrl payload webhookName rateLimit))
      as H.
    cbn in H. rewrite String.eqb_refl in H. exact H. }
  assert (Hgoal : Background.pending webhookUrl s' = [] /\
                  Background.timers s' = Background.timers s).
  2:{ destruct Hgoal as [Hp Ht]. rewrite Hp, app_nil_r in Hall.
      rewrite Hall, <- app_assoc. auto. }
  clear Hall.
  destruct (Z.ltb_spec 0 rateLimit) as [Hpos|Hnone].
  2:{ destruct (enqueue_drains clock webhookUrl payload webhookName
                  rateLimit s Hnone) as (Hp & _ & Ht & _). auto. }
  subst s'. revert Hquiet. unfold Background.addToQueue.
  cbv [Background.Date_now]. cbv beta iota zeta.
  unfold Background.processQueue.
  rewrite processQueue_rec_notifications.
  replace (0 <? rateLimit) with true by (symmetry; apply Z.ltb_lt; lia).
  cbn [andb Background.queue Background.lastSent Background.ticks].
  set (qd0 := match Background.webhookQueues s !! webhookUrl with
              | Some queueData => queueData
              | None => Background.mkQueueData [] 0 None rateLimit
              end).
  destruct ((1 <? length (Background.queue qd0 ++ [_]))%nat || _) eqn:Hwill.
  { unfold queue_notifications. cbn. lia. }
  intros _.
  apply orb_false_iff in Hwill. destruct Hwill as [Hlen Hdue].
  apply Nat.ltb_ge in Hlen. apply Z.ltb_ge in Hdue.
  rewrite length_app in Hlen. cbn in Hlen.
  destruct (Background.queue qd0) as [|item0 rest0] eqn:Hq0;
    [|cbn in Hlen; lia].
  unfold Background.queue_length. cbn. rewrite lookup_insert_eq. cbn.
  rewrite lookup_insert_eq. cbn.
  cbn in Hdue.
  replace (_ - Background.lastSent qd0 <? rateLimit * 1000) with false
    by (symmetry; apply Z.ltb_ge; lia).
  rewrite andb_false_r.
  cbn. unfold Background.pending. cbn. rewrite lookup_insert_eq. auto.
Qed.

Lemma unannounced_payload_is_dispatched_witness :
  let s := Background.run Fixtures.thirty_second_clock
             (take 1 Fixtures.three_payloads) Background.initial in
  let s' := Background.addToQueue (fun n => 1700000040000 + Z.of_nat n)
              Fixtures.hook_a 7%nat "Hook A" 30 s in
  Background.pending Fixtures.hook_a s' = [] /\
  List.map fst (Background.sends Fixtures.hook_a s')
  = (List.map fst (Background.sends Fixtures.hook_a s)
     ++ Background.pending Fixtures.hook_a s ++ [7%nat])%list /\
  Background.timers s' = Background.timers s.
Proof.
  apply (unannounced_payload_is_dispatched
           (fun n => 1700000040000 + Z.of_nat n)
           Fixtures.hook_a 7%nat "Hook A" 30).
  - vm_compute. discriminate.
  - vm_compute. reflexivity.
Defined.


(** X10.  Loading the configuration changes rate limits and nothing else: after
    [initializeQueues], an endpoint with configured entries has the queue,
    the last send time and the timer it had (an empty queue, 0 and none
    for a new endpoint) and the rate limit of its last entry, 0 when that
    entry has none; an endpoint without entries, such as one removed from
    the storage, keeps its queue data; no timer is set or cleared and
    nothing is dispatched. *)
Theorem initializeQueues_only_sets_rate_limits {P : Type}
        (webhooks : list Storage.Webhook) (s : @Background.State P)
        (webhookUrl : string) :
  let s' := Background.initializeQueues (Some webhooks) s in
  Background.webhookQueues s' !! webhookUrl
  = match last (entries_for webhookUrl webhooks) with
    | Some w =>
        let e := default (Background.mkQueueData [] 0 None 0)
                         (Background.webhookQueues s !! webhookUrl) in
        Some (Background.mkQueueData (Background.queue e)
                (Background.lastSent e) (Background.timer e)
                (Storage.rateLimit_or_0 w))
    | None => Background.webhookQueues s !! webhookUrl
    end /\
  Background.pending webhookUrl s' = Background.pending webhookUrl s /\
  Background.timers s' = Background.timers s /\
  Background.effects s' = Background.effects s.
Proof.
  cbn zeta.
  destruct (initializeQueues_spec (Some webhooks) s webhookUrl)
    as (Hq & Ht & He & _).
  destruct (initializeQueues_views (Some webhooks) s webhookUrl) as (_ & Hp).
  cbn zeta in Hq, Ht, He, Hp. split; [|auto].
  rewrite Hq. unfold Background.configured.
  destruct (last _); reflexivity.
Qed.

Section TargetProofs.

Context {P D : Type} (clock : nat -> Z) (enhanced : D -> isotime -> P).

(** A run of [addToQueue] over the target webhooks adds the payload once
    for every target with the endpoint's URL. *)
Lemma enqueue_targets (payload : P) (u : string) :
  forall (targets : list Storage.Webhook) (s : @Background.State P),
    let s' := fold_left
                (fun s webhook =>
                   Background.addToQueue clock (Storage.url webhook) payload
                     (Storage.name webhook) (Storage.rateLimit_or_0 webhook) s)
                targets s in
    (List.map fst (Background.sends u s') ++ Background.pending u s')%list
    = ((List.map fst (Background.sends u s) ++ Background.pending u s)
       ++ replicate (length (entries_for u targets)) payload)%list.
Proof.
  induction targets as [|w targets IH]; intros s; cbn zeta.
  - cbn. rewrite app_nil_r. reflexivity.
  - cbn [fold_left]. cbn zeta in IH. rewrite IH.
    pose proof (step_conserves clock u s
                  (Background.Enqueue (Storage.url w) payload (Storage.name w)
                     (Storage.rateLimit_or_0 w))) as Hstep.
    cbn [Background.step] in Hstep. rewrite Hstep.
    unfold entries_for. cbn.
    destruct (String.eqb (Storage.url w) u); cbn;
      rewrite <- ?app_assoc; cbn; rewrite ?app_nil_r; reflexivity.
Qed.

End TargetProofs.

(** X11.  LinkedIn data reaches the targets and only them: after
    [sendLinkedInDataToWebhooks], every endpoint has, dispatched or
    queued behind what it had, one copy of the same time-stamped payload
    for each target webhook with its URL, and nothing else; under a
    setting other than "all" and "selected" no endpoint gets anything. *)
Theorem linkedin_data_reaches_the_targets {P D : Type} (clock : nat -> Z)
        (enhanced : D -> isotime -> P)
        (webhooks : list Storage.Webhook) (linkedinWebhooks : string)
        (selectedLinkedinWebhooks : list Z) (linkedinData : D)
        (s : @Background.State P) (webhookUrl : string) :
  let s' := fst (LinkedInData.sendLinkedInDataToWebhooks clock enhanced
                   (Some webhooks) linkedinWebhooks selectedLinkedinWebhooks
                   linkedinData s) in
  let targets := LinkedInData.targetWebhooks webhooks linkedinWebhooks
                   selectedLinkedinWebhooks in
  (List.map fst (Background.sends webhookUrl s')
   ++ Background.pending webhookUrl s')%list
  = ((List.map fst (Background.sends webhookUrl s)
      ++ Background.pending webhookUrl s)
     ++ replicate (length (entries_for webhookUrl targets))
          (enhanced linkedinData (ISO (clock (Background.ticks s)))))%list /\
  (linkedinWebhooks <> "all" -> linkedinWebhooks <> "selected" -> s' = s).
Proof.
  cbn zeta. unfold LinkedInData.sendLinkedInDataToWebhooks. split.
  - destruct webhooks as [|w0 webhooks'].
    { assert (Hnone : LinkedInData.targetWebhooks [] linkedinWebhooks
                        selectedLinkedinWebhooks = [])
        by (unfold LinkedInData.targetWebhooks;
            destruct (String.eqb linkedinWebhooks "all");
            [|destruct (String.eqb linkedinWebhooks "selected")]; reflexivity).
      rewrite Hnone. cbn. rewrite app_nil_r. reflexivity. }
    destruct (LinkedInData.targetWebhooks (w0 :: webhooks') linkedinWebhooks
                selectedLinkedinWebhooks) as [|t targets] eqn:Ht.
    { cbn. rewrite app_nil_r. reflexivity. }
    cbv [Background.Date_now]. cbv beta iota zeta. cbn [fst].
    pose proof (enqueue_targets clock
                  (enhanced linkedinData (ISO (clock (Background.ticks s))))
                  webhookUrl (t :: targets)) as Hrun.
    cbn zeta in Hrun. rewrite Hrun. reflexivity.
  - intros Hall Hsel.
    assert (Hnone : LinkedInData.targetWebhooks webhooks linkedinWebhooks
                      selectedLinkedinWebhooks = []).
    { unfold LinkedInData.targetWebhooks.
      destruct (String.eqb_spec linkedinWebhooks "all"); [contradiction|].
      destruct (String.eqb_spec linkedinWebhooks "selected");
        [contradiction|reflexivity]. }
    rewrite Hnone. destruct webhooks; reflexivity.
Qed.

Lemma linkedin_data_reaches_the_targets_witness :
  let s := Background.run Fixtures.thirty_second_clock
             (take 2 Fixtures.three_payloads) Background.initial in
  fst (LinkedInData.sendLinkedInDataToWebhooks Fixtures.thirty_second_clock
         (fun (d : nat) (_ : isotime) => d)
         (Some [Storage.mkWebhook Fixtures.hook_a "Hook A" (Some 30)])
         "none" [] 7%nat s) = s.
Proof.
  apply (linkedin_data_reaches_the_targets Fixtures.thirty_second_clock
           (fun (d : nat) (_ : isotime) => d)
           [Storage.mkWebhook Fixtures.hook_a "Hook A" (Some 30)]
           "none" [] 7%nat _ Fixtures.hook_a); discriminate.
Defined.

(* ================================================================== *)
(** * Properties of the context menus *)
(* ================================================================== *)

(** X12.  A sanitized name is made of letters, digits, [_] and [-] only, is as
    long as the name up to 50 code units, and sanitizing it again changes
    nothing. *)
Theorem sanitizeMenuId_is_clean (name : jsstring) :
  Forall (fun c => ContextMenu.is_menu_char c = true)
         (ContextMenu.sanitizeMenuId name) /\
  length (ContextMenu.sanitizeMenuId name) = Nat.min 50 (length name) /\
  ContextMenu.sanitizeMenuId (ContextMenu.sanitizeMenuId name)
  = ContextMenu.sanitizeMenuId name.
Proof.
  unfold ContextMenu.sanitizeMenuId.
  set (f := fun c : N => if ContextMenu.is_menu_char c then c else 95%N).
  assert (Hclean : forall l : jsstring,
             Forall (fun c => ContextMenu.is_menu_char c = true) (List.map f l)).
  { induction l as [|c l IH]; constructor; [|exact IH].
    subst f. cbn beta. destruct (ContextMenu.is_menu_char c) eqn:Hc;
      [exact Hc|reflexivity]. }
  assert (Hid : forall l : jsstring,
             Forall (fun c => ContextMenu.is_menu_char c = true) l ->
             List.map f l = l).
  { induction 1 as [|c l Hc _ IH]; [reflexivity|].
    cbn. rewrite IH. subst f. cbn beta. rewrite Hc. reflexivity. }
  split; [apply Forall_take, Hclean|].
  split; [rewrite length_take, length_map; reflexivity|].
  rewrite Hid by apply Forall_take, Hclean.
  rewrite take_take. f_equal.
Qed.

Section MenuProofs.

Lemma split_all_nonempty c (s : jsstring) : Url.split_all c s <> [].
Proof.
  destruct s as [|x s]; cbn; [discriminate|].
  destruct (x =? c)%N; [discriminate|].
  destruct (Url.split_all c s); discriminate.
Qed.

(** [(a + c + b).split(c)] is [a.split(c)] followed by [b.split(c)]. *)
Lemma split_all_app c (a b : jsstring) :
  Url.split_all c (a ++ c :: b) = (Url.split_all c a ++ Url.split_all c b)%list.
Proof.
  induction a as [|x a IH]; cbn.
  - rewrite N.eqb_refl. reflexivity.
  - destruct (x =? c)%N; [rewrite IH; reflexivity|].
    rewrite IH.
    destruct (Url.split_all c a) as [|p ps] eqn:Ha;
      [exfalso; exact (split_all_nonempty c a Ha)|reflexivity].
Qed.

Lemma split_all_none c (s : jsstring) :
  Forall (fun x => x <> c) s -> Url.split_all c s = [s].
Proof.
  induction 1 as [|x s Hx _ IH]; [reflexivity|].
  cbn. rewrite IH. destruct (N.eqb_spec x c); [contradiction|reflexivity].
Qed.

Lemma uint_units_digits (d : Decimal.uint) :
  Forall (fun c => is_digit c = true) (ContextMenu.uint_units d).
Proof. induction d; constructor; auto. Qed.

Lemma leading_digits_all (s : jsstring) :
  Forall (fun c => is_digit c = true) s ->
  ContextMenu.leading_digits 10 s = List.map (fun c => Z.of_N c - 48) s.
Proof.
  induction 1 as [|c s Hc _ IH]; [reflexivity|].
  cbn [ContextMenu.leading_digits List.map].
  unfold ContextMenu.digit_value, Url.hex_val. rewrite Hc.
  unfold is_digit in Hc. apply andb_true_iff in Hc as [H1 H2].
  apply N.leb_le in H1. apply N.leb_le in H2.
  replace (Z.of_N (c - 48) <? 10) with true by (symmetry; apply Z.ltb_lt; lia).
  rewrite IH. f_equal. lia.
Qed.

(** reading a decimal numeral digit by digit gives its value *)
Lemma decimal_value (d : Decimal.uint) :
  forall acc : nat,
    fold_left (fun acc d => 10 * acc + d)
      (List.map (fun c => Z.of_N c - 48) (ContextMenu.uint_units d))
      (Z.of_nat acc)
    = Z.of_nat (Nat.of_uint_acc d acc).
Proof.
  induction d as [|d IH|d IH|d IH|d IH|d IH|d IH|d IH|d IH|d IH|d IH];
    intros acc; cbn [ContextMenu.uint_units List.map fold_left Nat.of_uint_acc];
    [reflexivity|..].
  all: rewrite <- IH; f_equal; rewrite Nat.tail_mul_spec; lia.
Qed.

Lemma digit_cases (c : N) :
  is_digit c = true ->
  c = 48%N \/ c = 49%N \/ c = 50%N \/ c = 51%N \/ c = 52%N \/ c = 53%N \/
  c = 54%N \/ c = 55%N \/ c = 56%N \/ c = 57%N.
Proof.
  unfold is_digit. intros Hc. apply andb_true_iff in Hc as [H1 H2].
  apply N.leb_le in H1. apply N.leb_le in H2. lia.
Qed.

(** [parseInt] of a string of digits *)
Lemma parseInt_of_digits (c : N) (rest : jsstring) :
  is_digit c = true ->
  Forall (fun c => is_digit c = true) rest ->
  ContextMenu.parseInt (c :: rest)
  = Some (fold_left (fun acc d => 10 * acc + d)
            (List.map (fun c => Z.of_N c - 48) (c :: rest)) 0).
Proof.
  intros Hc Hrest.
  assert (Hlead : ContextMenu.leading_digits 10 (c :: rest)
                  = List.map (fun c => Z.of_N c - 48) (c :: rest))
    by (apply leading_digits_all; constructor; assumption).
  assert (Hx : forall x r, rest = x :: r ->
                           ((x =? 120) || (x =? 88))%N = false).
  { intros x r ->. inversion Hrest as [|? ? Hd _]; subst.
    apply digit_cases in Hd.
    destruct Hd as [->|[->|[->|[->|[->|[->|[->|[->|[->| ->]]]]]]]]];
      reflexivity. }
  apply digit_cases in Hc.
  destruct Hc as [->|[->|[->|[->|[->|[->|[->|[->|[->| ->]]]]]]]]].
  2-10: unfold ContextMenu.parseInt; cbn [trimStart];
    match goal with
    | |- context [is_whitespace ?d] =>
        replace (is_whitespace d) with false by reflexivity
    end; cbv beta iota zeta; rewrite Hlead; cbn [List.map];
    match goal with
    | |- Some (1 * ?a) = Some ?b => replace (1 * a) with a by lia; reflexivity
    end.
  unfold ContextMenu.parseInt. cbn [trimStart].
  match goal with
    | |- context [is_whitespace ?d] =>
        replace (is_whitespace d) with false by reflexivity
    end. cbv beta iota zeta.
  destruct rest as [|x r].
  - reflexivity.
  - rewrite (Hx x r eq_refl). cbv beta iota zeta. rewrite Hlead. cbn [List.map].
    match goal with
    | |- Some (1 * ?a) = Some ?b => replace (1 * a) with a by lia; reflexivity
    end.
Qed.

Lemma parseInt_index (index : nat) :
  ContextMenu.parseInt (ContextMenu.index_to_string index)
  = Some (Z.of_nat index).
Proof.
  unfold ContextMenu.index_to_string.
  pose proof (uint_units_digits (Nat.to_uint index)) as Hdigits.
  pose proof (decimal_value (Nat.to_uint index) 0) as Hvalue.
  change (Nat.of_uint_acc (Nat.to_uint index) 0)
    with (Nat.of_uint (Nat.to_uint index)) in Hvalue.
  rewrite DecimalNat.Unsigned.of_to in Hvalue.
  destruct (ContextMenu.uint_units (Nat.to_uint index)) as [|c rest] eqn:Hu.
  - cbn in Hvalue. assert (index = 0%nat) as -> by lia. discriminate Hu.
  - inversion Hdigits; subst.
    rewrite parseInt_of_digits by assumption. f_equal. exact Hvalue.
Qed.

Lemma kind_parts (kind : string) :
  kind = "normal" \/ kind = "selection" ->
  Forall (fun x => x <> 95%N) (js kind).
Proof.
  intros [->| ->]; cbn; repeat constructor; discriminate.
Qed.

Lemma index_parts (index : nat) :
  Forall (fun x => x <> 95%N) (ContextMenu.index_to_string index).
Proof.
  unfold ContextMenu.index_to_string.
  pose proof (uint_units_digits (Nat.to_uint index)) as Hdigits.
  eapply Forall_impl; [exact Hdigits|].
  intros c Hc ->. discriminate.
Qed.

Context {W : Type} (name_of : W -> jsstring).

Lemma clicked_menu_item (webhooks : list W) (webhook : W) (index : nat)
      (kind : string) :
  kind = "normal" \/ kind = "selection" ->
  ContextMenu.clicked_webhook webhooks
    (ContextMenu.menu_item_id name_of webhook index kind)
  = webhooks !! index.
Proof.
  intros Hkind.
  unfold ContextMenu.clicked_webhook, ContextMenu.menu_item_id.
  set (name := ContextMenu.sanitizeMenuId (name_of webhook)).
  assert (Hstart : starts_with (js "sendTo_")
                     (js "sendTo_" ++ name ++ js "_"
                      ++ ContextMenu.index_to_string index ++ js "_"
                      ++ js kind)%list = true) by reflexivity.
  rewrite Hstart.
  assert (Hpart : ContextMenu.index_part
                    (js "sendTo_" ++ name ++ js "_"
                     ++ ContextMenu.index_to_string index ++ js "_"
                     ++ js kind)%list
                  = Some (ContextMenu.index_to_string index)).
  { unfold ContextMenu.index_part.
    replace (js "sendTo_" ++ name ++ js "_"
             ++ ContextMenu.index_to_string index ++ js "_" ++ js kind)%list
      with ((js "sendTo_" ++ name)
            ++ 95%N :: (ContextMenu.index_to_string index
                        ++ 95%N :: js kind))%list
      by (rewrite <- app_assoc; reflexivity).
    rewrite !split_all_app.
    rewrite (split_all_none 95 (js kind)) by (apply kind_parts, Hkind).
    rewrite (split_all_none 95 (ContextMenu.index_to_string index))
      by apply index_parts.
    set (front := Url.split_all 95 (js "sendTo_" ++ name)%list).
    rewrite !length_app. cbn [length].
    replace (2 <=? length front + (1 + 1))%nat with true
      by (symmetry; apply Nat.leb_le; lia).
    replace (length front + (1 + 1) - 2)%nat with (length front + 0)%nat by lia.
    rewrite lookup_app_r by lia.
    replace (length front + 0 - length front)%nat with 0%nat by lia.
    reflexivity. }
  rewrite Hpart.
  replace (default (js "undefined") (Some (ContextMenu.index_to_string index)))
    with (ContextMenu.index_to_string index) by reflexivity.
  rewrite parseInt_index.
  replace (0 <=? Z.of_nat index) with true by (symmetry; apply Z.leb_le; lia).
  rewrite Nat2Z.id. reflexivity.
Qed.

End MenuProofs.

(** X13.  A click finds its webhook by the index in the menu item id, whatever
    the webhook's name: for both ids [updateWebhookMenus] creates at an
    index, the [onClicked] listener sends to the webhook the storage holds
    at that index (to none when the storage holds fewer webhooks by
    then).  So every menu item created from a list of webhooks leads,
    while the storage still holds that list, to the webhook it was
    created for. *)
Theorem menu_item_id_round_trip {W : Type} (name_of : W -> jsstring)
        (webhooks : list W) (webhook : W) (index : nat) :
  ContextMenu.clicked_webhook webhooks
    (ContextMenu.menu_item_id name_of webhook index "normal")
  = webhooks !! index /\
  ContextMenu.clicked_webhook webhooks
    (ContextMenu.menu_item_id name_of webhook index "selection")
  = webhooks !! index /\
  forall menuItemId,
    In menuItemId (ContextMenu.menu_item_ids name_of webhooks) ->
    exists i w kind,
      webhooks !! i = Some w /\
      menuItemId = ContextMenu.menu_item_id name_of w i kind /\
      ContextMenu.clicked_webhook webhooks menuItemId = Some w.
Proof.
  split; [apply clicked_menu_item; auto|].
  split; [apply clicked_menu_item; auto|].
  intros menuItemId Hin. unfold ContextMenu.menu_item_ids in Hin.
  apply in_concat in Hin as (ids & Hids & Hid).
  apply list_elem_of_In, elem_of_lookup_imap in Hids as (i & w & -> & Hw).
  destruct Hid as [<-|[<-|[]]].
  - exists i, w, "normal". rewrite clicked_menu_item by auto. auto.
  - exists i, w, "selection". rewrite clicked_menu_item by auto. auto.
Qed.



(* ================================================================== *)
(** * Properties of the regular expressions *)
(* ================================================================== *)

Section RegexProofs.

(** What the matcher accepts, the regular expression matches: a
    successful [rmatch] splits the input into a matched front and the rest
    the continuation succeeded on. *)
Lemma rmatch_sound {R : Type} (r : Regex.regex) :
  forall (s : jsstring) (c : Regex.caps)
         (k : jsstring -> Regex.caps -> option R) (x : R),
    Regex.rmatch r s c k = Some x ->
    exists a b n, s = (a ++ b)%list /\ matched r a n /\
                  k b (n ++ c)%list = Some x.
Proof.
  induction r as [|p|r1 IH1 r2 IH2|r1 IH1|r1 IH1|i r1 IH1];
    intros s c k x Hrun.
  - cbn [Regex.rmatch] in Hrun.
    exists [], s, []. repeat split; [constructor|exact Hrun].
  - cbn [Regex.rmatch] in Hrun. destruct s as [|y s']; [discriminate|].
    destruct (p y) eqn:Hp; [|discriminate].
    exists [y], s', []. repeat split; [constructor; exact Hp|exact Hrun].
  - cbn [Regex.rmatch] in Hrun.
    apply IH1 in Hrun as (a & b & n1 & -> & Ha & Hrun).
    apply IH2 in Hrun as (a' & b' & n2 & -> & Hb & Hrun).
    exists (a ++ a')%list, b', (n2 ++ n1)%list.
    rewrite <- !app_assoc. repeat split; [constructor; assumption|exact Hrun].
  - cbn [Regex.rmatch] in Hrun.
    destruct (Regex.rmatch r1 s c k) as [y|] eqn:Hfirst.
    + inversion Hrun; subst y.
      apply IH1 in Hfirst as (a & b & n & -> & Ha & Hk).
      exists a, b, n. repeat split; [constructor; assumption|exact Hk].
    + exists [], s, []. repeat split; [constructor|exact Hrun].
  - set (loop :=
           fix loop (n : nat) (s : jsstring) (c : Regex.caps) {struct n}
             : option R :=
             match n with
             | O => None
             | S n' =>
                 Regex.rmatch r1 s c (fun s' c' =>
                   match (if (length s' <? length s)%nat
                          then loop n' s' c' else None) with
                   | Some x => Some x
                   | None => k s' c'
                   end)
             end).
    cbn [Regex.rmatch] in Hrun.
    change (Regex.rmatch r1 s c (fun s' c' =>
                   match (if (length s' <? length s)%nat
                          then loop (length s) s' c' else None) with
                   | Some x => Some x
                   | None => k s' c'
                   end) = Some x) in Hrun.
    change (loop (S (length s)) s c = Some x) in Hrun.
    assert (Hstep : forall n s c,
               loop (S n) s c
               = Regex.rmatch r1 s c (fun s' c' =>
                   match (if (length s' <? length s)%nat
                          then loop n s' c' else None) with
                   | Some x => Some x
                   | None => k s' c'
                   end)) by reflexivity.
    revert Hrun. generalize (S (length s)). intros fuel. revert s c.
    induction fuel as [|fuel IHf]; intros s c Hrun; [discriminate|].
    rewrite Hstep in Hrun.
    apply IH1 in Hrun as (a & b & n1 & -> & Ha & Hrun).
    destruct (length b <? length (a ++ b))%nat.
    + destruct (loop fuel b (n1 ++ c)%list) as [y|] eqn:Hmore.
      * inversion Hrun; subst y.
        apply IHf in Hmore as (a' & b' & n2 & -> & Hb & Hk).
        exists (a ++ a')%list, b', (n2 ++ n1)%list.
        rewrite <- !app_assoc.
        repeat split; [apply matched_Plus_more; assumption|exact Hk].
      * exists a, b, n1.
        repeat split; [apply matched_Plus_one; assumption|exact Hrun].
    + exists a, b, n1.
      repeat split; [apply matched_Plus_one; assumption|exact Hrun].
  - cbn [Regex.rmatch] in Hrun.
    apply IH1 in Hrun as (a & b & n & -> & Ha & Hrun).
    exists a, b, ((i, a) :: n).
    repeat split; [constructor; assumption|].
    rewrite length_app in Hrun.
    replace (length a + length b - length b)%nat with (length a) in Hrun by lia.
    rewrite take_app_length in Hrun. exact Hrun.
Qed.

(** [s.match(r)] finds a part of [s] that [r] matches. *)
Lemma search_sound (r : Regex.regex) :
  forall (s : jsstring) (c : Regex.caps),
    Regex.search r s = Some c ->
    exists before a after,
      s = (before ++ a ++ after)%list /\ matched r a c.
Proof.
  induction s as [|y s IH]; intros c Hrun; cbn [Regex.search] in Hrun.
  - destruct (Regex.rmatch r [] [] _) as [c'|] eqn:Hm; [|discriminate].
    inversion Hrun; subst c'.
    apply rmatch_sound in Hm as (a & b & n & Hs & Ha & Hk).
    cbn beta in Hk. rewrite app_nil_r in Hk. inversion Hk; subst c.
    exists [], a, b. split; [exact Hs|exact Ha].
  - destruct (Regex.rmatch r (y :: s) [] _) as [c'|] eqn:Hm.
    + inversion Hrun; subst c'.
      apply rmatch_sound in Hm as (a & b & n & Hs & Ha & Hk).
      cbn beta in Hk. rewrite app_nil_r in Hk. inversion Hk; subst c.
      exists [], a, b. split; [exact Hs|exact Ha].
    + apply IH in Hrun as (before & a & after & -> & Ha).
      exists (y :: before), a, after. split; [reflexivity|exact Ha].
Qed.

Lemma matched_no_capture (r : Regex.regex) a n :
  matched r a n -> no_capture r = true -> n = [].
Proof.
  induction 1 as [|p x Hp|r1 r2 a b n1 n2 _ IH1 _ IH2| |r a n _ IH
                  |r a n _ IH|r a b n1 n2 _ IH1 _ IH2|i r a n _ IH];
    cbn [no_capture]; intros Hnc; auto; try discriminate.
  - apply andb_true_iff in Hnc as [Hn1 Hn2].
    rewrite (IH1 Hn1), (IH2 Hn2). reflexivity.
  - rewrite (IH1 Hnc), (IH2 Hnc). reflexivity.
Qed.

(** one or more code units of a class *)
Lemma matched_Plus_Lit p a n :
  matched (Regex.Plus (Regex.Lit p)) a n ->
  a <> [] /\ Forall (fun x => p x = true) a /\ n = [].
Proof.
  remember (Regex.Plus (Regex.Lit p)) as r eqn:Hr.
  induction 1 as [|p' x Hp|r1 r2 a b n1 n2 _ IH1 _ IH2| |r a n _ IH
                  |r a n Ha IH|r a b n1 n2 Ha IH1 Hb IH2|i r a n _ IH];
    try discriminate; inversion Hr; subst r.
  - inversion Ha; subst. repeat split; [discriminate|auto].
  - inversion Ha; subst. destruct (IH2 eq_refl) as (_ & Hall & ->).
    repeat split; [discriminate|constructor; assumption].
Qed.

End RegexProofs.

(* ================================================================== *)
(** * Properties of the detection and of the profile identifier *)
(* ================================================================== *)

Lemma numeral_value_nonneg (digits : jsstring) :
  Forall (fun c => is_digit c = true) digits -> 0 <= numeral_value digits.
Proof.
  unfold numeral_value.
  assert (Hacc : forall acc, 0 <= acc ->
             Forall (fun c => is_digit c = true) digits ->
             0 <= fold_left (fun acc c => 10 * acc + (Z.of_N c - 48)) digits acc).
  { induction digits as [|c digits IH]; intros acc Hpos Hall; [exact Hpos|].
    inversion Hall as [|? ? Hc Hrest]; subst. cbn [fold_left].
    apply IH; [|exact Hrest].
    unfold is_digit in Hc. apply andb_true_iff in Hc as [H1 H2].
    apply N.leb_le in H1. lia. }
  apply Hacc. lia.
Qed.

Lemma to_double_small (n : Z) : n < 2 ^ 53 -> to_double n = Num n.
Proof.
  intros Hn. unfold to_double.
  destruct (Z.ltb_spec n (2 ^ 53)); [reflexivity|lia].
Qed.

Lemma to_double_large (n m : Z) :
  2 ^ 53 <= n -> to_double n = Num m -> 2 ^ 53 <= m.
Proof.
  intros Hn. unfold to_double.
  destruct (Z.ltb_spec n (2 ^ 53)) as [Hlt|_]; [lia|].
  set (e := Z.log2 n - 52).
  assert (Hlog : 53 <= Z.log2 n) by (apply Z.log2_le_pow2; lia).
  assert (He : 1 <= e) by (subst e; lia).
  assert (Hpow : 2 <= 2 ^ e).
  { change 2 with (2 ^ 1) at 1. apply Z.pow_le_mono_r; lia. }
  assert (Hq : 2 ^ 52 <= n / 2 ^ e).
  { apply Z.div_le_lower_bound; [lia|].
    rewrite <- Z.pow_add_r by lia.
    replace (e + 52) with (Z.log2 n) by (subst e; lia).
    apply Z.log2_spec. lia. }
  cbv zeta.
  change (2 ^ 53) with (2 ^ 52 * 2).
  destruct (_ || _); destruct (_ <=? _); intros [= <-]; nia.
Qed.


Lemma parseInt_digits_nonneg (digits : jsstring) (n : Z) :
  Forall (fun c => is_digit c = true) digits ->
  parseInt_digits digits = Num n -> 0 <= n.
Proof.
  intros Hall. pose proof (numeral_value_nonneg digits Hall) as Hpos.
  unfold parseInt_digits.
  destruct (Z.lt_ge_cases (numeral_value digits) (2 ^ 53)) as [Hlt|Hge].
  - rewrite to_double_small by exact Hlt. intros [= <-]. exact Hpos.
  - intros Hn. apply to_double_large in Hn; [|exact Hge].
    assert (0 < 2 ^ 53) by (apply Z.pow_pos_nonneg; lia). lia.
Qed.



(** Beyond 2^53 the count is the count of the script, not the number
    written: [Number.parseInt] rounds 9007199254740993 to 2^53, and the sum
    with 2 is 9007199254740994. *)
Example large_count_is_rounded :
  exists d,
    @detectMutualConnections Fixtures.profile_engine Url.plain_parser
      Fixtures.crowded_page = Ok (Some d) /\
    Detection.totalCount d = Some (Num 9007199254740994).
Proof. eexists. split; [vm_compute; reflexivity|reflexivity]. Qed.

Section GreedyProofs.

Context {R : Type} (p : N -> bool) (k : jsstring -> Regex.caps -> option R).

(** One or more code units of a class, followed by something that always
    matches: the longest run is taken. *)
Lemma rmatch_Plus_Lit_greedy :
  (forall s c, k s c <> None) ->
  forall (s : jsstring) (c : Regex.caps),
    match s with
    | x :: _ =>
        if p x then
          exists a b,
            s = (a ++ b)%list /\ a <> [] /\
            Forall (fun x => p x = true) a /\
            match b with [] => True | y :: _ => p y = false end /\
            Regex.rmatch (Regex.Plus (Regex.Lit p)) s c k = k b c
        else Regex.rmatch (Regex.Plus (Regex.Lit p)) s c k = None
    | [] => Regex.rmatch (Regex.Plus (Regex.Lit p)) s c k = None
    end.
Proof.
  intros Htotal s c.
  set (loop :=
         fix loop (n : nat) (s : jsstring) (c : Regex.caps) {struct n}
           : option R :=
           match n with
           | O => None
           | S n' =>
               Regex.rmatch (Regex.Lit p) s c (fun s' c' =>
                 match (if (length s' <? length s)%nat
                        then loop n' s' c' else None) with
                 | Some x => Some x
                 | None => k s' c'
                 end)
           end).
  change (Regex.rmatch (Regex.Plus (Regex.Lit p)) s c k)
    with (loop (S (length s)) s c).
  assert (Hstep : forall n x s c,
             loop (S n) (x :: s) c
             = if p x then
                 match (if (length s <? length (x :: s))%nat
                        then loop n s c else None) with
                 | Some y => Some y
                 | None => k s c
                 end
               else None) by reflexivity.
  assert (Hnil : forall n c, loop n [] c = None) by (intros [|n] c0; reflexivity).
  assert (Hlen : forall (x : N) (s : jsstring),
             (length s <? length (x :: s))%nat = true)
    by (intros x0 s0; apply Nat.ltb_lt; cbn; lia).
  assert (Hmain : forall n (s : jsstring) c,
             (length s < n)%nat ->
             match s with
             | x :: _ =>
                 if p x then
                   exists a b,
                     s = (a ++ b)%list /\ a <> [] /\
                     Forall (fun x => p x = true) a /\
                     match b with [] => True | y :: _ => p y = false end /\
                     loop n s c = k b c
                 else loop n s c = None
             | [] => loop n s c = None
             end).
  { induction n as [|n IH]; intros s0 c0 Hfuel; [lia|].
    destruct s0 as [|x s0]; [apply Hnil|].
    rewrite Hstep, Hlen. destruct (p x) eqn:Hx; [|reflexivity].
    cbn in Hfuel. specialize (IH s0 c0 ltac:(lia)).
    destruct s0 as [|y s0].
    - rewrite Hnil. exists [x], [].
      split; [reflexivity|]. split; [discriminate|].
      split; [constructor; [exact Hx|constructor]|]. split; [exact I|reflexivity].
    - destruct (p y) eqn:Hy.
      + destruct IH as (a & b & Hs & Hne & Hall & Hb & Hrun).
        rewrite Hrun. exists (x :: a), b. rewrite Hs.
        split; [reflexivity|]. split; [discriminate|].
        split; [constructor; assumption|]. split; [exact Hb|].
        destruct (k b c0) eqn:Hk; [reflexivity|].
        exfalso. exact (Htotal b c0 Hk).
      + rewrite IH. exists [x], (y :: s0).
        split; [reflexivity|]. split; [discriminate|].
        split; [constructor; [exact Hx|constructor]|].
        split; [exact Hy|reflexivity]. }
  apply Hmain. lia.
Qed.

End GreedyProofs.

Section SearchProofs.

(** [s.match(r)] is a match of [r] at the front of a suffix of [s]. *)
Lemma search_finds (r : Regex.regex) :
  forall (s : jsstring) (c : Regex.caps),
    Regex.search r s = Some c ->
    exists before rest,
      s = (before ++ rest)%list /\
      Regex.rmatch r rest [] (fun _ c => Some c) = Some c.
Proof.
  induction s as [|y s IH]; intros c Hrun; cbn [Regex.search] in Hrun.
  - destruct (Regex.rmatch r [] [] _) as [c'|] eqn:Hm; [|discriminate].
    exists [], []. split; [reflexivity|]. congruence.
  - destruct (Regex.rmatch r (y :: s) [] _) as [c'|] eqn:Hm.
    + exists [], (y :: s). split; [reflexivity|]. congruence.
    + apply IH in Hrun as (before & rest & -> & Hr).
      exists (y :: before), rest. split; [reflexivity|exact Hr].
Qed.

(** a match at the front of a suffix makes [s.match(r)] succeed *)
Lemma search_succeeds (r : Regex.regex) (rest : jsstring) :
  Regex.rmatch r rest [] (fun _ c => Some c) <> None ->
  forall before, Regex.search r (before ++ rest)%list <> None.
Proof.
  intros Hm.
  assert (Hrest : Regex.search r rest <> None).
  { destruct rest as [|y rest]; cbn [Regex.search];
      destruct (Regex.rmatch r _ [] _); congruence. }
  induction before as [|y before IH]; [exact Hrest|].
  cbn [app Regex.search].
  destruct (Regex.rmatch r (y :: before ++ rest)%list [] _);
    [discriminate|exact IH].
Qed.

(** the literal [/in/] *)
Lemma matched_in (a : jsstring) (n : Regex.caps) :
  matched (Regex.word "/in/") a n -> a = js "/in/" /\ n = [].
Proof.
  intros Ha. split; [|apply (matched_no_capture _ _ _ Ha); reflexivity].
  cbv [Regex.word Regex.word_with Regex.chr] in Ha.
  repeat match goal with
         | H : matched (Regex.Seq _ _) _ _ |- _ => inversion H; subst; clear H
         | H : matched (Regex.Lit _) _ _ |- _ => inversion H; subst; clear H
         | H : matched Regex.Empty _ _ |- _ => inversion H; subst; clear H
         | H : (_ =? _)%N = true |- _ => apply N.eqb_eq in H; subst
         end.
  reflexivity.
Qed.

End SearchProofs.

(** a match of [/in/] and a captured run of code units of a class, at the
    front of a string *)
Lemma id_match (p : N -> bool) (rest : jsstring) (c : Regex.caps) :
  Regex.rmatch
    (Regex.Seq (Regex.word "/in/") (Regex.Capture 1 (Regex.Plus (Regex.Lit p))))
    rest [] (fun _ c => Some c) = Some c ->
  exists id after,
    rest = (js "/in/" ++ id ++ after)%list /\
    id <> [] /\
    Forall (fun x => p x = true) id /\
    match after with
    | [] => True
    | y :: _ => p y = false
    end /\
    c = [(1%nat, id)].
Proof.
  intros Hrun.
  change (Regex.rmatch (Regex.word "/in/") rest []
            (fun s' c' =>
               Regex.rmatch (Regex.Capture 1 (Regex.Plus (Regex.Lit p))) s' c'
                 (fun _ c => Some c)) = Some c) in Hrun.
  apply rmatch_sound in Hrun as (a & b & n & -> & Ha & Hrun).
  apply matched_in in Ha as [-> ->].
  change (Regex.rmatch (Regex.Plus (Regex.Lit p)) b []
            (fun s' c' =>
               Some ((1%nat, take (length b - length s')%nat b) :: c'))
          = Some c) in Hrun.
  pose proof (rmatch_Plus_Lit_greedy p
                (fun s' c' =>
                   Some ((1%nat, take (length b - length s')%nat b) :: c'))
                ltac:(discriminate) b []) as Hgreedy.
  destruct b as [|x b']; [rewrite Hgreedy in Hrun; discriminate|].
  destruct (p x) eqn:Hx; [|rewrite Hgreedy in Hrun; discriminate].
  destruct Hgreedy as (a & after & Hsplit & Hne & Hall & Hend & Heq).
  rewrite Heq in Hrun. inversion Hrun; subst c; clear Hrun Heq.
  assert (Htake : take (S (length b') - length after) (x :: b') = a).
  { change (S (length b')) with (length (x :: b')).
    rewrite Hsplit, length_app.
    replace (length a + length after - length after)%nat with (length a)
      by lia.
    apply take_app_length. }
  rewrite Htake, Hsplit.
  exists a, after. auto.
Qed.

(** a match of [/\/in\/([^/?]+)/] at the front of a string *)
Lemma linkedin_id_match (rest : jsstring) (c : Regex.caps) :
  Regex.rmatch linkedin_id_regex rest [] (fun _ c => Some c) = Some c ->
  exists id after,
    rest = (js "/in/" ++ id ++ after)%list /\
    id <> [] /\
    Forall (fun c => c <> 47%N /\ c <> 63%N) id /\
    match after with
    | [] => True
    | c :: _ => c = 47%N \/ c = 63%N
    end /\
    c = [(1%nat, id)].
Proof.
  intros Hrun. unfold linkedin_id_regex in Hrun.
  apply id_match in Hrun as (id & after & -> & Hne & Hall & Hend & ->).
  exists id, after.
  split; [reflexivity|]. split; [exact Hne|].
  split; [|split; [|reflexivity]].
  - eapply Forall_impl; [exact Hall|]. intros y Hy. cbn beta in Hy.
    apply negb_true_iff, orb_false_iff in Hy as [H1 H2].
    apply N.eqb_neq in H1. apply N.eqb_neq in H2. auto.
  - destruct after as [|y after']; [exact I|].
    cbn beta in Hend.
    apply negb_false_iff, orb_true_iff in Hend as [H1|H1];
      apply N.eqb_eq in H1; auto.
Qed.

(** what [extractLinkedInIdFromUrl] returns *)
Lemma extractLinkedInIdFromUrl_parts (url id : jsstring) :
  extractLinkedInIdFromUrl url = Some id ->
  exists before after,
    url = (before ++ js "/in/" ++ id ++ after)%list /\
    id <> [] /\
    Forall (fun c => c <> 47%N /\ c <> 63%N) id /\
    match after with
    | [] => True
    | c :: _ => c = 47%N \/ c = 63%N
    end.
Proof.
  unfold extractLinkedInIdFromUrl.
  destruct (Regex.search linkedin_id_regex url) as [c|] eqn:Hsearch;
    [|discriminate].
  intros Hcap.
  apply search_finds in Hsearch as (before & rest & -> & Hrun).
  apply linkedin_id_match in Hrun
    as (id' & after & -> & Hne & Hall & Hend & ->).
  cbn [Regex.cap_get Nat.eqb] in Hcap. inversion Hcap; subst id'.
  exists before, after. auto.
Qed.

(** X16.  The identifier [extractLinkedInIdFromUrl] returns is cut out of the
    URL: it follows an occurrence of [/in/], is not empty, contains neither
    [/] nor [?], and ends where the URL ends or at the next [/] or [?]. *)
Theorem extractLinkedInIdFromUrl_sound (url id : jsstring) :
  extractLinkedInIdFromUrl url = Some id ->
  exists before after,
    url = (before ++ js "/in/" ++ id ++ after)%list /\
    id <> [] /\
    Forall (fun c => c <> 47%N /\ c <> 63%N) id /\
    match after with
    | [] => True
    | c :: _ => c = 47%N \/ c = 63%N
    end.
Proof. apply extractLinkedInIdFromUrl_parts. Qed.

Lemma extractLinkedInIdFromUrl_sound_witness :
  exists before after,
    js "https://www.linkedin.com/in/john-doe/details"
    = (before ++ js "/in/" ++ js "john-doe" ++ after)%list /\
    js "john-doe" <> [] /\
    Forall (fun c => c <> 47%N /\ c <> 63%N) (js "john-doe") /\
    match after with
    | [] => True
    | c :: _ => c = 47%N \/ c = 63%N
    end.
Proof.
  apply (extractLinkedInIdFromUrl_sound
           (js "https://www.linkedin.com/in/john-doe/details") (js "john-doe")).
  vm_compute. reflexivity.
Defined.

(** X17.  A URL with [/in/] followed by a code unit other than [/] and [?] has
    an identifier; no other URL has one. *)
Theorem extractLinkedInIdFromUrl_finds (url : jsstring) :
  extractLinkedInIdFromUrl url <> None <->
  exists before c after,
    url = (before ++ js "/in/" ++ c :: after)%list /\
    c <> 47%N /\ c <> 63%N.
Proof.
  split.
  - destruct (extractLinkedInIdFromUrl url) as [id|] eqn:Hid; [|congruence].
    intros _.
    apply extractLinkedInIdFromUrl_parts in Hid
      as (before & after & -> & Hne & Hall & _).
    destruct id as [|c id]; [congruence|].
    inversion Hall as [|? ? [H1 H2] _]; subst.
    exists before, c, (id ++ after)%list. auto.
  - intros (before & x & after & -> & H1 & H2).
    set (p := fun c : N => negb ((c =? 47) || (c =? 63))%N).
    assert (Hx : p x = true).
    { subst p. cbn beta. apply negb_true_iff, orb_false_iff.
      split; apply N.eqb_neq; assumption. }
    assert (Hrun : Regex.rmatch linkedin_id_regex
                     (js "/in/" ++ x :: after)%list []
                     (fun _ c => Some c) <> None).
    { change (Regex.rmatch (Regex.Plus (Regex.Lit p)) (x :: after) []
                (fun s' c' =>
                   Some ((1%nat,
                          take (length (x :: after) - length s')%nat
                               (x :: after)) :: c')) <> None).
      pose proof (rmatch_Plus_Lit_greedy p
                    (fun s' c' =>
                       Some ((1%nat,
                              take (length (x :: after) - length s')%nat
                                   (x :: after)) :: c'))
                    ltac:(discriminate) (x :: after) []) as Hgreedy.
      cbn iota in Hgreedy. rewrite Hx in Hgreedy.
      destruct Hgreedy as (a & b & _ & _ & _ & _ & Heq).
      rewrite Heq. discriminate. }
    unfold extractLinkedInIdFromUrl.
    pose proof (search_succeeds linkedin_id_regex
                  (js "/in/" ++ x :: after)%list Hrun before) as Hfound.
    destruct (Regex.search linkedin_id_regex
                (before ++ js "/in/" ++ x :: after)%list) as [c|] eqn:Hsearch;
      [|congruence].
    apply search_finds in Hsearch as (before' & rest & _ & Hmatch).
    apply linkedin_id_match in Hmatch as (id & _ & _ & _ & _ & _ & ->).
    cbn. discriminate.
Qed.

(* ================================================================== *)
(** * Further properties of a collection session *)
(* ================================================================== *)

Section SessionProofs.

Context `{SelectorEngine}.

Lemma querySelector_fails (root : Element) (g : selector_list) :
  fails_only (querySelector root g).
Proof.
  unfold querySelector. destruct (parses g); cbn; [exact I|].
  right; right; right. eauto.
Qed.

Lemma querySelectorAll_fails (root : Element) (g : selector_list) :
  fails_only (querySelectorAll root g).
Proof.
  unfold querySelectorAll. destruct (parses g); cbn; [exact I|].
  right; right; right. eauto.
Qed.

Lemma bindR_fails {A B} (x : Res A) (k : A -> Res B) :
  fails_only x -> (forall a, fails_only (k a)) -> fails_only (bindR x k).
Proof. destruct x as [a|e]; cbn; auto. Qed.

Lemma detectBotProtection_fails (document : Element) :
  fails_only (detectBotProtection document).
Proof.
  unfold detectBotProtection.
  repeat (apply bindR_fails; [apply querySelector_fails|intros ?]).
  exact I.
Qed.

Lemma parseSearchResults_fails : reads parseSearchResults fails_only.
Proof.
  unfold parseSearchResults.
  eapply reads_try_catchM with (Q1 := fails_only).
  - eapply reads_bind; [apply reads_await, reads_randomDelay| |]; [|intros e He; discriminate].
    intros _ _.
    eapply reads_bind; [apply reads_get_document| |];
      [|intros e (d & Hd); discriminate].
    intros document _.
    eapply reads_bind with (Q1 := fails_only);
      [apply reads_lift, detectBotProtection_fails| |auto].
    intros blocked _. destruct blocked.
    { apply reads_throw. right; left. reflexivity. }
    eapply reads_bind with (Q1 := fails_only);
      [apply reads_lift, querySelectorAll_fails| |auto].
    intros resultItems _.
    destruct (length resultItems =? 0)%nat.
    + eapply reads_bind with (Q1 := fails_only);
        [apply reads_lift, querySelectorAll_fails| |auto].
      intros alternativeItems _.
      destruct (length alternativeItems =? 0)%nat.
      * apply reads_ret. exact I.
      * eapply reads_weaken; [apply extract_items_spec; constructor|].
        intros r (l & -> & _). exact I.
    + eapply reads_weaken; [apply extract_items_spec; constructor|].
      intros r (l & -> & _). exact I.
  - auto.
  - intros e He. apply reads_throw. exact He.
Qed.

Lemma hasNextPage_fails : reads hasNextPage fails_only.
Proof.
  unfold hasNextPage.
  eapply reads_bind; [apply reads_get_document| |];
    [|intros e (d & Hd); discriminate].
  intros document _.
  eapply reads_bind with (Q1 := fails_only);
    [apply reads_lift, querySelector_fails| |auto].
  intros [nextButton|] _; apply reads_ret; exact I.
Qed.

Lemma navigateToNextPage_fails : reads navigateToNextPage fails_only.
Proof.
  unfold navigateToNextPage.
  eapply reads_bind; [apply reads_get_document| |];
    [|intros e (d & Hd); discriminate].
  intros document _.
  eapply reads_bind with (Q1 := fails_only);
    [apply reads_lift, querySelector_fails| |auto].
  intros [nextButton|] _;
    [|apply reads_throw; right; right; left; reflexivity].
  eapply reads_bind; [apply reads_await, reads_humanScroll| |]; [|intros e He; discriminate].
  intros _ _.
  eapply reads_bind; [apply reads_await, reads_randomDelay| |]; [|intros e He; discriminate].
  intros _ _.
  eapply reads_weaken; [apply reads_click_and_load|].
  intros r ->. exact I.
Qed.

(** The page loop counts a page for every page it parses: at most one per
    iteration, at least one when it ends without an exception; and it
    fails in the four ways only. *)
Lemma page_loop_outcome (remaining : nat) :
  forall flag s w r p' w',
    page_loop remaining (mkParser flag (Some s)) w = (r, p', w') ->
    exists s',
      p' = mkParser flag (Some s') /\
      (Session.pagesProcessed s <= Session.pagesProcessed s'
       <= Session.pagesProcessed s + remaining)%nat /\
      (r = Ok tt -> remaining <> 0%nat ->
       (Session.pagesProcessed s < Session.pagesProcessed s')%nat) /\
      fails_only r.
Proof.
  induction remaining as [|n IH]; intros flag s w r p' w' Hrun.
  - inversion Hrun; subst. exists s.
    split; [reflexivity|]. split; [lia|]. split; [congruence|exact I].
  - cbn [page_loop] in Hrun.
    apply bind_inv in Hrun as [(now & p1 & w1 & Hnow & Hrun)|(e & Hnow & _)];
      [|inversion Hnow].
    inversion Hnow; subst p1 w1 now; clear Hnow.
    apply bind_inv in Hrun as [(s0 & p1 & w1 & Hget & Hrun)|(e & Hget & _)];
      [|inversion Hget].
    inversion Hget; subst p1 w1 s0; clear Hget.
    destruct (_ >? Config.sessionTimeout).
    { inversion Hrun; subst. exists s.
      split; [reflexivity|]. split; [lia|]. split; [discriminate|].
      left. reflexivity. }
    apply bind_inv in Hrun as [(l & p1 & w1 & Hparse & Hrun)|(e & Hparse & ->)].
    2:{ rewrite await_quiet in Hparse; apply parseSearchResults_fails in Hparse as [-> Hfail].
        exists s. split; [reflexivity|]. split; [lia|].
        split; [discriminate|exact Hfail]. }
    rewrite await_quiet in Hparse; apply parseSearchResults_fails in Hparse as [-> _].
    apply bind_inv in Hrun as [([] & p1 & w2 & Hrec & Hrun)|(e & Hrec & _)];
      [|rewrite record_page_some in Hrec; inversion Hrec].
    rewrite record_page_some in Hrec. inversion Hrec; subst p1 w2; clear Hrec.
    set (s1 := Session.mk _ _ _ _) in Hrun.
    assert (Hs1 : Session.pagesProcessed s1 = S (Session.pagesProcessed s))
      by reflexivity.
    apply bind_inv in Hrun as [(more & p1 & w2 & Hnext & Hrun)|(e & Hnext & ->)].
    2:{ apply hasNextPage_fails in Hnext as [-> Hfail].
        exists s1. split; [reflexivity|]. split; [lia|].
        split; [discriminate|exact Hfail]. }
    apply hasNextPage_fails in Hnext as [-> _].
    destruct more; cbn [negb] in Hrun.
    2:{ inversion Hrun; subst. exists s1.
        split; [reflexivity|]. split; [lia|]. split; [lia|exact I]. }
    apply bind_inv in Hrun as [([] & p1 & w3 & Hdelay & Hrun)|(e & Hdelay & _)];
      [|inversion Hdelay].
    inversion Hdelay; subst p1 w3; clear Hdelay.
    apply bind_inv in Hrun as [([] & p1 & w3 & Hnav & Hrun)|(e & Hnav & ->)].
    2:{ rewrite await_quiet in Hnav; apply navigateToNextPage_fails in Hnav as [-> Hfail].
        exists s1. split; [reflexivity|]. split; [lia|].
        split; [discriminate|exact Hfail]. }
    rewrite await_quiet in Hnav; apply navigateToNextPage_fails in Hnav as [-> _].
    apply IH in Hrun as (s' & -> & Hmost & Hleast & Hfail).
    exists s'. split; [reflexivity|]. split; [lia|].
    split; [|exact Hfail].
    intros Hok _. lia.
Qed.

(** a call on an idle parser, in terms of its page loop *)
Lemma parseAllMutualConnections_outcome profileData s0 w r p' w' :
  parseAllMutualConnections profileData (mkParser false s0) w = (r, p', w') ->
  exists s,
    p' = mkParser false (Some s) /\
    (Session.pagesProcessed s <= Config.maxPagesPerSession)%nat /\
    fails_only r /\
    forall payload, r = Ok payload ->
      (1 <= Aggregate.pagesScraped payload)%nat /\
      Aggregate.pagesScraped payload = Session.pagesProcessed s.
Proof.
  unfold parseAllMutualConnections, bind at 1, get_this. cbn [isProcessing].
  unfold bind at 1, set_this at 1. unfold bind at 1, Date_now at 1.
  unfold bind at 1, set_this at 1, try_finally.
  cbn [clock ticks random draws pages page_ix currentSession].
  match goal with
  | |- context [bind ?m ?k ?p ?w0] =>
      destruct (bind m k p w0) as [[r1 p1] w1] eqn:Hbody
  end.
  intros Heq. inversion Heq; subst r p' w'; clear Heq.
  apply bind_inv in Hbody as [([] & p2 & w2 & Hloop & Hbuild)|(e & Hloop & ->)].
  - apply page_loop_outcome in Hloop as (s & -> & Hmost & Hleast & _).
    rewrite buildWebhookPayload_some in Hbuild.
    inversion Hbuild; subst. exists s. cbn in *.
    split; [reflexivity|]. split; [lia|]. split; [exact I|].
    intros pl Hp; inversion Hp; subst; cbn.
    specialize (Hleast eq_refl ltac:(discriminate)). split; [lia|reflexivity].
  - apply page_loop_outcome in Hloop as (s & -> & Hmost & _ & Hfail).
    exists s. cbn in *.
    split; [reflexivity|]. split; [lia|]. split; [exact Hfail|].
    intros pl Hp; discriminate.
Qed.

End SessionProofs.

(** X18.  A collection run that returns a payload has parsed at least one page
    and at most [maxPagesPerSession], 50, of them. *)
Theorem pages_are_capped `{SelectorEngine} (profileData : ProfileData.t)
        (this : Parser) (w : World) (payload : Aggregate.t) :
  (parseAllMutualConnections profileData this w).1.1 = Ok payload ->
  (1 <= Aggregate.pagesScraped payload <= 50)%nat.
Proof.
  destruct this as [[] s0]; [discriminate|].
  destruct (parseAllMutualConnections profileData (mkParser false s0) w)
    as [[r p'] w'] eqn:Hrun.
  cbn [fst]. intros ->.
  apply parseAllMutualConnections_outcome in Hrun
    as (s & _ & Hmost & _ & Hpayload).
  destruct (Hpayload payload eq_refl) as [Hleast Hpages].
  change Config.maxPagesPerSession with 50%nat in Hmost. lia.
Qed.

Lemma pages_are_capped_witness :
  exists payload,
    (@parseAllMutualConnections Fixtures.results_engine quiet Fixtures.source_profile
       new_Parser Fixtures.quick_world).1.1 = Ok payload /\
    (1 <= Aggregate.pagesScraped payload <= 50)%nat.
Proof.
  eexists. split; [vm_compute; reflexivity|].
  apply (@pages_are_capped Fixtures.results_engine
           Fixtures.source_profile new_Parser Fixtures.quick_world).
  vm_compute. reflexivity.
Defined.

(** X19.  The message listener runs every request on a parser of its own, so a
    request is never refused as already in progress: a collection run it
    starts fails only by the session timeout, by bot protection, by a
    next-page button that is gone, or by a selector the browser rejects. *)
Theorem listener_never_refuses `{SelectorEngine} (profileData : ProfileData.t)
        (w : World) :
  match (parseAllMutualConnections profileData new_Parser w).1.1 with
  | Ok _ => True
  | Throw e =>
      e = Error "Session timeout exceeded" \/
      e = Error "Bot protection detected - aborting parsing" \/
      e = Error "Next page button not found" \/
      exists g, e = SyntaxError g
  end /\
  (on_parseAllMutualConnections profileData w).1
  <> Failure "Parsing already in progress".
Proof.
  unfold on_parseAllMutualConnections, new_Parser. rewrite await_quiet.
  destruct (parseAllMutualConnections profileData (mkParser false None) w)
    as [[r p'] w'] eqn:Hrun.
  apply parseAllMutualConnections_outcome in Hrun as (s & _ & _ & Hfail & _).
  destruct r as [payload|e]; cbn; [split; [exact I|discriminate]|].
  split; [exact Hfail|].
  destruct Hfail as [->|[->|[->|[g ->]]]]; cbn; discriminate.
Qed.

(** X20.  Whatever a call on an idle parser does, return or throw, it leaves
    the parser idle, and leaves the session it built in place. *)
Theorem parser_is_idle_after_a_call `{SelectorEngine}
        (profileData : ProfileData.t) (session : option Session.t)
        (w : World) :
  let this' := (parseAllMutualConnections profileData
                  (mkParser false session) w).1.2 in
  isProcessing this' = false /\
  exists s, currentSession this' = Some s /\
            Session.profileData s = profileData /\
            Session.startTime s = clock w (ticks w).
Proof.
  cbn zeta.
  destruct (parseAllMutualConnections profileData (mkParser false session) w)
    as [[r p'] w'] eqn:Hrun.
  apply parseAllMutualConnections_idle in Hrun
    as (s & -> & Hpd & Hst & _). cbn. eauto.
Qed.

(** X21.  Bot protection ends a collection run at once: when the page in front
    of an idle parser shows one of the signs [detectBotProtection] looks
    for, the call reads no row, throws
    [Error "Bot protection detected - aborting parsing"], and leaves the
    parser idle with an empty session without a page counted.  (The
    session must not have timed out between the first two readings of the
    clock.) *)
Theorem bot_protection_aborts `{SelectorEngine} (profileData : ProfileData.t)
        (session : option Session.t) (w : World) :
  detectBotProtection (pages w (page_ix w)) = Ok true ->
  clock w (S (ticks w)) - clock w (ticks w) <= Config.sessionTimeout ->
  parseAllMutualConnections profileData (mkParser false session) w
  = (Throw (Error "Bot protection detected - aborting parsing"),
     mkParser false (Some (Session.mk profileData (clock w (ticks w)) [] 0)),
     tick (tick w)).
Proof.
  intros Hblocked Hclock.
  assert (Hloop : page_loop Config.maxPagesPerSession
                    (fresh_session profileData w) (tick w)
                  = (Throw (Error "Bot protection detected - aborting parsing"),
                     fresh_session profileData w, tick (tick w))).
  { change Config.maxPagesPerSession with (S 49). cbn [page_loop].
    unfold bind at 1, Date_now at 1. unfold bind at 1.
    unfold fresh_session. rewrite get_session_some.
    cbn [clock ticks random draws pages page_ix tick Session.startTime].
    replace (_ >? Config.sessionTimeout) with false
      by (symmetry; rewrite Z.gtb_ltb; apply Z.ltb_ge; lia).
    unfold bind at 1. rewrite await_quiet.
    unfold parseSearchResults, try_catchM.
    unfold bind at 1. rewrite await_quiet.
    unfold randomDelay, suspend. cbn [meanwhile quiet].
    unfold bind at 1, get_document.
    cbn [clock ticks random draws pages page_ix].
    unfold bind at 1, lift. rewrite Hblocked. reflexivity. }
  apply (page_loop_throw_propagates _ session) in Hloop. exact Hloop.
Qed.

Lemma bot_protection_aborts_witness :
  @parseAllMutualConnections Fixtures.results_engine quiet Fixtures.source_profile
    (mkParser false None) Worlds.blocked_world
  = (Throw (Error "Bot protection detected - aborting parsing"),
     mkParser false
       (Some (Session.mk Fixtures.source_profile
                (clock Worlds.blocked_world (ticks Worlds.blocked_world)) [] 0)),
     tick (tick Worlds.blocked_world)).
Proof.
  apply (@bot_protection_aborts Fixtures.results_engine Fixtures.source_profile
           None Worlds.blocked_world).
  - vm_compute. reflexivity.
  - vm_compute. discriminate.
Defined.

(* ================================================================== *)
(** * Properties of the profile page *)
(* ================================================================== *)

Section ProfileProofs.

Context `{SelectorEngine}.

(** [extractElementText] never throws, and a text it returns is
    trimmed. *)
Lemma extractElementText_spec (parentElement : Element)
      (selector : selector_list) :
  exists o, extractElementText parentElement selector = Ok o /\
            forall t, o = Some t -> trim t = t.
Proof.
  unfold extractElementText.
  destruct (querySelector parentElement selector) as [[element|]|e];
    cbn [bindR try_catch]; eexists; (split; [reflexivity|]);
    intros t Ht; try discriminate.
  inversion Ht; subst. apply trim_idem.
Qed.

Lemma proper_text_intro (o : option jsstring) :
  (forall t, o = Some t -> trim t = t) ->
  truthy_opt o = true -> proper_text o.
Proof.
  intros Htrim Htruthy. destruct o as [t|]; [|discriminate].
  exists t. split; [reflexivity|]. split; [|auto].
  apply truthy_nonempty. exact Htruthy.
Qed.

Lemma experience_items_spec (items : list Element) :
  forall experiences,
    Forall (fun e => proper_text (Experience.title e)) experiences ->
    exists l, experience_items items experiences = Ok l /\
              Forall (fun e => proper_text (Experience.title e)) l /\
              (length l <= length experiences + length items)%nat.
Proof.
  induction items as [|item rest IH]; intros experiences Hacc;
    cbn [experience_items].
  - exists experiences. split; [reflexivity|]. split; [exact Hacc|lia].
  - repeat match goal with
           | |- context [extractElementText item ?g] =>
               let o := fresh "o" in
               let Hrun := fresh "Hrun" in
               let Htrim := fresh "Htrim" in
               destruct (extractElementText_spec item g) as (o & Hrun & Htrim);
               rewrite Hrun; cbn [bindR]
           end.
    cbn [Experience.title].
    match goal with
    | |- context [if truthy_opt ?o then _ else _] =>
        destruct (truthy_opt o) eqn:Htitle
    end.
    + match goal with
      | |- context [experience_items rest ?acc] =>
          destruct (IH acc) as (l & Hl & Hall & Hlen)
      end.
      { apply Forall_app. split; [exact Hacc|].
        constructor; [|constructor]. cbn.
        eapply proper_text_intro; eassumption. }
      exists l. split; [exact Hl|]. split; [exact Hall|].
      rewrite length_app in Hlen. cbn in *. lia.
    + destruct (IH experiences Hacc) as (l & Hl & Hall & Hlen).
      exists l. split; [exact Hl|]. split; [exact Hall|]. cbn. lia.
Qed.

Lemma education_items_spec (items : list Element) :
  forall educations,
    Forall (fun e => proper_text (Education.school e)) educations ->
    exists l, education_items items educations = Ok l /\
              Forall (fun e => proper_text (Education.school e)) l /\
              (length l <= length educations + length items)%nat.
Proof.
  induction items as [|item rest IH]; intros educations Hacc;
    cbn [education_items].
  - exists educations. split; [reflexivity|]. split; [exact Hacc|lia].
  - repeat match goal with
           | |- context [extractElementText item ?g] =>
               let o := fresh "o" in
               let Hrun := fresh "Hrun" in
               let Htrim := fresh "Htrim" in
               destruct (extractElementText_spec item g) as (o & Hrun & Htrim);
               rewrite Hrun; cbn [bindR]
           end.
    cbn [Education.school].
    match goal with
    | |- context [if truthy_opt ?o then _ else _] =>
        destruct (truthy_opt o) eqn:Hschool
    end.
    + match goal with
      | |- context [education_items rest ?acc] =>
          destruct (IH acc) as (l & Hl & Hall & Hlen)
      end.
      { apply Forall_app. split; [exact Hacc|].
        constructor; [|constructor]. cbn.
        eapply proper_text_intro; eassumption. }
      exists l. split; [exact Hl|]. split; [exact Hall|].
      rewrite length_app in Hlen. cbn in *. lia.
    + destruct (IH educations Hacc) as (l & Hl & Hall & Hlen).
      exists l. split; [exact Hl|]. split; [exact Hall|]. cbn. lia.
Qed.

Lemma skill_items_spec (items : list Element) :
  forall skills,
    Forall (fun e => proper_text (Skill.name e)) skills ->
    exists l, skill_items items skills = Ok l /\
              Forall (fun e => proper_text (Skill.name e)) l /\
              (length l <= length skills + length items)%nat.
Proof.
  induction items as [|item rest IH]; intros skills Hacc;
    cbn [skill_items].
  - exists skills. split; [reflexivity|]. split; [exact Hacc|lia].
  - repeat match goal with
           | |- context [extractElementText item ?g] =>
               let o := fresh "o" in
               let Hrun := fresh "Hrun" in
               let Htrim := fresh "Htrim" in
               destruct (extractElementText_spec item g) as (o & Hrun & Htrim);
               rewrite Hrun; cbn [bindR]
           end.
    cbn [Skill.name].
    match goal with
    | |- context [if truthy_opt ?o then _ else _] =>
        destruct (truthy_opt o) eqn:Hname
    end.
    + match goal with
      | |- context [skill_items rest ?acc] =>
          destruct (IH acc) as (l & Hl & Hall & Hlen)
      end.
      { apply Forall_app. split; [exact Hacc|].
        constructor; [|constructor]. cbn.
        eapply proper_text_intro; eassumption. }
      exists l. split; [exact Hl|]. split; [exact Hall|].
      rewrite length_app in Hlen. cbn in *. lia.
    + destruct (IH skills Hacc) as (l & Hl & Hall & Hlen).
      exists l. split; [exact Hl|]. split; [exact Hall|]. cbn. lia.
Qed.

Lemma extractExperienceData_spec (document : Element) :
  exists l, extractExperienceData document = Ok l /\
            Forall (fun e => proper_text (Experience.title e)) l.
Proof.
  unfold extractExperienceData.
  destruct (querySelector document ProfileSelectors.experienceSection)
    as [[section|]|e]; cbn [bindR try_catch]; [|eauto..].
  destruct (querySelectorAll section _) as [items|e]; cbn [bindR try_catch];
    [|eauto].
  destruct (experience_items_spec items [] ltac:(constructor))
    as (l & -> & Hall & _).
  cbn. eauto.
Qed.

Lemma extractEducationData_spec (document : Element) :
  exists l, extractEducationData document = Ok l /\
            Forall (fun e => proper_text (Education.school e)) l.
Proof.
  unfold extractEducationData.
  destruct (querySelector document ProfileSelectors.educationSection)
    as [[section|]|e]; cbn [bindR try_catch]; [|eauto..].
  destruct (querySelectorAll section _) as [items|e]; cbn [bindR try_catch];
    [|eauto].
  destruct (education_items_spec items [] ltac:(constructor))
    as (l & -> & Hall & _).
  cbn. eauto.
Qed.

Lemma extractSkillsData_spec (document : Element) :
  exists l, extractSkillsData document = Ok l /\
            Forall (fun e => proper_text (Skill.name e)) l.
Proof.
  unfold extractSkillsData.
  destruct (querySelector document ProfileSelectors.skillsSection)
    as [[section|]|e]; cbn [bindR try_catch]; [|eauto..].
  destruct (querySelectorAll section _) as [items|e]; cbn [bindR try_catch];
    [|eauto].
  destruct (skill_items_spec items [] ltac:(constructor))
    as (l & -> & Hall & _).
  cbn. eauto.
Qed.

End ProfileProofs.

(** X22.  The three section extractions never throw, and list an entry only
    with its leading text: every experience has a title, every education a
    school and every skill a name that is present, not empty and
    trimmed. *)
Theorem profile_sections_list_named_entries `{SelectorEngine}
        (document : Element) :
  (exists l, extractExperienceData document = Ok l /\
             Forall (fun e => proper_text (Experience.title e)) l) /\
  (exists l, extractEducationData document = Ok l /\
             Forall (fun e => proper_text (Education.school e)) l) /\
  (exists l, extractSkillsData document = Ok l /\
             Forall (fun e => proper_text (Skill.name e)) l).
Proof.
  split; [apply extractExperienceData_spec|].
  split; [apply extractEducationData_spec|apply extractSkillsData_spec].
Qed.

Section CountProofs.

Lemma no_capture_word_with (f : ascii -> Regex.regex) (w : string) :
  (forall a, no_capture (f a) = true) ->
  no_capture (Regex.word_with f w) = true.
Proof.
  intros Hf. induction w as [|a w IH]; cbn; [reflexivity|].
  rewrite Hf, IH. reflexivity.
Qed.

Lemma no_capture_word_i (w : string) : no_capture (Regex.word_i w) = true.
Proof. apply no_capture_word_with. reflexivity. Qed.

(** the code units of a match lie within the classes of the regular
    expression *)
Lemma matched_within (q : N -> Prop) (r : Regex.regex) a n :
  matched r a n -> within q r -> Forall q a.
Proof.
  induction 1 as [|p x Hp|r1 r2 a b n1 n2 _ IH1 _ IH2| |r a n _ IH
                  |r a n _ IH|r a b n1 n2 _ IH1 _ IH2|i r a n _ IH];
    cbn [within]; intros Hq; auto.
  - destruct Hq as [H1 H2]. apply Forall_app; auto.
  - apply Forall_app; auto.
Qed.

(** a captured run of digits at the start of a regular expression whose
    rest captures nothing *)
Lemma digits_capture (rest : Regex.regex) (text : jsstring) (c : Regex.caps) :
  no_capture rest = true ->
  Regex.search (Regex.Seq (Regex.Capture 1 (Regex.Plus Regex.digit)) rest) text
  = Some c ->
  exists digits, numeral digits /\ Regex.cap_get 1 c = Some digits.
Proof.
  intros Hrest Hsearch.
  apply search_sound in Hsearch as (before & a & after & -> & Ha).
  inversion Ha as [| |r1 r2 a1 a2 n1 n2 Hcap Hr| | | | |]; subst.
  inversion Hcap as [| | | | | | |i r a0 n0 Hdigits]; subst.
  apply matched_Plus_Lit in Hdigits as (Hne & Hall & ->).
  apply matched_no_capture in Hr; [|exact Hrest]. subst n2.
  exists a1. split; [split; assumption|reflexivity].
Qed.

Lemma remove_commas_digits (s : jsstring) :
  Forall (fun c => is_digit c = true) s -> remove_commas s = s.
Proof.
  induction 1 as [|c s Hc _ IH]; [reflexivity|].
  unfold remove_commas in *. cbn [List.filter].
  apply digit_cases in Hc.
  destruct Hc as [->|[->|[->|[->|[->|[->|[->|[->|[->| ->]]]]]]]]];
    cbn; rewrite IH; reflexivity.
Qed.

Lemma remove_commas_within (s : jsstring) :
  Forall (fun c => is_digit c = true \/ c = 44%N) s ->
  Forall (fun c => is_digit c = true) (remove_commas s).
Proof.
  induction 1 as [|c s Hc _ IH]; [constructor|].
  unfold remove_commas in *. cbn [List.filter].
  destruct Hc as [Hc| ->]; [|exact IH].
  destruct (N.eqb_spec c 44) as [->|_]; [discriminate Hc|].
  cbn. constructor; assumption.
Qed.

(** a count read off a text is a numeral *)
Lemma count_in_numeral (noun : string) (text s : jsstring) :
  count_in (count_regex noun) text = Some s -> numeral s.
Proof.
  unfold count_in.
  destruct (Regex.search (count_regex noun) text) as [c|] eqn:Hsearch;
    [|discriminate].
  intros Hs. inversion Hs; subst s; clear Hs.
  apply search_sound in Hsearch as (before & a & after & -> & Ha).
  unfold count_regex in Ha.
  inversion Ha as [| |r1 r2 a1 a2 n1 n2 Hcap Hr| | | | |]; subst.
  inversion Hcap as [| | | | | | |i r a0 n0 Hgroup]; subst.
  apply matched_no_capture in Hr;
    [|cbn; rewrite no_capture_word_i; reflexivity]. subst n2.
  cbn [app Regex.cap_get Nat.eqb default from_option].
  change (numeral (remove_commas a1)).
  inversion Hgroup as [| |r1 r2 d e n1 n2 Hd He| | | | |]; subst.
  apply matched_Plus_Lit in Hd as (Hne & Hall & _).
  apply (matched_within (fun c => is_digit c = true \/ c = 44%N)) in He.
  2:{ unfold star, Regex.chr, Regex.digit. cbn [within].
      split; [|intros x Hx; left; exact Hx].
      intros x Hx. right. apply N.eqb_eq in Hx. exact Hx. }
  unfold remove_commas. rewrite List.filter_app.
  fold (remove_commas d). fold (remove_commas e).
  rewrite remove_commas_digits by exact Hall.
  split.
  - destruct d; [congruence|discriminate].
  - apply Forall_app. split; [exact Hall|apply remove_commas_within, He].
Qed.

(** the identifier [/\/in\/([^/]+)/] captures *)
Lemma profile_id_parts (url id : jsstring) :
  match Regex.search profile_id_regex url with
  | Some urlMatch => Regex.cap_get 1 urlMatch
  | None => None
  end = Some id ->
  exists before after,
    url = (before ++ js "/in/" ++ id ++ after)%list /\
    id <> [] /\ Forall (fun c => c <> 47%N) id /\
    match after with
    | [] => True
    | c :: _ => c = 47%N
    end.
Proof.
  destruct (Regex.search profile_id_regex url) as [c|] eqn:Hsearch;
    [|discriminate].
  intros Hcap.
  apply search_finds in Hsearch as (before & rest & -> & Hrun).
  unfold profile_id_regex in Hrun.
  apply id_match in Hrun as (id' & after & -> & Hne & Hall & Hend & ->).
  cbn [Regex.cap_get Nat.eqb] in Hcap. inversion Hcap; subst id'.
  exists before, after.
  split; [reflexivity|]. split; [exact Hne|]. split.
  - eapply Forall_impl; [exact Hall|]. intros y Hy. cbn beta in Hy.
    apply negb_true_iff, N.eqb_neq in Hy. exact Hy.
  - destruct after as [|y after']; [exact I|].
    cbn beta in Hend. apply negb_false_iff, N.eqb_eq in Hend. exact Hend.
Qed.

End CountProofs.

Section ProfilePageProofs.

Context `{SelectorEngine}.

Lemma extractTextContent_trimmed (document : Element)
      (selector : selector_list) :
  exists o, extractTextContent document selector = Ok o /\
            forall t, o = Some t -> trim t = t.
Proof.
  unfold extractTextContent.
  destruct (querySelector document selector) as [[element|]|e];
    cbn [bindR try_catch]; eexists; (split; [reflexivity|]);
    intros t Ht; try discriminate.
  inversion Ht; subst. apply trim_idem.
Qed.

(** [parseProfilePage] leaves [this] alone, never throws, and a profile
    it returns is well formed. *)
Lemma parseProfilePage_reads (location_href : jsstring) :
  reads (parseProfilePage location_href)
        (fun r => exists o, r = Ok o /\
                  forall profile, o = Some profile ->
                                  well_formed_profile location_href profile).
Proof.
  unfold parseProfilePage.
  set (Qtext := fun r : Res (option jsstring) =>
                  exists o, r = Ok o /\ forall t, o = Some t -> trim t = t).
  eapply reads_try_catchM
    with (Q1 := fun r => forall profile,
                  r = Ok (Some profile) ->
                  well_formed_profile location_href profile).
  - eapply reads_bind; [apply reads_get_document| |];
      [|intros e (d & Hd); discriminate].
    intros document _.
    eapply reads_bind with (Q1 := Qtext);
      [apply reads_lift, extractTextContent_trimmed| |];
      [|intros e _ profile Hp; discriminate].
    intros name (? & Hname' & Hname). inversion Hname'; subst; clear Hname'.
    eapply reads_bind with (Q1 := Qtext);
      [apply reads_lift, extractTextContent_trimmed| |];
      [|intros e _ profile Hp; discriminate].
    intros title (? & Htitle' & Htitle). inversion Htitle'; subst; clear Htitle'.
    eapply reads_bind with (Q1 := Qtext);
      [apply reads_lift, extractTextContent_trimmed| |];
      [|intros e _ profile Hp; discriminate].
    intros location (? & Hloc' & Hloc). inversion Hloc'; subst; clear Hloc'.
    eapply reads_bind with (Q1 := fun _ => True);
      [apply reads_lift; exact I| |];
      [|intros e _ profile Hp; discriminate].
    intros profileImageUrl _.
    eapply reads_bind with (Q1 := Qtext);
      [apply reads_lift, extractTextContent_trimmed| |];
      [|intros e _ profile Hp; discriminate].
    intros about (? & Habout' & Habout). inversion Habout'; subst; clear Habout'.
    eapply reads_bind; [apply reads_new_Date_toISOString| |];
      [|intros e He profile Hp; discriminate].
    intros extractedAt _.
    eapply reads_bind with (Q1 := fun _ => True);
      [apply reads_lift; exact I| |];
      [|intros e _ profile Hp; discriminate].
    intros connectionsElements _.
    eapply reads_bind with (Q1 := fun _ => True);
      [apply reads_lift; exact I| |];
      [|intros e _ profile Hp; discriminate].
    intros followersElement _.
    eapply reads_bind with (Q1 := fun _ => True);
      [apply reads_lift; exact I| |];
      [|intros e _ profile Hp; discriminate].
    intros mutualConnectionsElement _.
    eapply reads_bind with (Q1 := fun _ => True);
      [apply reads_lift; exact I| |];
      [|intros e _ profile Hp; discriminate].
    intros premiumElement _.
    eapply reads_bind
      with (Q1 := fun r => exists l, r = Ok l /\
                   Forall (fun e => proper_text (Experience.title e)) l);
      [apply reads_lift, extractExperienceData_spec| |];
      [|intros e _ profile Hp; discriminate].
    intros experience (? & Hexp' & Hexp). inversion Hexp'; subst; clear Hexp'.
    eapply reads_bind
      with (Q1 := fun r => exists l, r = Ok l /\
                   Forall (fun e => proper_text (Education.school e)) l);
      [apply reads_lift, extractEducationData_spec| |];
      [|intros e _ profile Hp; discriminate].
    intros education (? & Hedu' & Hedu). inversion Hedu'; subst; clear Hedu'.
    eapply reads_bind
      with (Q1 := fun r => exists l, r = Ok l /\
                   Forall (fun e => proper_text (Skill.name e)) l);
      [apply reads_lift, extractSkillsData_spec| |];
      [|intros e _ profile Hp; discriminate].
    intros skills (? & Hsk' & Hsk). inversion Hsk'; subst; clear Hsk'.
    apply reads_ret. intros profile Hp. inversion Hp; subst profile; clear Hp.
    unfold well_formed_profile. cbn.
    split; [reflexivity|].
    split; [exact Hname|]. split; [exact Htitle|]. split; [exact Hloc|].
    split; [exact Habout|].
    split.
    { intros s Hs.
      destruct (List.find _ connectionsElements) as [el|]; [|discriminate].
      inversion Hs as [Hcount]. eapply count_in_numeral. exact Hcount. }
    split.
    { intros s Hs. destruct followersElement as [el|]; [|discriminate].
      inversion Hs as [Hcount]. eapply count_in_numeral. exact Hcount. }
    split.
    { intros n Hn. destruct mutualConnectionsElement as [el|]; [|discriminate].
      destruct (Regex.search mutual_mention_regex _) as [c|] eqn:Hsearch;
        [|discriminate].
      unfold mutual_mention_regex in Hsearch.
      apply digits_capture in Hsearch as (digits & [_ Hall] & Hcap);
        [|reflexivity].
      rewrite Hcap in Hn. cbn [default from_option id] in Hn.
      inversion Hn as [Hvalue].
      eapply parseInt_digits_nonneg; [exact Hall|exact Hvalue]. }
    split; [intros id Hid; apply profile_id_parts; exact Hid|].
    auto.
  - intros o Ho. exists o. split; [reflexivity|].
    intros profile ->. apply Ho. reflexivity.
  - intros e _. apply reads_ret. exists None. split; [reflexivity|].
    intros profile Hp. discriminate.
Qed.

End ProfilePageProofs.

(** X23.  [parseProfilePage] never throws and leaves the parser as it was: it
    returns a profile or, when the browser rejects a selector, [null].  A
    profile it returns carries the address of the page as its URL,
    trimmed texts, connection and follower counts made of decimal digits
    only (the commas are gone), a count of mutual connections that is not
    negative, an identifier that is the part of the address between
    [/in/] and the next [/], and only experiences, educations and skills
    that have their title, school or name. *)
Theorem parseProfilePage_is_total `{SelectorEngine}
        (location_href : jsstring) (this : Parser) (w : World) :
  exists r,
    (parseProfilePage location_href this w).1.1 = Ok r /\
    (parseProfilePage location_href this w).1.2 = this /\
    forall profile, r = Some profile ->
                    well_formed_profile location_href profile.
Proof.
  destruct (parseProfilePage location_href this w) as [[r p'] w'] eqn:Hrun.
  apply parseProfilePage_reads in Hrun as [-> (o & -> & Ho)].
  exists o. auto.
Qed.

(** On the example page: the name is trimmed, "1,234 connections" and
    "5,678 followers" give 1234 and 5678, "12 mutual connections" gives 12,
    the identifier is carol-diaz, and of the two experience items the one
    with a title is listed. *)
Lemma parseProfilePage_is_total_witness :
  exists profile,
    (@parseProfilePage Worlds.profile_engine Worlds.profile_address
       new_Parser Worlds.profile_world).1.1 = Ok (Some profile) /\
    well_formed_profile Worlds.profile_address profile /\
    Profile.name profile = Some (js "Carol Diaz") /\
    Profile.connectionsCount profile = Some (Some (js "1234")) /\
    Profile.followersCount profile = Some (Some (js "5678")) /\
    Profile.mutualConnectionsCount profile = Some (Some (Num 12)) /\
    Profile.linkedinId profile = Some (js "carol-diaz") /\
    List.map Experience.title (Profile.experience profile)
    = [Some (js "Engineer")].
Proof.
  destruct (@parseProfilePage_is_total Worlds.profile_engine
              Worlds.profile_address new_Parser Worlds.profile_world)
    as (r & Hr & _ & Hwf).
  eexists. split; [vm_compute; reflexivity|].
  split; [|vm_compute; repeat split; reflexivity].
  apply Hwf.
  match goal with
  | |- r = ?x =>
      assert (Hx : Ok r = Ok x) by (rewrite <- Hr; vm_compute; reflexivity)
  end.
  inversion Hx. reflexivity.
Defined.

(* ================================================================== *)
(** * The estimate of the queued-notification *)
(* ================================================================== *)

Section EstimateProofs.

Context {P : Type} (clock : nat -> Z).

(** no call of [processQueue] turns the clock back *)
Lemma processQueue_rec_ticks (v : string) :
  forall fuel (s : @Background.State P),
    (Background.ticks s
     <= Background.ticks (Background.processQueue_rec clock fuel v s))%nat.
Proof.
  induction fuel as [|fuel IH]; intros s; cbn [Background.processQueue_rec].
  all: destruct (Background.webhookQueues s !! v) as [qd|]; [|lia].
  all: destruct (Background.queue qd) as [|item rest]; [lia|].
  all: cbn.
  all: destruct ((0 <? Background.rateLimit qd) && _);
    [destruct (Background.timer qd); cbn; lia|].
  all: destruct rest as [|item' rest']; [cbn; lia|].
  all: destruct (0 <? Background.rateLimit qd); [cbn; lia|]; try (cbn; lia).
  etransitivity; [|apply IH]. cbn. lia.
Qed.

Lemma step_ticks (s : @Background.State P) ev :
  (Background.ticks s <= Background.ticks (Background.step clock s ev))%nat.
Proof.
  destruct ev as [v p n r|id|ws]; cbn [Background.step].
  3:{ destruct (initializeQueues_spec ws s "") as (_ & _ & _ & Hk & _).
      cbn zeta in Hk. rewrite Hk. lia. }
  - unfold Background.addToQueue, Background.processQueue.
    cbv [Background.Date_now]. cbv beta iota zeta.
    etransitivity; [|apply processQueue_rec_ticks].
    match goal with
    | |- context [if ?b then _ else _] => destruct b
    end; cbn; lia.
  - unfold Background.timer_fires.
    destruct (Background.timers s !! id) as [[v due]|]; [|lia].
    unfold Background.processQueue.
    etransitivity; [|apply processQueue_rec_ticks]. cbn. lia.
Qed.

(** [processQueue] for an endpoint with a positive rate limit: nothing is
    dispatched, or the head of the queue is, stamped with the reading of
    the clock the call takes, which is at least the interval after the
    last send. *)
Lemma processQueue_rec_stamp (u : string) fuel (s : @Background.State P) qd :
  Background.webhookQueues s !! u = Some qd ->
  0 < Background.rateLimit qd ->
  exists qd',
    Background.webhookQueues (Background.processQueue_rec clock fuel u s) !! u
    = Some qd' /\
    Background.rateLimit qd' = Background.rateLimit qd /\
    ((Background.lastSent qd' = Background.lastSent qd /\
      Background.posted u (Background.processQueue_rec clock fuel u s)
      = Background.posted u s) \/
     (exists p,
        Background.lastSent qd' = clock (Background.ticks s) /\
        Background.lastSent qd + Background.rateLimit qd * 1000
        <= clock (Background.ticks s) /\
        Background.posted u (Background.processQueue_rec clock fuel u s)
        = (p, clock (Background.ticks s)) :: Background.posted u s)).
Proof.
  intros Hqd Hrl.
  assert (Hpos : (0 <? Background.rateLimit qd) = true) by (apply Z.ltb_lt; lia).
  destruct fuel as [|fuel]; cbn [Background.processQueue_rec]; rewrite Hqd.
  all: destruct (Background.queue qd) as [|item rest] eqn:Hq;
    [exists qd; rewrite Hqd; auto 10|].
  all: cbn; rewrite Hpos; cbn [andb].
  all: destruct (clock (Background.ticks s) - Background.lastSent qd
                <? Background.rateLimit qd * 1000) eqn:Hwait.
  1,3: destruct (Background.timer qd); cbn; rewrite lookup_insert_eq;
    eexists; (split; [reflexivity|]); cbn; auto 10.
  all: apply Z.ltb_ge in Hwait.
  all: destruct rest as [|item' rest']; cbn; rewrite ?Hpos; cbn;
    rewrite lookup_insert_eq; eexists; (split; [reflexivity|]); cbn;
    (split; [reflexivity|]); right; exists (Background.payload item);
    unfold Background.posted; cbn; rewrite String.eqb_refl;
    repeat split; try reflexivity; lia.
Qed.

Hypothesis clock_monotone :
  forall i j : nat, (i <= j)%nat -> clock i <= clock j.

(** A call of [processQueue] for the endpoint keeps the bound. *)
Lemma estimate_inv_processQueue (u : string) I now L0 (base : list (P * Z))
      T0 fuel (s : @Background.State P) :
  0 < I -> now = clock T0 ->
  estimate_inv u I now L0 base T0 clock s ->
  estimate_inv u I now L0 base T0 clock
    (Background.processQueue_rec clock fuel u s).
Proof.
  intros HI Hnow (Hticks & news & qd & Hposted & Hqd & Hrate & Hnews & Hlast).
  split; [etransitivity; [exact Hticks|apply processQueue_rec_ticks]|].
  destruct (processQueue_rec_stamp u fuel s qd Hqd ltac:(lia))
    as (qd' & Hqd' & Hrate' & [(Hl & Hp)|(p & Hl & Hgap & Hp)]).
  - exists news, qd'. rewrite Hp, Hl.
    repeat (split; [solve [auto|congruence]|]). exact Hlast.
  - exists ((p, clock (Background.ticks s)) :: news), qd'.
    rewrite Hp, Hposted.
    split; [reflexivity|]. split; [exact Hqd'|]. split; [congruence|].
    assert (Hstamp : now <= clock (Background.ticks s))
      by (subst now; apply clock_monotone; exact Hticks).
    assert (Hnew : Z.max (L0 + I * 1000) now
                   + Z.of_nat (length news) * (I * 1000)
                   <= clock (Background.ticks s)) by lia.
    split.
    + intros j t Hj. cbn [List.map snd rev] in Hj.
      destruct (lookup_app_Some (rev (List.map snd news))
                  [clock (Background.ticks s)] j t) as [Hcases _].
      destruct (Hcases Hj) as [Hold|[Hlen Hhere]]; [apply Hnews; exact Hold|].
      rewrite length_rev, length_map in Hlen, Hhere.
      destruct (j - length news)%nat as [|k] eqn:Hk; [|discriminate Hhere].
      inversion Hhere; subst t.
      replace j with (length news) by lia. exact Hnew.
    + rewrite Hl. cbn [length]. lia.
Qed.

(** One event keeps the bound. *)
Lemma estimate_inv_step (u : string) I now L0 (base : list (P * Z)) T0
      (s : @Background.State P) ev :
  0 < I -> now = clock T0 ->
  match ev with
  | Background.Enqueue v _ _ r => v = u -> r = I
  | Background.TimerFires _ => True
  | Background.StorageRead webhooks =>
      forall r, Background.configured u webhooks = Some r -> r = I
  end ->
  estimate_inv u I now L0 base T0 clock s ->
  estimate_inv u I now L0 base T0 clock (Background.step clock s ev).
Proof.
  intros HI Hnow Hev Hinv.
  assert (Hother : forall v fuel (s1 : @Background.State P),
             v <> u ->
             estimate_inv u I now L0 base T0 clock s1 ->
             estimate_inv u I now L0 base T0 clock
               (Background.processQueue_rec clock fuel v s1)).
  { intros v fuel s1 Hne (Hticks & news & qd & Hposted & Hqd & Hrest).
    destruct (processQueue_rec_other clock u v ltac:(congruence) fuel s1)
      as [Hq2 Hp2].
    split; [etransitivity; [exact Hticks|apply processQueue_rec_ticks]|].
    exists news, qd. rewrite Hq2, Hp2. auto. }
  destruct ev as [v p n r|id|ws]; cbn [Background.step].
  3:{ destruct Hinv
        as (Hticks & news & qd & Hposted & Hqd & Hrate & Hnews & Hlast).
      destruct (initializeQueues_spec ws s u) as (Hq & _ & _ & Hk & _).
      destruct (initializeQueues_views ws s u) as (Hp & _).
      cbn zeta in Hq, Hk, Hp.
      split; [rewrite Hk; exact Hticks|].
      rewrite Hp, Hq, Hqd.
      destruct (Background.configured u ws) as [r|].
      - specialize (Hev r eq_refl). subst r.
        eexists news, _. split; [exact Hposted|]. split; [reflexivity|].
        cbn. auto.
      - exists news, qd. auto. }
  - unfold Background.addToQueue, Background.processQueue.
    cbv [Background.Date_now]. cbv beta iota zeta.
    match goal with
    | |- context [Background.processQueue_rec clock _ v ?s0] => set (s1 := s0)
    end.
    set (qd0 := match Background.webhookQueues s !! v with
                | Some queueData => queueData
                | None => Background.mkQueueData [] 0 None r
                end) in *.
    assert (Hq1 : Background.webhookQueues s1
                  = <[v := Background.mkQueueData
                             (Background.queue qd0
                              ++ [Background.mkItem p n
                                    (clock (Background.ticks s))])%list
                             (Background.lastSent qd0) (Background.timer qd0)
                             r]> (Background.webhookQueues s))
      by (subst s1;
          match goal with
          | |- context [if ?b then _ else _] => destruct b
          end; reflexivity).
    assert (Hp1 : Background.posted u s1 = Background.posted u s)
      by (subst s1;
          match goal with
          | |- context [if ?b then _ else _] => destruct b
          end; reflexivity).
    assert (Hticks1 : (Background.ticks s <= Background.ticks s1)%nat)
      by (subst s1;
          match goal with
          | |- context [if ?b then _ else _] => destruct b
          end; cbn; lia).
    clearbody s1.
    destruct Hinv as (Hticks & news & qd & Hposted & Hqd & Hrate & Hnews & Hlast).
    destruct (String.eqb_spec v u) as [->|Hne].
    + specialize (Hev eq_refl). subst r.
      apply estimate_inv_processQueue; [assumption..|].
      split; [lia|].
      eexists news, _. rewrite Hp1, Hq1, lookup_insert_eq.
      split; [exact Hposted|]. split; [reflexivity|].
      subst qd0. rewrite Hqd.
      cbn [Background.rateLimit Background.lastSent]. auto.
    + apply Hother; [assumption|].
      split; [lia|].
      exists news, qd. rewrite Hp1, Hq1, lookup_insert_ne by assumption. auto.
  - unfold Background.timer_fires.
    destruct (Background.timers s !! id) as [[v due]|]; [|exact Hinv].
    unfold Background.processQueue.
    set (s1 := Background.clearTimeout id s).
    assert (Hinv1 : estimate_inv u I now L0 base T0 clock s1) by exact Hinv.
    destruct (String.eqb_spec v u) as [->|Hne].
    + apply estimate_inv_processQueue; assumption.
    + apply Hother; assumption.
Qed.

Lemma estimate_inv_run (u : string) I now L0 (base : list (P * Z)) T0
      (evs : list (@Background.Event P)) :
  0 < I -> now = clock T0 ->
  forall s,
    Background.interval_is u I evs ->
    estimate_inv u I now L0 base T0 clock s ->
    estimate_inv u I now L0 base T0 clock (Background.run clock evs s).
Proof.
  intros HI Hnow. induction evs as [|ev evs IH]; intros s Hevs Hinv;
    [exact Hinv|].
  unfold Background.interval_is in Hevs.
  apply Forall_cons in Hevs as [Hev Hrest].
  cbn [Background.run fold_left]. apply IH; [exact Hrest|].
  apply estimate_inv_step; assumption.
Qed.

Lemma ceil_seconds_below (x : Z) : 1000 * (Notice.ceil_seconds x - 1) < x.
Proof. unfold Notice.ceil_seconds. Z.div_mod_to_equations. lia. Qed.

(** the bound, for the payloads that were pending at the notification *)
Lemma estimate_is_a_lower_bound (u : string) (I : Z)
      (evs evs' : list (@Background.Event P)) position totalWait s1 p t :
  0 < I ->
  Background.interval_is u I evs ->
  Background.interval_is u I evs' ->
  let s := Background.run clock evs Background.initial in
  Notice.updateNotification clock u s = (Some (position, totalWait), s1) ->
  let s' := Background.run clock evs' s1 in
  Background.sends u s' !! (length (Background.sends u s) + position - 1)%nat
  = Some (p, t) ->
  position = length (Background.pending u s) /\
  last (Background.pending u s) = Some p /\
  1000 * (totalWait - 1) < t - clock (Background.ticks s).
Proof.
  intros HI Hevs Hevs' s Hnotice s' Hsent.
  pose proof (queue_inv_run clock u I evs HI [] Background.initial Hevs
                (queue_inv_initial u I)) as (Hfifo & _ & Hdata).
  cbn [app] in Hfifo, Hdata. fold s in Hfifo, Hdata.
  unfold Notice.updateNotification in Hnotice.
  destruct (Background.webhookQueues s !! u) as [qd|] eqn:Hqd;
    [|discriminate].
  destruct (Background.queue qd) as [|item rest] eqn:Hq; [discriminate|].
  cbv [Background.Date_now] in Hnotice. cbv beta iota zeta in Hnotice.
  inversion Hnotice; subst position totalWait s1; clear Hnotice.
  destruct Hdata as [Hrate _].
  set (now := clock (Background.ticks s)) in *.
  set (s1 := Background.mkState _ _ _ _ _) in *.
  assert (Hpending : Background.pending u s
                     = List.map Background.payload (item :: rest))
    by (unfold Background.pending; rewrite Hqd, Hq; reflexivity).
  assert (Hinv1 : estimate_inv u I now (Background.lastSent qd)
                    (Background.posted u s) (Background.ticks s) clock s1).
  { split; [cbn; lia|]. exists [], qd.
    split; [reflexivity|]. split; [exact Hqd|]. split; [exact Hrate|].
    split; [intros j t0 Hj; destruct j; discriminate|]. cbn. lia. }
  apply (estimate_inv_run u I now (Background.lastSent qd)
           (Background.posted u s) (Background.ticks s) evs' HI eq_refl
           s1 Hevs') in Hinv1.
  fold s' in Hinv1.
  destruct Hinv1 as (_ & news & qd' & Hposted & _ & _ & Hnews & _).
  pose proof (payloads_kept clock u evs' s1) as Hkept. fold s' in Hkept.
  assert (Hs1 : forall v, Background.sends v s1 = Background.sends v s)
    by reflexivity.
  assert (Hp1 : Background.pending u s1 = Background.pending u s)
    by reflexivity.
  rewrite Hs1, Hp1 in Hkept.
  unfold Background.sends in Hsent, Hkept. rewrite Hposted in Hsent, Hkept.
  rewrite rev_app_distr in Hsent, Hkept. rewrite length_rev in Hsent.
  set (idx := length rest).
  replace (length (Background.posted u s) + S (length rest) - 1)%nat
    with (length (rev (Background.posted u s)) + idx)%nat in Hsent
    by (rewrite length_rev; subst idx; lia).
  rewrite lookup_app_r, Nat.add_comm, Nat.add_sub in Hsent by lia.
  split; [rewrite Hpending, length_map; reflexivity|].
  split.
  - assert (Hpay : (List.map fst (rev news)
                    ++ Background.pending u s')%list !! idx = Some p).
    { rewrite lookup_app_l
        by (rewrite length_map; apply lookup_lt_Some in Hsent; exact Hsent).
      apply (lookup_map fst _ _ _ Hsent). }
    rewrite map_app, <- !app_assoc in Hkept.
    apply app_inv_head in Hkept.
    rewrite Hkept in Hpay.
    rewrite lookup_app_l in Hpay
      by (rewrite Hpending, length_map; subst idx; cbn; lia).
    rewrite last_lookup. rewrite <- Hpay. f_equal.
    rewrite Hpending, length_map. subst idx. reflexivity.
  - assert (Ht : rev (List.map snd news) !! idx = Some t).
    { rewrite <- map_rev. apply (lookup_map snd _ _ _ Hsent). }
    apply Hnews in Ht.
    pose proof (ceil_seconds_below
                  (Z.max 0 (Background.rateLimit qd * 1000
                            - (now - Background.lastSent qd))
                   + (Z.of_nat (length (item :: rest)) - 1)
                     * (Background.rateLimit qd * 1000))) as Hceil.
    subst idx. rewrite Hrate in *. cbn [length] in *. lia.
Qed.

End EstimateProofs.

(** X24.  The time the queued-notification shows is never more than the time
    that is left.  Under a rate limit of [I] seconds and a clock that does
    not run backwards: when [updateNotification] shows [position] entries
    in the queue and [totalWait] seconds remaining, [position] is the
    number of payloads pending, and the last of them, whenever it is
    dispatched, is dispatched more than [totalWait - 1] seconds after the
    notification read the clock. *)
Theorem queue_estimate_never_overstates {P : Type} (clock : nat -> Z)
        (webhookUrl : string) (I : Z) (evs evs' : list (@Background.Event P))
        (position : nat) (totalWait : Z) (s1 : @Background.State P)
        (p : P) (t : Z) :
  0 < I ->
  (forall i j : nat, (i <= j)%nat -> clock i <= clock j) ->
  Background.interval_is webhookUrl I evs ->
  Background.interval_is webhookUrl I evs' ->
  let s := Background.run clock evs Background.initial in
  Notice.updateNotification clock webhookUrl s
  = (Some (position, totalWait), s1) ->
  let s' := Background.run clock evs' s1 in
  Background.sends webhookUrl s'
  !! (length (Background.sends webhookUrl s) + position - 1)%nat
  = Some (p, t) ->
  position = length (Background.pending webhookUrl s) /\
  last (Background.pending webhookUrl s) = Some p /\
  1000 * (totalWait - 1) < t - clock (Background.ticks s).
Proof.
  intros HI Hmono Hevs Hevs' s Hnotice s' Hsent.
  exact (estimate_is_a_lower_bound clock Hmono webhookUrl I evs evs'
           position totalWait s1 p t HI Hevs Hevs' Hnotice Hsent).
Qed.

Lemma queue_estimate_never_overstates_witness :
  let clock := Worlds.half_minute_clock in
  let s := Background.run clock (take 4 Fixtures.three_payloads)
             Background.initial in
  2%nat = length (Background.pending Fixtures.hook_a s) /\
  last (Background.pending Fixtures.hook_a s) = Some 3%nat /\
  1000 * (30 - 1) < 1700000093000 - clock (Background.ticks s).
Proof.
  intros clock s.
  apply (queue_estimate_never_overstates clock Fixtures.hook_a 30
           (take 4 Fixtures.three_payloads)
           [Background.TimerFires 2; Background.TimerFires 3]
           2 30 (Notice.updateNotification clock Fixtures.hook_a s).2
           3%nat 1700000093000).
  - lia.
  - intros i j Hij. subst clock. unfold Worlds.half_minute_clock.
    destruct (Nat.ltb_spec i 12); destruct (Nat.ltb_spec j 12); lia.
  - repeat constructor; intros Hu; try reflexivity; discriminate Hu.
  - repeat constructor.
  - vm_compute. reflexivity.
  - vm_compute. reflexivity.
Defined.
